(** * Event-log record decoding: a shallow embedding of package [eventlog]

    The Go package reads the legacy Windows event log through
    [ReadEventLogW] and splits every filled buffer into
    [EVENTLOGRECORD]s.  The definitions below follow
    [GetSourceFromEvent], [WindowsTimeToTime] and
    [CollectWindowsEventLogs] statement by statement: unsigned 32-bit
    arithmetic is written with its wrap-around, indexing a slice outside
    its bounds is a fault, and the operating system is a state machine
    whose answers the read loop consumes. *)

From Stdlib Require Import ZArith List String Ascii Bool Lia DecimalString.
From Stdlib Require DecimalN DecimalPos.
Import ListNotations.
Open Scope Z_scope.

(** ** Machine integers *)

Definition u32 (z : Z) : Z := z mod 4294967296.
Definition u16 (z : Z) : Z := z mod 65536.
(** [int32(x)]: two's-complement truncation. *)
Definition i32 (z : Z) : Z := (z + 2147483648) mod 4294967296 - 2147483648.

(** ** Faults

    [IndexOutOfRange] is Go's run-time panic of a slice index or slice
    expression.  [OutsideSlice] marks a read through an [unsafe.Pointer]
    overlay that leaves the slice: Go performs it unchecked, on memory the
    program does not own.  [OutOfFuel] is the model's own: the loop did
    not finish within the given number of iterations. *)

Inductive fault : Type := IndexOutOfRange | OutsideSlice | OutOfFuel.

Inductive res (A : Type) : Type :=
| Ok (a : A)
| Fault (f : fault).
Arguments Ok {A} a.
Arguments Fault {A} f.

Definition bind {A B : Type} (m : res A) (k : A -> res B) : res B :=
  match m with
  | Ok a => k a
  | Fault f => Fault f
  end.

Notation "x <- m ;; k" := (bind m (fun x => k))
  (at level 61, m at next level, right associativity).

(** ** Byte buffers *)

Definition len {A : Type} (l : list A) : Z := Z.of_nat (List.length l).

(** [buffer[i]], bounds-checked. *)
Definition index (buffer : list Z) (i : Z) : res Z :=
  if (0 <=? i) && (i <? len buffer)
  then Ok (nth (Z.to_nat i) buffer 0)
  else Fault IndexOutOfRange.

(** A byte read through a pointer overlay at byte address [i] of the
    slice's backing store. *)
Definition peek8 (buffer : list Z) (i : Z) : res Z :=
  if (0 <=? i) && (i <? len buffer)
  then Ok (nth (Z.to_nat i) buffer 0)
  else Fault OutsideSlice.

(** Little-endian fields of the overlay (the program runs on Windows). *)
Definition peek16 (buffer : list Z) (i : Z) : res Z :=
  b0 <- peek8 buffer i ;;
  b1 <- peek8 buffer (i + 1) ;;
  Ok (b0 + 256 * b1).

Definition peek32 (buffer : list Z) (i : Z) : res Z :=
  lo <- peek16 buffer i ;;
  hi <- peek16 buffer (i + 2) ;;
  Ok (lo + 65536 * hi).

(** The [uint16] array overlaid at [&buffer[start]] and cut to its first
    [n] elements: [n] code units read through the overlay. *)
Fixpoint peek_units (buffer : list Z) (start : Z) (n : nat) : res (list Z) :=
  match n with
  | O => Ok []
  | S n' =>
      u <- peek16 buffer start ;;
      us <- peek_units buffer (start + 2) n' ;;
      Ok (u :: us)
  end.

(** [buffer[lo:hi]] of a slice whose capacity is its length. *)
Definition slice (buffer : list Z) (lo hi : Z) : res (list Z) :=
  if (0 <=? lo) && (lo <=? hi) && (hi <=? len buffer)
  then Ok (firstn (Z.to_nat (hi - lo)) (skipn (Z.to_nat lo) buffer))
  else Fault IndexOutOfRange.

(** ** [syscall.UTF16ToString]

    Library code: the sequence is cut at its first NUL unit, decoded as
    UTF-16 ([utf16.Decode], an unpaired surrogate becomes U+FFFD) and
    encoded as UTF-8. *)

Fixpoint cut_at_nul (s : list Z) : list Z :=
  match s with
  | [] => []
  | v :: s' => if v =? 0 then [] else v :: cut_at_nul s'
  end.

Definition replacementChar : Z := 65533.

Fixpoint utf16_decode_from (prev : option Z) (s : list Z) : list Z :=
  match prev, s with
  | None, [] => []
  | Some _, [] => [replacementChar]
  | None, r :: s' =>
      if (r <? 55296) || (57344 <=? r) then r :: utf16_decode_from None s'
      else if r <? 56320 then utf16_decode_from (Some r) s'
      else replacementChar :: utf16_decode_from None s'
  | Some r1, r :: s' =>
      if (56320 <=? r) && (r <? 57344)
      then (Z.lor (Z.shiftl (r1 - 55296) 10) (r - 56320) + 65536)
             :: utf16_decode_from None s'
      else if (r <? 55296) || (57344 <=? r)
           then replacementChar :: r :: utf16_decode_from None s'
           else replacementChar :: utf16_decode_from (Some r) s'
  end.

Definition utf16_Decode (s : list Z) : list Z := utf16_decode_from None s.

Definition byte_char (z : Z) : ascii := ascii_of_N (Z.to_N z).

Definition utf8_encode_rune (r : Z) : string :=
  if r <? 128 then String (byte_char r) EmptyString
  else if r <? 2048 then
    String (byte_char (Z.lor 192 (Z.shiftr r 6)))
      (String (byte_char (Z.lor 128 (Z.land r 63))) EmptyString)
  else if r <? 65536 then
    String (byte_char (Z.lor 224 (Z.shiftr r 12)))
      (String (byte_char (Z.lor 128 (Z.land (Z.shiftr r 6) 63)))
         (String (byte_char (Z.lor 128 (Z.land r 63))) EmptyString))
  else
    String (byte_char (Z.lor 240 (Z.shiftr r 18)))
      (String (byte_char (Z.lor 128 (Z.land (Z.shiftr r 12) 63)))
         (String (byte_char (Z.lor 128 (Z.land (Z.shiftr r 6) 63)))
            (String (byte_char (Z.lor 128 (Z.land r 63))) EmptyString))).

Fixpoint string_of_runes (rs : list Z) : string :=
  match rs with
  | [] => EmptyString
  | r :: rs' => append (utf8_encode_rune r) (string_of_runes rs')
  end.

Definition UTF16ToString (s : list Z) : string :=
  string_of_runes (utf16_Decode (cut_at_nul s)).

(** ** [fmt.Sprintf] verbs and [strings] functions used by the package *)

Definition i64 (z : Z) : Z :=
  (z + 9223372036854775808) mod 18446744073709551616 - 9223372036854775808.

Definition digits (n : Z) : string :=
  NilZero.string_of_uint (N.to_uint (Z.to_N n)).

Fixpoint zeros (n : nat) : string :=
  match n with
  | O => EmptyString
  | S n' => String "0" (zeros n')
  end.

(** The verb [%0wd]: the sign counts in the width. *)
Definition fmt_0d (w : nat) (z : Z) : string :=
  let d := digits (Z.abs z) in
  if z <? 0
  then String "-" (append (zeros (w - 1 - String.length d)) d)
  else append (zeros (w - String.length d)) d.

(** [strings.Split(s, sep)] for a one-byte separator. *)
Fixpoint Split (sep : ascii) (s : string) : list string :=
  match s with
  | EmptyString => [EmptyString]
  | String c s' =>
      if Ascii.eqb c sep then EmptyString :: Split sep s'
      else match Split sep s' with
           | [] => [String c EmptyString]
           | p :: ps => String c p :: ps
           end
  end.

Definition HasPrefix (s p : string) : bool := String.prefix p s.

(** ** Constants of the package *)

Definition ERROR_NO_MORE_ITEMS : Z := 259.
Definition ERROR_INSUFFICIENT_BUFFER : Z := 122.
Definition ERROR_FILE_NOT_FOUND : Z := 2.
Definition sizeof_EVENTLOGRECORD : Z := 56.

Record EventLogData : Type := mkEvent {
  RecordNumber : Z;
  TimeGenerated : Z;
  TimeWritten : Z;
  EventID : Z;
  EventType : Z;
  EventCategory : Z;
  SourceName : string;
  ComputerName : string;
  Strings : list string;
  Data : list Z
}.

(** ** The terminator scan

    Both scans of the package are the same loop,
    [for end+1 < len(buffer) && (buffer[end] != 0 || buffer[end+1] != 0)
       { end += 2; if end-start > cap { break } }],
    with [cap] 1024 for the source name and 32768 for a string field.
    The result is the final value of [end]. *)
Fixpoint scan (cap : Z) (fuel : nat) (buffer : list Z) (start e : Z)
  : res Z :=
  match fuel with
  | O => Fault OutOfFuel
  | S fuel' =>
      if u32 (e + 1) <? u32 (len buffer) then
        b0 <- index buffer e ;;
        nonzero <- (if negb (b0 =? 0) then Ok true
                    else b1 <- index buffer (u32 (e + 1)) ;;
                         Ok (negb (b1 =? 0))) ;;
        if nonzero : bool then
          let e' := u32 (e + 2) in
          if u32 (e' - start) >? cap then Ok e'
          else scan cap fuel' buffer start e'
        else Ok e
      else Ok e
  end.

(** Iterations that always suffice: the cap stops the loop after
    [cap / 2 + 1] increments. *)
Definition scan_fuel (cap : Z) : nat := Z.to_nat (cap / 2 + 2).

(** ** [GetSourceFromEvent] *)

(** The text field at [start], as both extractors read it: the scan
    for the terminator, then the conversion of the units before it when
    their number is positive and below [limit].  The result pairs the
    converted text, if any, with the end of the scan. *)
Definition text_field (cap limit : Z) (buffer : list Z) (start : Z)
  : res (option string * Z) :=
  e <- scan cap (scan_fuel cap) buffer start start ;;
  let strLen := u32 (e - start) / 2 in
  if (0 <? strLen) && (strLen <? limit) then
    _ <- index buffer start ;;
    units <- peek_units buffer start (Z.to_nat strLen) ;;
    Ok (Some (UTF16ToString units), e)
  else Ok (None, e).

(** The first half of the function: the name decoded from the buffer,
    or the empty string when the function goes on to its fallbacks. *)
Definition decode_source (buffer : list Z) (offset : Z) : res string :=
  let sourceStart := u32 (offset + 8 * 4) in
  r <- text_field 1024 1024 buffer sourceStart ;;
  match fst r with
  | Some sourceName => Ok sourceName
  | None => Ok EmptyString
  end.

(** The second half: the fallbacks. *)
Definition source_fallback (logName : string) : string :=
  if String.eqb logName "System" || String.eqb logName "Application"
     || String.eqb logName "Security"
  then logName
  else
    match (if HasPrefix logName "Microsoft-Windows-"
           then Split "/" logName else []) with
    | part0 :: _ => part0
    | [] => "EventLog"%string
    end.

Definition GetSourceFromEvent (logName : string) (buffer : list Z)
    (offset : Z) : res string :=
  sourceName <- decode_source buffer offset ;;
  if negb (String.eqb sourceName EmptyString) then Ok sourceName
  else Ok (source_fallback logName).

(** ** [WindowsTimeToTime] *)

(** [syscall.NsecToTimeval] on Windows, where [Timeval.Sec] is an
    [int32]; only [Sec] is used. *)
Definition NsecToTimeval_Sec (nsec : Z) : Z := i32 (Z.quot nsec 1000000000).

Definition WindowsTimeToTime (windowsTime : Z) : string :=
  let unixTime := windowsTime in
  let Sec := NsecToTimeval_Sec (i64 (unixTime * 1000000000)) in
  let y := Z.rem Sec 31536000 in
  let m := Z.rem y 2592000 in
  let d := Z.rem m 86400 in
  let h := Z.rem d 3600 in
  append (fmt_0d 4 (i32 (1970 + Z.quot Sec 31536000)))
    (String "-" (append (fmt_0d 2 (i32 (Z.quot y 2592000 + 1)))
      (String "-" (append (fmt_0d 2 (i32 (Z.quot m 86400 + 1)))
        (String " " (append (fmt_0d 2 (Z.quot d 3600))
          (String ":" (append (fmt_0d 2 (Z.quot h 60))
            (String ":" (fmt_0d 2 (Z.rem h 60))))))))))).

(** ** The extractors of [CollectWindowsEventLogs] *)

(** The loop [for i := uint16(0); i < record.NumStrings; i++], by the
    number [n] of iterations left; [acc] is [event.Strings]. *)
Fixpoint strings_loop (n : nat) (buffer : list Z) (stringsPtr : Z)
    (acc : list string) : res (list string) :=
  match n with
  | O => Ok acc
  | S n' =>
      if stringsPtr >=? u32 (len buffer) then Ok acc
      else
        r <- text_field 32768 16384 buffer stringsPtr ;;
        let strEnd := snd r in
        let acc' := match fst r with
                    | Some str => acc ++ [str]
                    | None => acc
                    end in
        if u32 (strEnd + 2) >=? u32 (len buffer) then Ok acc'
        else strings_loop n' buffer (u32 (strEnd + 2)) acc'
  end.

Definition extract_strings (buffer : list Z) (offset NumStrings StringOffset : Z)
  : res (list string) :=
  if (0 <? NumStrings) && (0 <? StringOffset) then
    let stringsPtr := u32 (offset + StringOffset) in
    if stringsPtr <? u32 (len buffer)
    then strings_loop (Z.to_nat NumStrings) buffer stringsPtr []
    else Ok []
  else Ok [].

Definition extract_data (buffer : list Z) (offset DataLength DataOffset : Z)
  : res (list Z) :=
  if (0 <? DataLength) && (0 <? DataOffset) then
    let dataStart := u32 (offset + DataOffset) in
    if dataStart <? u32 (len buffer) then
      let dataEnd := u32 (dataStart + DataLength) in
      let dataEnd := if dataEnd >? u32 (len buffer)
                     then u32 (len buffer) else dataEnd in
      if dataEnd >? dataStart then slice buffer dataStart dataEnd
      else Ok []
    else Ok []
  else Ok [].

(** The event built from the record overlaid at [offset]: the fields are
    read where the structure [EVENTLOGRECORD] has them. *)
Definition build_event (logName localComputerName : string)
    (buffer : list Z) (offset : Z) : res EventLogData :=
  recordNumber <- peek32 buffer (offset + 8) ;;
  timeGenerated <- peek32 buffer (offset + 12) ;;
  timeWritten <- peek32 buffer (offset + 16) ;;
  eventID <- peek32 buffer (offset + 20) ;;
  eventType <- peek16 buffer (offset + 24) ;;
  eventCategory <- peek16 buffer (offset + 28) ;;
  sourceName <- GetSourceFromEvent logName buffer offset ;;
  numStrings <- peek16 buffer (offset + 26) ;;
  stringOffset <- (if 0 <? numStrings then peek32 buffer (offset + 36)
                   else Ok 0) ;;
  strings <- extract_strings buffer offset numStrings stringOffset ;;
  dataLength <- peek32 buffer (offset + 48) ;;
  dataOffset <- (if 0 <? dataLength then peek32 buffer (offset + 52)
                 else Ok 0) ;;
  data <- extract_data buffer offset dataLength dataOffset ;;
  Ok {| RecordNumber := recordNumber;
        TimeGenerated := timeGenerated;
        TimeWritten := timeWritten;
        EventID := Z.land eventID 65535;
        EventType := eventType;
        EventCategory := eventCategory;
        SourceName := sourceName;
        ComputerName := localComputerName;
        Strings := strings;
        Data := data |}.

(** ** The event-id filter *)

Fixpoint eventIDMatches (id : Z) (specificEventIDs : list Z) : bool :=
  match specificEventIDs with
  | [] => false
  | i :: rest => if id =? i then true else eventIDMatches id rest
  end.

(** The block that ends an iteration of the record loop: [logs] after it. *)
Definition filter_append (specificEventIDs : list Z)
    (logs : list EventLogData) (event : EventLogData) : list EventLogData :=
  if 0 <? len specificEventIDs then
    if eventIDMatches (EventID event) specificEventIDs
    then logs ++ [event] else logs
  else logs ++ [event].

(** ** The record loop *)

Inductive step_result : Type :=
| Break (logs : list EventLogData)
| Next (offset : Z) (logs : list EventLogData).

(** One evaluation of the loop condition [offset < bytesRead] and, when
    it holds, of the loop body. *)
Definition walk_step (logName localComputerName : string)
    (specificEventIDs : list Z) (totalRecords : Z)
    (buffer : list Z) (bytesRead offset : Z) (logs : list EventLogData)
  : res step_result :=
  if offset <? bytesRead then
    if u32 (offset + sizeof_EVENTLOGRECORD) >? bytesRead then Ok (Break logs)
    else
      _ <- index buffer offset ;;
      Length <- peek32 buffer offset ;;
      if (Length <? sizeof_EVENTLOGRECORD)
         || (Length >? u32 (bytesRead - offset)) then
        let offset' := u32 (offset + 8) in
        if offset' >=? bytesRead then Ok (Break logs)
        else Ok (Next offset' logs)
      else
        event <- build_event logName localComputerName buffer offset ;;
        let logs' := filter_append specificEventIDs logs event in
        let offset' := u32 (offset + Length) in
        if len logs' >=? totalRecords then Ok (Break logs')
        else Ok (Next offset' logs')
  else Ok (Break logs).

Fixpoint walk (fuel : nat) (logName localComputerName : string)
    (specificEventIDs : list Z) (totalRecords : Z)
    (buffer : list Z) (bytesRead offset : Z) (logs : list EventLogData)
  : res (list EventLogData) :=
  match fuel with
  | O => Fault OutOfFuel
  | S fuel' =>
      r <- walk_step logName localComputerName specificEventIDs totalRecords
             buffer bytesRead offset logs ;;
      match r with
      | Break logs' => Ok logs'
      | Next offset' logs' =>
          walk fuel' logName localComputerName specificEventIDs totalRecords
            buffer bytesRead offset' logs'
      end
  end.

(** ** The log service and the read loop *)

Inductive error : Type :=
| ErrLogName                       (* failed to convert log name to UTF16 *)
| ErrNotFound (logName : string)   (* event log not found *)
| ErrOpen (errno : Z)              (* failed to open event log *)
| ErrCount                         (* failed to get number of records *)
| ErrRead (errno : Z).             (* error reading event log *)

(** An answer of [ReadEventLogW]: a non-zero return with the bytes it
    wrote at the start of the buffer ([bytesRead] is their number), or a
    zero return with the error number and [bytesNeeded]. *)
Inductive ReadResult : Type :=
| ReadDone (data : list Z)
| ReadFailed (errno : Z) (bytesNeeded : Z).

Inductive OpenResult (St : Type) : Type :=
| Opened (handle : St)
| OpenFailed (errno : Z).
Arguments Opened {St} handle.
Arguments OpenFailed {St} errno.

(** [make([]byte, n)] *)
Definition make_bytes (n : Z) : list Z := repeat 0 (Z.to_nat n).

(** The buffer after the service wrote [data] at its start. *)
Definition overwrite (buffer data : list Z) : list Z :=
  firstn (List.length buffer) (data ++ skipn (List.length data) buffer).

(** [syscall.UTF16PtrFromString] fails on a string with a NUL byte. *)
Fixpoint has_nul (s : string) : bool :=
  match s with
  | EmptyString => false
  | String c s' => Ascii.eqb c zero || has_nul s'
  end.

Section Service.

(** The state behind an open handle, and the four calls of the
    service the package makes. *)
Variable St : Type.
Variable GetComputerNameW : option string.
Variable OpenEventLogW : string -> OpenResult St.
Variable GetNumberOfEventLogRecords : St -> option Z.
Variable ReadEventLogW : St -> Z -> ReadResult * St.

Definition GetLocalComputerName : string :=
  match GetComputerNameW with
  | Some name => name
  | None => "Unknown"%string
  end.

Variables (logName : string) (specificEventIDs : list Z).

(** The loop [for len(logs) < int(totalRecords)].  [wfuel] bounds each
    run of the record loop, [fuel] the number of reads. *)
Fixpoint read_loop (wfuel fuel : nat) (totalRecords : Z) (st : St)
    (bufferSize : Z) (buffer : list Z) (logs : list EventLogData)
  : res (list EventLogData * option error) :=
  match fuel with
  | O => Fault OutOfFuel
  | S fuel' =>
      if len logs <? totalRecords then
        _ <- index buffer 0 ;;
        match ReadEventLogW st bufferSize with
        | (ReadFailed errno bytesNeeded, st') =>
            if errno =? ERROR_NO_MORE_ITEMS then Ok (logs, None)
            else if errno =? ERROR_INSUFFICIENT_BUFFER then
              let bufferSize := u32 bytesNeeded in
              read_loop wfuel fuel' totalRecords st' bufferSize
                (make_bytes bufferSize) logs
            else Ok (logs, Some (ErrRead errno))
        | (ReadDone data, st') =>
            let buffer := overwrite buffer data in
            let bytesRead := u32 (len data) in
            logs' <- walk wfuel logName GetLocalComputerName
                       specificEventIDs totalRecords buffer bytesRead 0
                       logs ;;
            read_loop wfuel fuel' totalRecords st' bufferSize buffer logs'
        end
      else Ok (logs, None)
  end.

(** The number of events to read, from the count the service reports. *)
Definition limit (maxEvents totalRecords : Z) : Z :=
  if (0 <? maxEvents) && (totalRecords >? maxEvents)
  then u32 maxEvents else totalRecords.

Definition CollectWindowsEventLogs (wfuel fuel : nat) (maxEvents : Z)
  : res (list EventLogData * option error) :=
  if has_nul logName then Ok ([], Some ErrLogName)
  else
    match OpenEventLogW logName with
    | OpenFailed errno =>
        if errno =? ERROR_FILE_NOT_FOUND
        then Ok ([], Some (ErrNotFound logName))
        else Ok ([], Some (ErrOpen errno))
    | Opened handle =>
        match GetNumberOfEventLogRecords handle with
        | None => Ok ([], Some ErrCount)
        | Some totalRecords =>
            let totalRecords := limit maxEvents (u32 totalRecords) in
            read_loop wfuel fuel totalRecords handle 4096
              (make_bytes 4096) []
        end
    end.

End Service.

(** ** Sample records and a sample service *)

Definition le16 (n : Z) : list Z := [n mod 256; (n / 256) mod 256].
Definition le32 (n : Z) : list Z := le16 (n mod 65536) ++ le16 (n / 65536).

(** The UTF-16 bytes of an ASCII text, without terminator. *)
Fixpoint utf16_bytes (s : string) : list Z :=
  match s with
  | EmptyString => []
  | String c s' => Z.of_N (N_of_ascii c) :: 0 :: utf16_bytes s'
  end.

(** The 56 header bytes of a record. *)
Definition header_bytes (Length RecordNum EventId EventTyp NumStr
    StringOff DataLen DataOff : Z) : list Z :=
  le32 Length ++ le32 0 ++ le32 RecordNum ++ le32 1700000000
    ++ le32 1700000001 ++ le32 EventId ++ le16 EventTyp ++ le16 NumStr
    ++ le16 0 ++ le16 0 ++ le32 0 ++ le32 StringOff ++ le32 0 ++ le32 0
    ++ le32 DataLen ++ le32 DataOff.

(** A well-formed 76-byte record: source name "Svc", one string "ok",
    no payload, the length repeated at the end. *)
Definition sample_record (RecordNum EventId : Z) : list Z :=
  header_bytes 76 RecordNum EventId 8 1 64 0 0
    ++ utf16_bytes "Svc" ++ [0; 0] ++ utf16_bytes "ok" ++ [0; 0]
    ++ [0; 0] ++ le32 72.

(** A service whose log is a list of pending batches of bytes: a read
    delivers the next batch when the buffer can hold it, and asks for
    its size otherwise. *)
Definition batch_read (st : list (list Z)) (bufferSize : Z)
  : ReadResult * list (list Z) :=
  match st with
  | [] => (ReadFailed ERROR_NO_MORE_ITEMS 0, [])
  | d :: rest =>
      if len d <=? bufferSize then (ReadDone d, rest)
      else (ReadFailed ERROR_INSUFFICIENT_BUFFER (len d), st)
  end.

Definition batch_collect (log : list (list Z)) (count : Z)
    (logName : string) (specificEventIDs : list Z) (maxEvents : Z)
  : res (list EventLogData * option error) :=
  CollectWindowsEventLogs (list (list Z)) (Some "HOST"%string)
    (fun _ => Opened log) (fun _ => Some count) batch_read
    logName specificEventIDs 64 16 maxEvents.


(** ** Specification vocabulary *)

(** The code unit at byte [p] of the buffer is not NUL. *)
Definition unit_nonzero (buffer : list Z) (p : Z) : bool :=
  negb (nth (Z.to_nat p) buffer 0 =? 0)
  || negb (nth (Z.to_nat (p + 1)) buffer 0 =? 0).

Definition step_logs (r : step_result) : list EventLogData :=
  match r with
  | Break logs => logs
  | Next _ logs => logs
  end.

(** The event passes the filter of [CollectWindowsEventLogs]. *)
Definition passes (specificEventIDs : list Z) (event : EventLogData) : Prop :=
  specificEventIDs = [] \/ In (EventID event) specificEventIDs.

(** The event was built from a record of some buffer the loop walked,
    and passed the filter. *)
Definition produced (logName localComputerName : string)
    (specificEventIDs : list Z) (event : EventLogData) : Prop :=
  exists buffer offset,
    build_event logName localComputerName buffer offset = Ok event
    /\ passes specificEventIDs event.

(** The little-endian fields at byte [i], as pure reads. *)
Definition get16 (buffer : list Z) (i : Z) : Z :=
  nth (Z.to_nat i) buffer 0 + 256 * nth (Z.to_nat (i + 1)) buffer 0.

Definition get32 (buffer : list Z) (i : Z) : Z :=
  get16 buffer i + 65536 * get16 buffer (i + 2).

(** The [n] code units that start at byte [start]. *)
Fixpoint units_at (buffer : list Z) (start : Z) (n : nat) : list Z :=
  match n with
  | O => []
  | S n' =>
      (nth (Z.to_nat start) buffer 0
       + 256 * nth (Z.to_nat (start + 1)) buffer 0)
        :: units_at buffer (start + 2) n'
  end.

(** A text the string extractor keeps: the conversion of [k] non-NUL
    units that lie inside the buffer, with [0 < k < 16384]. *)
Definition kept_text (buffer : list Z) (s : string) : Prop :=
  exists p k : Z,
    0 <= p /\ (0 < k < 16384) /\ p + 2 * k <= len buffer /\
    (forall j, 0 <= j < k -> unit_nonzero buffer (p + 2 * j) = true) /\
    s = UTF16ToString (units_at buffer p (Z.to_nat k)).

(** What a terminator scan from [e] returns: it crossed [k] non-NUL
    units inside the buffer and stopped at [e'] on the cap, on the end of
    the buffer, or on a NUL unit. *)
Definition scan_post (cap : Z) (buffer : list Z) (start e e' : Z) : Prop :=
  exists k : Z,
    0 <= k /\ e' = e + 2 * k /\
    (forall j, 0 <= j < k ->
       e + 2 * j + 1 < len buffer /\ unit_nonzero buffer (e + 2 * j) = true) /\
    (0 < k -> e' - start <= cap + 2) /\
    (cap < e' - start \/ len buffer <= e' + 1
     \/ unit_nonzero buffer e' = false).

(** The text before the first ['/'] of a channel name, all of it when
    there is none. *)
Fixpoint first_segment (s : string) : string :=
  match s with
  | EmptyString => EmptyString
  | String c s' =>
      if Ascii.eqb c "/" then EmptyString else String c (first_segment s')
  end.

Fixpoint contains_slash (s : string) : bool :=
  match s with
  | EmptyString => false
  | String c s' => Ascii.eqb c "/" || contains_slash s'
  end.

(** The fallback chain in the words of the specification: a classic
    channel, else the first segment of a name with a ['/'], else the
    sentinel. *)
Definition spec_source_fallback (logName : string) : string :=
  if String.eqb logName "System" || String.eqb logName "Application"
     || String.eqb logName "Security"
  then logName
  else if contains_slash logName then first_segment logName
       else "EventLog"%string.

(** A record whose header field [ClosingRecordNumber], at byte 32, holds
    the two units of "AB"; the source name "Svc" follows the header. *)
Definition closing_AB_record : list Z :=
  le32 64 ++ le32 0 ++ le32 1 ++ le32 1700000000 ++ le32 1700000001
    ++ le32 4624 ++ le16 8 ++ le16 0 ++ le16 0 ++ le16 0
    ++ le32 (65 + 65536 * 66) ++ le32 0 ++ le32 0 ++ le32 0 ++ le32 0
    ++ le32 0 ++ utf16_bytes "Svc" ++ [0; 0].

(** The result is not the model's own fault: the computation finished
    within its fuel, with a value or with a fault of the program. *)
Definition finishes {A : Type} (r : res A) : Prop := r <> Fault OutOfFuel.

(** A buffer of [2^32 - 1] zero bytes, the largest a [uint32] size can
    ask of [make]. *)
Definition wrap_buffer : list Z := repeat 0 (Z.to_nat 4294967295).

(** No NUL unit stands in the scan window of the string field at [p]:
    every unit the scan can reach, up to its cap and inside the buffer,
    is non-NUL. *)
Definition lacks_terminator (buffer : list Z) (p : Z) : Prop :=
  forall j, 0 <= j <= 16384 -> p + 2 * j + 1 < len buffer ->
            unit_nonzero buffer (p + 2 * j) = true.

(** A 60-byte record whose only string, "AB" at byte 56, runs to the end
    of the buffer without terminator. *)
Definition unterminated_record : list Z :=
  header_bytes 60 1 7 4 1 56 0 0 ++ utf16_bytes "AB".

(** A well-formed record: its bytes begin with a header whose declared
    length is their number. *)
Definition well_formed_record (r : list Z) : Prop :=
  sizeof_EVENTLOGRECORD <= len r /\ get32 r 0 = len r.

(** A 64-byte corrupt record: its declared length is zero, and the
    field at byte 8, its record number, is 56. *)
Definition corrupt_record : list Z :=
  header_bytes 0 56 4000 2 0 0 0 0 ++ le32 0 ++ le32 0.

(** A 64-byte corrupt record none of whose eight aligned positions
    holds a plausible length. *)
Definition rejected_record : list Z :=
  header_bytes 0 1 4000 2 0 0 0 0 ++ le32 0 ++ le32 0.

(** The offsets at which the records [rs] start when they follow one
    another from [base]. *)
Fixpoint record_offsets (base : Z) (rs : list (list Z)) : list Z :=
  match rs with
  | [] => []
  | r :: rs' => base :: record_offsets (base + len r) rs'
  end.

(** The test of the filter on one event, for a non-empty allow-list. *)
Definition allowed (specificEventIDs : list Z) (event : EventLogData) : bool :=
  eventIDMatches (EventID event) specificEventIDs.

(** The byte of a character, and texts of non-NUL 7-bit characters. *)
Definition code (c : ascii) : Z := Z.of_N (N_of_ascii c).

Fixpoint codes (s : string) : list Z :=
  match s with
  | EmptyString => []
  | String c s' => code c :: codes s'
  end.

Fixpoint is_ascii_text (s : string) : bool :=
  match s with
  | EmptyString => true
  | String c s' => (0 <? code c) && (code c <? 128) && is_ascii_text s'
  end.

Definition str_len (s : string) : Z := Z.of_nat (String.length s).

(** The string fields of a record as the log stores them: each text in
    UTF-16 with its NUL unit, one after the other. *)
Definition encode_strings (ss : list string) : list Z :=
  List.concat (map (fun s => utf16_bytes s ++ [0; 0]) ss).

(** ** [GetEventTypeName] and the formatter package *)

Definition EVENTLOG_SUCCESS : Z := 0.
Definition EVENTLOG_ERROR_TYPE : Z := 1.
Definition EVENTLOG_WARNING_TYPE : Z := 2.
Definition EVENTLOG_INFORMATION_TYPE : Z := 4.
Definition EVENTLOG_AUDIT_SUCCESS : Z := 8.
Definition EVENTLOG_AUDIT_FAILURE : Z := 16.

(** The verb [%d]. *)
Definition fmt_d (z : Z) : string :=
  if z <? 0 then String "-" (digits (Z.abs z)) else digits z.

Definition GetEventTypeName (eventType : Z) : string :=
  if eventType =? EVENTLOG_SUCCESS then "Success"%string
  else if eventType =? EVENTLOG_ERROR_TYPE then "Error"%string
  else if eventType =? EVENTLOG_WARNING_TYPE then "Warning"%string
  else if eventType =? EVENTLOG_INFORMATION_TYPE then "Information"%string
  else if eventType =? EVENTLOG_AUDIT_SUCCESS then "Audit Success"%string
  else if eventType =? EVENTLOG_AUDIT_FAILURE then "Audit Failure"%string
  else append "Unknown (" (append (fmt_d eventType) ")").

(** The line feed. *)
Definition nl : string := String (ascii_of_nat 10) EmptyString.

(** What a [strings.Builder] holds after the given writes. *)
Fixpoint written (parts : list string) : string :=
  match parts with
  | [] => EmptyString
  | part :: rest => append part (written rest)
  end.

(** The loop [for j, msg := range log.Strings] of [FormatLogEntry],
    from index [j] on. *)
Fixpoint message_lines (j : Z) (msgs : list string) : string :=
  match msgs with
  | [] => EmptyString
  | msg :: rest =>
      append (written ["    "; fmt_d (i64 (j + 1)%Z); ": "; msg; nl]%string)
        (message_lines (j + 1) rest)
  end.

Definition FormatLogEntry (log : EventLogData) (index : Z) : string :=
  written
    [nl; "Log #"; fmt_d (i64 (index + 1)%Z); ":"; nl;
     "  Source: "; SourceName log; nl;
     "  Computer: "; ComputerName log; nl;
     "  EventID: "; fmt_d (EventID log); nl;
     "  Type: "; GetEventTypeName (EventType log); nl;
     "  Category: "; fmt_d (EventCategory log); nl;
     "  Time: "; WindowsTimeToTime (TimeGenerated log); nl;
     if (0 <? len (Strings log))%Z
     then written ["  Messages:"; nl; message_lines 0%Z (Strings log)]
     else EmptyString]%string.

(** The loop [for i, log := range logs] of [FormatLogChannel], from
    index [i] on. *)
Fixpoint entry_texts (i : Z) (logs : list EventLogData) : string :=
  match logs with
  | [] => EmptyString
  | log :: rest => append (FormatLogEntry log i) (entry_texts (i + 1) rest)
  end.

(** [strings.Repeat] of a one-character text. *)
Fixpoint Repeat (c : ascii) (n : nat) : string :=
  match n with
  | O => EmptyString
  | S n' => String c (Repeat c n')
  end.

Definition FormatLogChannel (channel : string) (logs : list EventLogData)
  : string :=
  written
    ["Found "; fmt_d (len logs); " logs in "; channel; " channel"; nl;
     if (len logs =? 0)%Z
     then written
       ["No matching events found with the specified Event IDs in this channel.";
        nl]
     else entry_texts 0%Z logs;
     Repeat "-"%char 50; nl]%string.

(** ** Package [config] *)

Record ChannelConfig : Type := mkChannel {
  Name : string;
  Purpose : string;
  EventIDs : list Z;
  Available : bool
}.

Definition GetChannelConfigs : list ChannelConfig :=
  [ mkChannel "Security" "User logins, privilege escalation"
      [4624; 4625; 4672; 4688; 4720; 4768] true;
    mkChannel "System" "System changes, service failures"
      [6005; 6006; 7000; 7001; 7002; 7003; 7004; 7005; 7006; 7007; 7008;
       7009; 7010; 7011; 7012; 7013; 7014; 7015; 7016; 7017; 7018; 7019;
       7020; 7021; 7022; 7023; 7045; 1102] true;
    mkChannel "Application" "App crashes, service failures"
      [1000; 7034; 5000] true;
    mkChannel "Microsoft-Windows-PowerShell/Operational"
      "PowerShell execution tracking" [4103; 4104; 4105; 4106] true;
    mkChannel "Microsoft-Windows-Windows Defender/Operational"
      "Malware detection" [1006; 1116; 5007] true;
    mkChannel "Microsoft-Windows-Sysmon/Operational"
      "Process and network monitoring" [1; 3; 7; 11; 13] false;
    mkChannel
      "Microsoft-Windows-TerminalServices-LocalSessionManager/Operational"
      "RDP connections" [21; 24; 25] true;
    mkChannel "Microsoft-Windows-TaskScheduler/Operational"
      "Scheduled task creation" [106; 140; 141] true;
    mkChannel "Microsoft-Windows-GroupPolicy/Operational" "GPO changes"
      [1502; 1503] true;
    mkChannel
      "Microsoft-Windows-Windows Firewall With Advanced Security/Firewall"
      "Network connections, rule changes" [2004; 2006; 5156; 5152] true ].

(** ** Package [filesenum]: [extractExecutablePath] *)

(** The double quote. *)
Definition dquote : ascii := ascii_of_nat 34.

(** [strings.Index(s, c)] for a one-byte text [c]. *)
Fixpoint IndexByte (c : ascii) (s : string) : Z :=
  match s with
  | EmptyString => -1
  | String x s' =>
      if Ascii.eqb x c then 0
      else let i := IndexByte c s' in if i =? -1 then -1 else i + 1
  end.

(** [s[lo:hi]] and [s[lo:]]; the function only slices at indexes it
    found in the text. *)
Definition slice_str (s : string) (lo hi : Z) : string :=
  substring (Z.to_nat lo) (Z.to_nat (hi - lo)) s.

Definition slice_from (s : string) (lo : Z) : string :=
  substring (Z.to_nat lo) (String.length s - Z.to_nat lo) s.

(** The loop [for i := 1; i < len(path); i++] that looks for the
    closing quote: [rest] is the text from index [i] on. *)
Fixpoint closing_quote (q : ascii) (rest : string) (i : Z) : option Z :=
  match rest with
  | EmptyString => None
  | String x rest' =>
      if Ascii.eqb x q then Some i else closing_quote q rest' (i + 1)
  end.

(** The endless loop that replaces [%NAME%] by the value of the
    environment variable; [Getenv] is [os.Getenv]. *)
Fixpoint expand_env (Getenv : string -> string) (fuel : nat) (path : string)
  : res string :=
  match fuel with
  | O => Fault OutOfFuel
  | S fuel' =>
      let startIdx := IndexByte "%" path in
      if startIdx =? -1 then Ok path
      else
        let endIdx := IndexByte "%" (slice_from path (startIdx + 1)) in
        if endIdx =? -1 then Ok path
        else
          let endIdx := endIdx + (startIdx + 1) in
          let envVar := slice_str path (startIdx + 1) endIdx in
          let envValue := Getenv envVar in
          expand_env Getenv fuel'
            (append (slice_str path 0 startIdx)
               (append envValue (slice_from path (endIdx + 1))))
  end.

Definition extractExecutablePath (Getenv : string -> string) (fuel : nat)
    (binaryPath : string) : res string :=
  let path := binaryPath in
  let path :=
    match path with
    | String c0 rest =>
        if Ascii.eqb c0 dquote || Ascii.eqb c0 "'" then
          match closing_quote c0 rest 1 with
          | Some i => slice_str path 1 i
          | None => path
          end
        else
          let spaceIndex := IndexByte " " path in
          if 0 <? spaceIndex then slice_str path 0 spaceIndex else path
    | EmptyString =>
        let spaceIndex := IndexByte " " path in
        if 0 <? spaceIndex then slice_str path 0 spaceIndex else path
    end in
  if negb (IndexByte "%" path =? -1) then expand_env Getenv fuel path
  else Ok path.

(** The character occurs in the text; the number of its occurrences. *)
Fixpoint occurs (c : ascii) (s : string) : bool :=
  match s with
  | EmptyString => false
  | String x s' => Ascii.eqb x c || occurs c s'
  end.

Fixpoint count_char (c : ascii) (s : string) : Z :=
  match s with
  | EmptyString => 0
  | String x s' => (if Ascii.eqb x c then 1 else 0) + count_char c s'
  end.

(** The structure [EVENTLOGRECORD] and its 56 bytes in memory, the
    fields in their order, little-endian and without padding. *)
Record EVENTLOGRECORD : Type := mkRecord {
  rec_Length : Z;
  rec_Reserved : Z;
  rec_RecordNumber : Z;
  rec_TimeGenerated : Z;
  rec_TimeWritten : Z;
  rec_EventID : Z;
  rec_EventType : Z;
  rec_NumStrings : Z;
  rec_EventCategory : Z;
  rec_ReservedFlags : Z;
  rec_ClosingRecordNumber : Z;
  rec_StringOffset : Z;
  rec_UserSidLength : Z;
  rec_UserSidOffset : Z;
  rec_DataLength : Z;
  rec_DataOffset : Z
}.

Definition record_bytes (r : EVENTLOGRECORD) : list Z :=
  le32 (rec_Length r) ++ le32 (rec_Reserved r) ++ le32 (rec_RecordNumber r)
    ++ le32 (rec_TimeGenerated r) ++ le32 (rec_TimeWritten r)
    ++ le32 (rec_EventID r) ++ le16 (rec_EventType r)
    ++ le16 (rec_NumStrings r) ++ le16 (rec_EventCategory r)
    ++ le16 (rec_ReservedFlags r) ++ le32 (rec_ClosingRecordNumber r)
    ++ le32 (rec_StringOffset r) ++ le32 (rec_UserSidLength r)
    ++ le32 (rec_UserSidOffset r) ++ le32 (rec_DataLength r)
    ++ le32 (rec_DataOffset r).

(** ** A log served by scripted reads *)

(** An answer of the service to one read of the loop: the bytes of some
    whole records, a request for a bigger buffer, or any other failure
    (the end of the log is the failure [ERROR_NO_MORE_ITEMS]). *)
Inductive reply : Type :=
| Records (rs : list (list Z))
| TooSmall (bytesNeeded : Z)
| Failure (errno bytesNeeded : Z).

Definition reply_result (r : reply) : ReadResult :=
  match r with
  | Records rs => ReadDone (List.concat rs)
  | TooSmall bytesNeeded => ReadFailed ERROR_INSUFFICIENT_BUFFER bytesNeeded
  | Failure errno bytesNeeded => ReadFailed errno bytesNeeded
  end.

(** The size of the buffer the loop presents at the read after [r]. *)
Definition next_size (bufferSize : Z) (r : reply) : Z :=
  match r with
  | TooSmall bytesNeeded => u32 bytesNeeded
  | _ => bufferSize
  end.

(** From the state [st] the service answers the successive reads of the
    loop, the first of them with a buffer of [bufferSize] bytes, by the
    replies of the script, in their order. *)
Inductive serves {St : Type} (read : St -> Z -> ReadResult * St)
  : St -> Z -> list reply -> Prop :=
| serves_nil (st : St) (bufferSize : Z) : serves read st bufferSize []
| serves_cons (st : St) (bufferSize : Z) (r : reply) (st' : St)
    (script : list reply) :
    read st bufferSize = (reply_result r, st') ->
    serves read st' (next_size bufferSize r) script ->
    serves read st bufferSize (r :: script).

(** The script is one a log service can play against a buffer of [size]
    bytes: every batch is made of well-formed records and fits the
    buffer, a request for a bigger buffer asks for a size between 1 and
    [2^32 - 56], and the script comes to a failure, which is not the
    request for a bigger buffer. *)
Fixpoint well_formed_script (size : Z) (script : list reply) : Prop :=
  match script with
  | [] => False
  | Records rs :: rest =>
      Forall well_formed_record rs /\ len (List.concat rs) <= size
      /\ well_formed_script size rest
  | TooSmall bytesNeeded :: rest =>
      (0 < u32 bytesNeeded <= 4294967240)
      /\ well_formed_script (u32 bytesNeeded) rest
  | Failure errno _ :: _ => errno <> ERROR_INSUFFICIENT_BUFFER
  end.

(** The records of the script, up to its first failure. *)
Fixpoint delivered (script : list reply) : list (list Z) :=
  match script with
  | [] => []
  | Records rs :: rest => rs ++ delivered rest
  | TooSmall _ :: rest => delivered rest
  | Failure _ _ :: _ => []
  end.

(** The error of the first failure of the script: none when it is the
    end of the log. *)
Fixpoint final_error (script : list reply) : option error :=
  match script with
  | [] => None
  | Records _ :: rest => final_error rest
  | TooSmall _ :: rest => final_error rest
  | Failure errno _ :: _ =>
      if errno =? ERROR_NO_MORE_ITEMS then None else Some (ErrRead errno)
  end.

Definition is_failure (r : reply) : bool :=
  match r with
  | Failure _ _ => true
  | _ => false
  end.

(** The event has the header fields of the record [r], read from the
    record's own bytes: the record number at byte 8, the two times at 12
    and 16, the low half of the event id at 20, the type at 24 and the
    category at 28. *)
Definition decodes (r : list Z) (event : EventLogData) : Prop :=
  RecordNumber event = get32 r 8
  /\ TimeGenerated event = get32 r 12
  /\ TimeWritten event = get32 r 16
  /\ EventID event = Z.land (get32 r 20) 65535
  /\ EventType event = get16 r 24
  /\ EventCategory event = get16 r 28.

(** The test of the filter, on the bytes of a record. *)
Definition record_kept (specificEventIDs : list Z) (r : list Z) : bool :=
  if 0 <? len specificEventIDs
  then eventIDMatches (Z.land (get32 r 20) 65535) specificEventIDs
  else true.

(** The log [logName] opens, the service counts [n] records in it, and
    it answers the reads of the loop, which start with a buffer of 4096
    bytes, by [script]. *)
Definition serves_log {St : Type} (open : string -> OpenResult St)
    (count : St -> option Z) (read : St -> Z -> ReadResult * St)
    (logName : string) (n : Z) (script : list reply) : Prop :=
  has_nul logName = false
  /\ exists handle,
       open logName = Opened handle /\ count handle = Some n
       /\ serves read handle 4096 script
       /\ well_formed_script 4096 script.

(** A sample service that plays a fixed list of answers and then reports
    the end of the log. *)
Definition scripted_read (st : list ReadResult) (bufferSize : Z)
  : ReadResult * list ReadResult :=
  match st with
  | [] => (ReadFailed ERROR_NO_MORE_ITEMS 0, [])
  | r :: rest => (r, rest)
  end.

(** * Basic facts *)

Lemma u32_small (z : Z) : 0 <= z < 4294967296 -> u32 z = z.
Proof. intros H. unfold u32. apply Z.mod_small. exact H. Qed.

Lemma u32_range (z : Z) : 0 <= u32 z < 4294967296.
Proof. unfold u32. apply Z.mod_pos_bound. lia. Qed.

Lemma len_nonneg {A : Type} (l : list A) : 0 <= len l.
Proof. unfold len. lia. Qed.

Lemma len_app {A : Type} (l1 l2 : list A) : len (l1 ++ l2) = len l1 + len l2.
Proof. unfold len. rewrite length_app. lia. Qed.

Lemma index_ok (buffer : list Z) (i : Z) :
  0 <= i < len buffer -> index buffer i = Ok (nth (Z.to_nat i) buffer 0).
Proof.
  intros [H0 H1]. unfold index.
  destruct (Z.leb_spec 0 i); [|lia].
  destruct (Z.ltb_spec i (len buffer)); [reflexivity|lia].
Qed.

Lemma peek8_ok (buffer : list Z) (i : Z) :
  0 <= i < len buffer -> peek8 buffer i = Ok (nth (Z.to_nat i) buffer 0).
Proof.
  intros [H0 H1]. unfold peek8.
  destruct (Z.leb_spec 0 i); [|lia].
  destruct (Z.ltb_spec i (len buffer)); [reflexivity|lia].
Qed.

Lemma peek16_ok (buffer : list Z) (i : Z) :
  0 <= i -> i + 2 <= len buffer -> peek16 buffer i = Ok (get16 buffer i).
Proof.
  intros H0 H1. unfold peek16.
  rewrite !peek8_ok by lia. reflexivity.
Qed.

Lemma peek32_ok (buffer : list Z) (i : Z) :
  0 <= i -> i + 4 <= len buffer -> peek32 buffer i = Ok (get32 buffer i).
Proof.
  intros H0 H1. unfold peek32.
  rewrite !peek16_ok by lia. reflexivity.
Qed.

Lemma peek_units_ok (buffer : list Z) (n : nat) :
  forall start, 0 <= start -> start + 2 * Z.of_nat n <= len buffer ->
  peek_units buffer start n = Ok (units_at buffer start n).
Proof.
  induction n as [|n IH]; intros start H0 H1.
  - reflexivity.
  - cbn [peek_units units_at]. rewrite peek16_ok by lia. cbn [bind].
    rewrite IH by lia. reflexivity.
Qed.

(** The terminator scan never faults inside a buffer shorter than
    [2^32 - 1] bytes, finishes within [scan_fuel], and stops as
    [scan_post] says. *)
Lemma scan_spec (cap : Z) (buffer : list Z) (start : Z) (fuel : nat) :
  len buffer <= 4294967294 ->
  forall e,
    0 <= start <= e -> e <= 4294967294 ->
    e - start <= cap ->
    cap - (e - start) + 2 <= 2 * Z.of_nat fuel ->
    exists e', scan cap fuel buffer start e = Ok e'
               /\ scan_post cap buffer start e e'.
Proof.
  intros HL. induction fuel as [|fuel IH]; intros e Hs He Hc Hf.
  - lia.
  - cbn [scan].
    pose proof (len_nonneg buffer) as HL0.
    rewrite (u32_small (e + 1)) by lia.
    rewrite (u32_small (len buffer)) by lia.
    destruct (Z.ltb_spec (e + 1) (len buffer)) as [Hin|Hout].
    + rewrite !index_ok by lia. cbn [bind].
      assert (Hnz : (if negb (nth (Z.to_nat e) buffer 0 =? 0) then Ok true
                     else Ok (negb (nth (Z.to_nat (e + 1)) buffer 0 =? 0)))
                    = Ok (unit_nonzero buffer e)).
      { unfold unit_nonzero.
        destruct (nth (Z.to_nat e) buffer 0 =? 0); reflexivity. }
      rewrite Hnz. cbn [bind].
      destruct (unit_nonzero buffer e) eqn:Hu.
      * rewrite (u32_small (e + 2)) by lia.
        rewrite (u32_small (e + 2 - start)) by lia.
        destruct (Z.gtb_spec (e + 2 - start) cap) as [Hcap|Hcap].
        -- exists (e + 2). split; [reflexivity|].
           exists 1. split; [lia|]. split; [lia|]. split; [|split; [lia|lia]].
           intros j Hj. assert (j = 0) by lia. subst j.
           replace (e + 2 * 0) with e by lia. split; [lia|exact Hu].
        -- destruct (IH (e + 2)) as [e' [E [k [Hk [Ee [Hall [Hb Hstop]]]]]]];
             try lia.
           exists e'. split; [exact E|].
           exists (k + 1). split; [lia|]. split; [lia|].
           split; [|split; [|exact Hstop]].
           ++ intros j Hj. destruct (Z.eq_dec j 0) as [->|Hj0].
              ** replace (e + 2 * 0) with e by lia. split; [lia|exact Hu].
              ** destruct (Hall (j - 1)) as [A B]; [lia|].
                 replace (e + 2 * j) with (e + 2 + 2 * (j - 1)) by lia.
                 split; [lia|exact B].
           ++ intros _. destruct (Z.eq_dec k 0) as [->|Hk0]; [lia|].
              apply Hb. lia.
      * exists e. split; [reflexivity|].
        exists 0. split; [lia|]. split; [lia|]. split; [|split; [lia|]].
        -- intros j Hj. lia.
        -- right. right. replace (e + 2 * 0) with e by lia. exact Hu.
    + exists e. split; [reflexivity|].
      exists 0. split; [lia|]. split; [lia|]. split; [|split; [lia|]].
      * intros j Hj. lia.
      * right. left. lia.
Qed.

Lemma scan_fuel_enough (cap : Z) :
  0 <= cap -> cap + 2 <= 2 * Z.of_nat (scan_fuel cap).
Proof.
  intros H. unfold scan_fuel.
  rewrite Z2Nat.id by (apply Z.add_nonneg_nonneg; [apply Z.div_pos|]; lia).
  pose proof (Z.mul_div_le cap 2 ltac:(lia)).
  pose proof (Z.mod_pos_bound cap 2 ltac:(lia)).
  pose proof (Z.div_mod cap 2 ltac:(lia)). lia.
Qed.

(** A text field inside a buffer shorter than [2^32 - 1] bytes is
    extracted without fault.  It crossed [k] non-NUL units, all inside
    the buffer, and is converted exactly when [0 < k < limit]. *)
Lemma text_field_spec (cap limit : Z) (buffer : list Z) (start : Z) :
  0 <= cap <= 4294967292 ->
  len buffer <= 4294967294 ->
  0 <= start <= 4294967294 ->
  exists k : Z,
    0 <= k /\
    (forall j, 0 <= j < k ->
       start + 2 * j + 1 < len buffer
       /\ unit_nonzero buffer (start + 2 * j) = true) /\
    (0 < k -> 2 * k <= cap + 2) /\
    (cap < 2 * k \/ len buffer <= start + 2 * k + 1
     \/ unit_nonzero buffer (start + 2 * k) = false) /\
    text_field cap limit buffer start
    = Ok (if (0 <? k) && (k <? limit)
          then Some (UTF16ToString (units_at buffer start (Z.to_nat k)))
          else None,
          start + 2 * k).
Proof.
  intros Hcap HL Hs.
  destruct (scan_spec cap buffer start (scan_fuel cap) HL start)
    as [e [E [k [Hk [Ee [Hall [Hb Hstop]]]]]]]; try lia.
  { pose proof (scan_fuel_enough cap). lia. }
  exists k. split; [exact Hk|]. split; [exact Hall|].
  split; [intros H; specialize (Hb H); lia|].
  split; [subst e; destruct Hstop as [H|[H|H]]; [left; lia|right; left; lia|
          right; right; exact H]|].
  unfold text_field. rewrite E. cbn [bind]. subst e.
  assert (Hlen : u32 (start + 2 * k - start) / 2 = k).
  { replace (start + 2 * k - start) with (k * 2) by lia.
    rewrite u32_small.
    - apply Z.div_mul. lia.
    - destruct (Z.eq_dec k 0) as [->|Hk0]; [lia|].
      assert (0 < k) as Hp by lia. specialize (Hb Hp). lia. }
  rewrite Hlen.
  destruct ((0 <? k) && (k <? limit)) eqn:Hc; [|reflexivity].
  apply andb_true_iff in Hc. destruct Hc as [Hc1 Hc2].
  apply Z.ltb_lt in Hc1.
  destruct (Hall 0) as [A0 _]; [lia|].
  destruct (Hall (k - 1)) as [A1 _]; [lia|].
  rewrite index_ok by lia. cbn [bind].
  rewrite peek_units_ok by (rewrite ?Z2Nat.id; lia).
  reflexivity.
Qed.

(** The loop over the string fields never faults; what it adds to
    [event.Strings] are kept texts, in the order of the buffer. *)
Lemma strings_loop_spec (buffer : list Z) (n : nat) :
  len buffer <= 4294967294 ->
  forall stringsPtr acc,
    0 <= stringsPtr < 4294967296 ->
    exists new,
      strings_loop n buffer stringsPtr acc = Ok (acc ++ new)
      /\ Forall (kept_text buffer) new.
Proof.
  intros HL. pose proof (len_nonneg buffer) as HL0.
  induction n as [|n IH]; intros p acc Hp.
  - exists []. rewrite app_nil_r. split; [reflexivity|constructor].
  - cbn [strings_loop]. rewrite (u32_small (len buffer)) by lia.
    destruct (Z.geb_spec p (len buffer)) as [Hge|Hlt].
    + exists []. rewrite app_nil_r. split; [reflexivity|constructor].
    + destruct (text_field_spec 32768 16384 buffer p)
        as [k [Hk [Hall [Hb [Hstop E]]]]]; try lia.
      rewrite E. cbn [bind fst snd].
      set (kept := (0 <? k) && (k <? 16384)) in *.
      assert (Hkept : kept = true -> kept_text buffer
                (UTF16ToString (units_at buffer p (Z.to_nat k)))).
      { intros Hc. apply andb_true_iff in Hc. destruct Hc as [Hc1 Hc2].
        apply Z.ltb_lt in Hc1, Hc2.
        exists p, k. split; [lia|]. split; [lia|].
        split; [destruct (Hall (k - 1)); lia|].
        split; [intros j Hj; apply Hall; lia|reflexivity]. }
      destruct (u32 (p + 2 * k + 2) >=? len buffer).
      * destruct kept.
        -- eexists. split; [reflexivity|]. constructor; [auto|constructor].
        -- exists []. rewrite app_nil_r. split; [reflexivity|constructor].
      * destruct kept.
        -- destruct (IH (u32 (p + 2 * k + 2))
                       (acc ++ [UTF16ToString (units_at buffer p (Z.to_nat k))]))
             as [new [E' F]]; [apply u32_range|].
           rewrite E'. rewrite <- app_assoc. eexists. split; [reflexivity|].
           constructor; auto.
        -- apply IH. apply u32_range.
Qed.

Lemma extract_strings_spec (buffer : list Z) (offset NumStrings StringOffset : Z) :
  len buffer <= 4294967294 ->
  exists strs,
    extract_strings buffer offset NumStrings StringOffset = Ok strs
    /\ Forall (kept_text buffer) strs.
Proof.
  intros HL. unfold extract_strings.
  destruct ((0 <? NumStrings) && (0 <? StringOffset)).
  - destruct (u32 (offset + StringOffset) <? u32 (len buffer)).
    + destruct (strings_loop_spec buffer (Z.to_nat NumStrings) HL
                  (u32 (offset + StringOffset)) []) as [new [E F]].
      { apply u32_range. }
      exists new. split; [exact E|exact F].
    + exists []. split; [reflexivity|constructor].
  - exists []. split; [reflexivity|constructor].
Qed.

(** The payload slice never faults: its end is clamped to the buffer. *)
Lemma extract_data_total (buffer : list Z) (offset DataLength DataOffset : Z) :
  len buffer <= 4294967295 ->
  exists data, extract_data buffer offset DataLength DataOffset = Ok data.
Proof.
  intros HL. pose proof (len_nonneg buffer) as HL0. unfold extract_data.
  destruct ((0 <? DataLength) && (0 <? DataOffset)); [|eexists; reflexivity].
  rewrite (u32_small (len buffer)) by lia.
  pose proof (u32_range (offset + DataOffset)) as R1.
  destruct (Z.ltb_spec (u32 (offset + DataOffset)) (len buffer));
    [|eexists; reflexivity].
  set (dataStart := u32 (offset + DataOffset)) in *.
  pose proof (u32_range (dataStart + DataLength)) as R2.
  set (dataEnd := if u32 (dataStart + DataLength) >? len buffer
                  then len buffer else u32 (dataStart + DataLength)).
  assert (HE : dataEnd <= len buffer).
  { unfold dataEnd.
    destruct (Z.gtb_spec (u32 (dataStart + DataLength)) (len buffer)); lia. }
  destruct (Z.gtb_spec dataEnd dataStart); [|eexists; reflexivity].
  unfold slice.
  destruct (Z.leb_spec 0 dataStart); [|lia].
  destruct (Z.leb_spec dataStart dataEnd); [|lia].
  destruct (Z.leb_spec dataEnd (len buffer)); [|lia].
  eexists. reflexivity.
Qed.

(** The source name is resolved without fault for a record whose header
    lies inside the buffer. *)
Lemma decode_source_total (buffer : list Z) (offset : Z) :
  len buffer <= 4294967294 -> 0 <= offset -> offset + 32 <= len buffer ->
  exists s, decode_source buffer offset = Ok s.
Proof.
  intros HL H0 H1. unfold decode_source.
  rewrite (u32_small (offset + 8 * 4)) by lia.
  destruct (text_field_spec 1024 1024 buffer (offset + 8 * 4))
    as [k [_ [_ [_ [_ E]]]]]; try lia.
  rewrite E. cbn [bind fst].
  destruct ((0 <? k) && (k <? 1024)); eexists; reflexivity.
Qed.

Lemma build_event_total (logName localComputerName : string)
    (buffer : list Z) (offset : Z) :
  len buffer <= 4294967294 -> 0 <= offset ->
  offset + sizeof_EVENTLOGRECORD <= len buffer ->
  exists event, build_event logName localComputerName buffer offset = Ok event.
Proof.
  unfold sizeof_EVENTLOGRECORD. intros HL H0 H1. unfold build_event.
  rewrite !peek32_ok, !peek16_ok by lia. cbn [bind].
  unfold GetSourceFromEvent.
  destruct (decode_source_total buffer offset) as [s Es]; try lia.
  rewrite Es. cbn [bind].
  assert (Hsrc : exists src,
             (if negb (s =? "")%string then Ok s
              else Ok (source_fallback logName)) = Ok src).
  { destruct (negb (s =? "")%string); eexists; reflexivity. }
  destruct Hsrc as [src Esrc]. rewrite Esrc. cbn [bind].
  assert (HL' : len buffer <= 4294967295) by lia.
  destruct (0 <? get16 buffer (offset + 26)); cbn [bind];
    match goal with
    | |- context [extract_strings buffer offset ?n ?so] =>
        destruct (extract_strings_spec buffer offset n so HL)
          as [strs [Estr _]]; rewrite Estr; cbn [bind]
    end;
    destruct (0 <? get32 buffer (offset + 48)); cbn [bind];
    match goal with
    | |- context [extract_data buffer offset ?n ?d] =>
        destruct (extract_data_total buffer offset n d HL')
          as [data Edata]; rewrite Edata; cbn [bind]
    end; eexists; reflexivity.
Qed.

(** * The record loop *)

Ltac inv_bind H :=
  match type of H with
  | bind ?m _ = Ok _ =>
      let E := fresh "E" in
      destruct m eqn:E; cbn [bind] in H; [|discriminate H]
  end.

Lemma peek8_inv (buffer : list Z) (i v : Z) :
  peek8 buffer i = Ok v -> v = nth (Z.to_nat i) buffer 0.
Proof.
  unfold peek8. destruct ((0 <=? i) && (i <? len buffer)); congruence.
Qed.

Lemma peek16_inv (buffer : list Z) (i v : Z) :
  peek16 buffer i = Ok v -> v = get16 buffer i.
Proof.
  unfold peek16, get16. intros H. inv_bind H. inv_bind H.
  apply peek8_inv in E, E0. congruence.
Qed.

Lemma peek32_inv (buffer : list Z) (i v : Z) :
  peek32 buffer i = Ok v -> v = get32 buffer i.
Proof.
  unfold peek32, get32. intros H. inv_bind H. inv_bind H.
  apply peek16_inv in E, E0. congruence.
Qed.

(** The event id of a built event is the raw field with its high half
    cleared. *)
Lemma build_event_masks (logName localComputerName : string)
    (buffer : list Z) (offset : Z) (event : EventLogData) :
  build_event logName localComputerName buffer offset = Ok event ->
  EventID event = Z.land (get32 buffer (offset + 20)) 65535.
Proof.
  unfold build_event. intros H.
  do 13 inv_bind H.
  injection H as <-. cbn [EventID].
  apply peek32_inv in E2. congruence.
Qed.

Lemma eventIDMatches_In (id : Z) (ids : list Z) :
  eventIDMatches id ids = true <-> In id ids.
Proof.
  induction ids as [|i rest IH]; cbn [eventIDMatches In].
  - split; [discriminate|tauto].
  - destruct (Z.eqb_spec id i) as [->|Hne].
    + split; auto.
    + rewrite IH. split; [auto|]. intros [H|H]; [congruence|exact H].
Qed.

Lemma filter_append_cases (ids : list Z) (logs : list EventLogData)
    (event : EventLogData) :
  (filter_append ids logs event = logs ++ [event] /\ passes ids event)
  \/ (filter_append ids logs event = logs /\ ~ passes ids event).
Proof.
  unfold filter_append, passes.
  destruct ids as [|i rest].
  - left. split; [reflexivity|left; reflexivity].
  - assert (H : (0 <? len (i :: rest)) = true).
    { apply Z.ltb_lt. unfold len. cbn [List.length]. lia. }
    rewrite H.
    destruct (eventIDMatches (EventID event) (i :: rest)) eqn:Em.
    + left. split; [reflexivity|]. right. apply eventIDMatches_In. exact Em.
    + right. split; [reflexivity|]. intros [Hn|Hin]; [discriminate|].
      apply eventIDMatches_In in Hin. congruence.
Qed.

(** One iteration leaves [logs] as it is or appends one event, built
    from the record at [offset] and accepted by the filter. *)
Lemma walk_step_extends (logName cn : string) (ids : list Z) (total : Z)
    (buffer : list Z) (bytesRead offset : Z) (logs : list EventLogData)
    (r : step_result) :
  walk_step logName cn ids total buffer bytesRead offset logs = Ok r ->
  step_logs r = logs
  \/ exists event,
       build_event logName cn buffer offset = Ok event
       /\ passes ids event /\ step_logs r = logs ++ [event].
Proof.
  unfold walk_step. intros H.
  destruct (offset <? bytesRead); [|injection H as <-; left; reflexivity].
  destruct (u32 (offset + sizeof_EVENTLOGRECORD) >? bytesRead);
    [injection H as <-; left; reflexivity|].
  inv_bind H. inv_bind H.
  destruct ((a0 <? sizeof_EVENTLOGRECORD) || (a0 >? u32 (bytesRead - offset))).
  - destruct (u32 (offset + 8) >=? bytesRead);
      injection H as <-; left; reflexivity.
  - inv_bind H.
    assert (Hl : step_logs r = filter_append ids logs a1).
    { destruct (len (filter_append ids logs a1) >=? total);
        injection H as <-; reflexivity. }
    rewrite Hl.
    destruct (filter_append_cases ids logs a1) as [[-> Hp]|[-> _]].
    + right. exists a1. auto.
    + left. reflexivity.
Qed.

Lemma walk_extends (logName cn : string) (ids : list Z) (total : Z)
    (buffer : list Z) (bytesRead : Z) (fuel : nat) :
  forall offset logs logs',
    walk fuel logName cn ids total buffer bytesRead offset logs = Ok logs' ->
    exists new, logs' = logs ++ new
                /\ Forall (produced logName cn ids) new.
Proof.
  induction fuel as [|fuel IH]; intros offset logs logs' H;
    cbn [walk] in H; [discriminate|].
  inv_bind H.
  assert (Hstep : exists new, step_logs a = logs ++ new
                              /\ Forall (produced logName cn ids) new).
  { destruct (walk_step_extends _ _ _ _ _ _ _ _ _ E) as [->|[ev [B [P ->]]]].
    - exists []. rewrite app_nil_r. split; [reflexivity|constructor].
    - exists [ev]. split; [reflexivity|].
      constructor; [|constructor]. exists buffer, offset. auto. }
  destruct Hstep as [new1 [E1 F1]].
  destruct a as [l|o l]; cbn [step_logs] in E1.
  - injection H as <-. exists new1. auto.
  - apply IH in H. destruct H as [new2 [-> F2]].
    exists (new1 ++ new2). rewrite E1, <- app_assoc.
    split; [reflexivity|]. apply Forall_app. auto.
Qed.

(** The iteration does not depend on the target [totalRecords] except
    in its last test: with a smaller target it stops where the larger
    one would go on. *)
Lemma walk_step_target (logName cn : string) (ids : list Z) (c C : Z)
    (buffer : list Z) (bytesRead offset : Z) (logs : list EventLogData)
    (r : step_result) :
  walk_step logName cn ids C buffer bytesRead offset logs = Ok r ->
  len logs < c <= C ->
  walk_step logName cn ids c buffer bytesRead offset logs
  = Ok (match r with
        | Break l => Break l
        | Next o l => if len l >=? c then Break l else Next o l
        end).
Proof.
  unfold walk_step. intros H Hc.
  destruct (offset <? bytesRead); [|injection H as <-; reflexivity].
  destruct (u32 (offset + sizeof_EVENTLOGRECORD) >? bytesRead);
    [injection H as <-; reflexivity|].
  inv_bind H. inv_bind H. cbn [bind].
  destruct ((a0 <? sizeof_EVENTLOGRECORD) || (a0 >? u32 (bytesRead - offset))).
  - destruct (u32 (offset + 8) >=? bytesRead); injection H as <-;
      [reflexivity|].
    destruct (Z.geb_spec (len logs) c); [lia|reflexivity].
  - inv_bind H. cbn [bind].
    destruct (Z.geb_spec (len (filter_append ids logs a1)) C) as [HC|HC];
      injection H as <-.
    + destruct (Z.geb_spec (len (filter_append ids logs a1)) c); [|lia].
      reflexivity.
    + destruct (Z.geb_spec (len (filter_append ids logs a1)) c); reflexivity.
Qed.

Lemma firstn_all_len {A : Type} (l : list A) (c : Z) :
  len l <= c -> firstn (Z.to_nat c) l = l.
Proof. unfold len. intros H. apply firstn_all2. lia. Qed.

Lemma firstn_app_len {A : Type} (l m : list A) (c : Z) :
  len l = c -> firstn (Z.to_nat c) (l ++ m) = l.
Proof.
  unfold len. intros <-. rewrite Nat2Z.id.
  rewrite firstn_app, Nat.sub_diag, firstn_all. cbn [firstn].
  apply app_nil_r.
Qed.

Lemma walk_step_grows (logName cn : string) (ids : list Z) (total : Z)
    (buffer : list Z) (bytesRead offset : Z) (logs : list EventLogData)
    (r : step_result) :
  walk_step logName cn ids total buffer bytesRead offset logs = Ok r ->
  len logs <= len (step_logs r) <= len logs + 1.
Proof.
  intros H.
  destruct (walk_step_extends _ _ _ _ _ _ _ _ _ H) as [->|[ev [_ [_ ->]]]].
  - lia.
  - rewrite len_app. unfold len. cbn [List.length]. lia.
Qed.

(** The walk with the smaller target returns the first [c] events of
    the walk with the larger one. *)
Lemma walk_target (logName cn : string) (ids : list Z) (c C : Z)
    (buffer : list Z) (bytesRead : Z) (fuel : nat) :
  forall offset logs L,
    walk fuel logName cn ids C buffer bytesRead offset logs = Ok L ->
    len logs < c <= C ->
    walk fuel logName cn ids c buffer bytesRead offset logs
    = Ok (firstn (Z.to_nat c) L).
Proof.
  induction fuel as [|fuel IH]; intros offset logs L H Hc;
    cbn [walk] in *; [discriminate|].
  inv_bind H.
  pose proof (walk_step_grows _ _ _ _ _ _ _ _ _ E) as Hg.
  rewrite (walk_step_target _ _ _ c C _ _ _ _ _ E Hc). cbn [bind].
  destruct a as [l|o l]; cbn [step_logs] in Hg.
  - injection H as <-. rewrite firstn_all_len by lia. reflexivity.
  - destruct (Z.geb_spec (len l) c) as [Hge|Hlt].
    + destruct (walk_extends _ _ _ _ _ _ _ _ _ _ H) as [new [-> _]].
      rewrite firstn_app_len by lia. reflexivity.
    + apply IH; [exact H|lia].
Qed.

(** The iteration at a header that lies inside the bytes read, in a
    buffer shorter than [2^32 - 1] bytes: an implausible length moves the
    cursor by eight, a plausible one builds the event, filters it and moves
    the cursor by the length. *)
Lemma walk_step_invalid (logName cn : string) (ids : list Z) (total : Z)
    (buffer : list Z) (bytesRead offset : Z) (logs : list EventLogData) :
  0 <= offset -> offset + sizeof_EVENTLOGRECORD <= bytesRead ->
  bytesRead <= len buffer -> len buffer <= 4294967294 ->
  get32 buffer offset < sizeof_EVENTLOGRECORD
  \/ get32 buffer offset > bytesRead - offset ->
  walk_step logName cn ids total buffer bytesRead offset logs
  = Ok (if offset + 8 >=? bytesRead then Break logs
        else Next (offset + 8) logs).
Proof.
  unfold sizeof_EVENTLOGRECORD. intros H0 H1 H2 H3 Hbad. unfold walk_step.
  unfold sizeof_EVENTLOGRECORD.
  destruct (Z.ltb_spec offset bytesRead); [|lia].
  rewrite (u32_small (offset + 56)) by lia.
  destruct (Z.gtb_spec (offset + 56) bytesRead); [lia|].
  rewrite index_ok by lia. rewrite peek32_ok by lia. cbn [bind].
  rewrite (u32_small (bytesRead - offset)) by lia.
  rewrite (u32_small (offset + 8)) by lia.
  assert (Hif : forall b : bool,
             (if b then Ok (Break logs) else Ok (Next (offset + 8) logs))
             = Ok (if b then Break logs else Next (offset + 8) logs)).
  { intros []; reflexivity. }
  destruct (Z.ltb_spec (get32 buffer offset) 56) as [Hlt|Hge];
    cbn [orb]; [apply Hif|].
  destruct (Z.gtb_spec (get32 buffer offset) (bytesRead - offset));
    [apply Hif|lia].
Qed.

Lemma walk_step_valid (logName cn : string) (ids : list Z) (total : Z)
    (buffer : list Z) (bytesRead offset : Z) (logs : list EventLogData) :
  0 <= offset -> bytesRead <= len buffer -> len buffer <= 4294967294 ->
  sizeof_EVENTLOGRECORD <= get32 buffer offset <= bytesRead - offset ->
  exists event,
    build_event logName cn buffer offset = Ok event
    /\ walk_step logName cn ids total buffer bytesRead offset logs
       = Ok (let logs' := filter_append ids logs event in
             if len logs' >=? total then Break logs'
             else Next (offset + get32 buffer offset) logs').
Proof.
  unfold sizeof_EVENTLOGRECORD. intros H0 H2 H3 Hok.
  destruct (build_event_total logName cn buffer offset) as [event B];
    unfold sizeof_EVENTLOGRECORD; try lia.
  exists event. split; [exact B|].
  unfold walk_step. unfold sizeof_EVENTLOGRECORD.
  destruct (Z.ltb_spec offset bytesRead); [|lia].
  rewrite (u32_small (offset + 56)) by lia.
  destruct (Z.gtb_spec (offset + 56) bytesRead); [lia|].
  rewrite index_ok by lia. rewrite peek32_ok by lia. cbn [bind].
  rewrite (u32_small (bytesRead - offset)) by lia.
  destruct (Z.ltb_spec (get32 buffer offset) 56) as [Hlt|Hge]; [lia|].
  destruct (Z.gtb_spec (get32 buffer offset) (bytesRead - offset)); [lia|].
  cbn [orb]. rewrite B. cbn [bind].
  rewrite (u32_small (offset + get32 buffer offset)) by lia.
  cbv zeta. destruct (len (filter_append ids logs event) >=? total);
    reflexivity.
Qed.

Lemma walk_step_done (logName cn : string) (ids : list Z) (total : Z)
    (buffer : list Z) (bytesRead offset : Z) (logs : list EventLogData) :
  bytesRead <= offset ->
  walk_step logName cn ids total buffer bytesRead offset logs
  = Ok (Break logs).
Proof.
  intros H. unfold walk_step.
  destruct (Z.ltb_spec offset bytesRead); [lia|reflexivity].
Qed.

(** * The read loop *)

Section ReadLoop.

Variable St : Type.
Variable GetComputerNameW : option string.
Variable OpenEventLogW : string -> OpenResult St.
Variable GetNumberOfEventLogRecords : St -> option Z.
Variable ReadEventLogW : St -> Z -> ReadResult * St.
Variables (logName : string) (ids : list Z).

Local Abbreviation cn := (GetLocalComputerName GetComputerNameW).
Local Abbreviation loop :=
  (read_loop St GetComputerNameW ReadEventLogW logName ids).

Lemma read_loop_extends (wfuel fuel : nat) (total : Z) :
  forall st bufferSize buffer logs L err,
    loop wfuel fuel total st bufferSize buffer logs = Ok (L, err) ->
    exists new, L = logs ++ new /\ Forall (produced logName cn ids) new.
Proof.
  induction fuel as [|fuel IH];
    intros st bufferSize buffer logs L err H; cbn [read_loop] in H;
    [discriminate|].
  assert (Hnil : exists new, logs = logs ++ new
                             /\ Forall (produced logName cn ids) new).
  { exists []. rewrite app_nil_r. split; [reflexivity|constructor]. }
  destruct (len logs <? total); [|injection H as <- _; exact Hnil].
  inv_bind H.
  destruct (ReadEventLogW st bufferSize) as [[data|errno needed] st'].
  - inv_bind H.
    destruct (walk_extends _ _ _ _ _ _ _ _ _ _ E0) as [new1 [-> F1]].
    apply IH in H. destruct H as [new2 [-> F2]].
    exists (new1 ++ new2). rewrite <- app_assoc.
    split; [reflexivity|]. apply Forall_app. auto.
  - destruct (errno =? ERROR_NO_MORE_ITEMS);
      [injection H as <- _; exact Hnil|].
    destruct (errno =? ERROR_INSUFFICIENT_BUFFER).
    + apply IH in H. exact H.
    + injection H as <- _. exact Hnil.
Qed.

(** The loop with the smaller target returns the first [c] events of
    the loop with the larger one. *)
Lemma read_loop_target (wfuel fuel : nat) (c C : Z) :
  forall st bufferSize buffer logs L err,
    loop wfuel fuel C st bufferSize buffer logs = Ok (L, err) ->
    len logs <= c <= C ->
    exists err',
      loop wfuel fuel c st bufferSize buffer logs
      = Ok (firstn (Z.to_nat c) L, err').
Proof.
  induction fuel as [|fuel IH];
    intros st bufferSize buffer logs L err H Hc; [discriminate|].
  destruct (Z.eq_dec (len logs) c) as [Heq|Hne].
  - destruct (read_loop_extends _ _ _ _ _ _ _ _ _ H) as [new [-> _]].
    cbn [read_loop].
    destruct (Z.ltb_spec (len logs) c); [lia|].
    exists None. rewrite firstn_app_len by exact Heq. reflexivity.
  - cbn [read_loop] in *.
    destruct (Z.ltb_spec (len logs) C); [|lia].
    destruct (Z.ltb_spec (len logs) c); [|lia].
    inv_bind H. cbn [bind].
    destruct (ReadEventLogW st bufferSize) as [[data|errno needed] st'].
    + inv_bind H.
      rewrite (walk_target _ _ _ c C _ _ _ _ _ _ E0) by lia. cbn [bind].
      destruct (Z.le_gt_cases (len a0) c) as [Hle|Hgt].
      * rewrite firstn_all_len by exact Hle.
        apply IH with (err := err); [exact H|lia].
      * destruct (read_loop_extends _ _ _ _ _ _ _ _ _ H) as [new [-> _]].
        destruct fuel as [|fuel']; [discriminate H|].
        cbn [read_loop].
        assert (Hlen : len (firstn (Z.to_nat c) a0) = c).
        { unfold len in *. rewrite length_firstn. lia. }
        rewrite Hlen.
        destruct (Z.ltb_spec c c); [lia|].
        exists None. f_equal. f_equal.
        rewrite firstn_app.
        replace (Z.to_nat c - List.length a0)%nat with 0%nat
          by (unfold len in Hgt; lia).
        cbn [firstn]. rewrite app_nil_r. reflexivity.
    + destruct (errno =? ERROR_NO_MORE_ITEMS).
      { injection H as <- _. exists None.
        rewrite firstn_all_len by lia. reflexivity. }
      destruct (errno =? ERROR_INSUFFICIENT_BUFFER).
      * apply IH with (err := err); [exact H|lia].
      * injection H as <- _. eexists.
        rewrite firstn_all_len by lia. reflexivity.
Qed.

(** An error of the loop is a read error other than the two signals
    the loop handles itself. *)
Lemma read_loop_error (wfuel fuel : nat) (total : Z) :
  forall st bufferSize buffer logs L err,
    loop wfuel fuel total st bufferSize buffer logs = Ok (L, Some err) ->
    exists errno, err = ErrRead errno
                  /\ errno <> ERROR_NO_MORE_ITEMS
                  /\ errno <> ERROR_INSUFFICIENT_BUFFER.
Proof.
  induction fuel as [|fuel IH];
    intros st bufferSize buffer logs L err H; cbn [read_loop] in H;
    [discriminate|].
  destruct (len logs <? total); [|discriminate H].
  inv_bind H.
  destruct (ReadEventLogW st bufferSize) as [[data|errno needed] st'].
  - inv_bind H. eapply IH. exact H.
  - destruct (Z.eqb_spec errno ERROR_NO_MORE_ITEMS); [discriminate H|].
    destruct (Z.eqb_spec errno ERROR_INSUFFICIENT_BUFFER).
    + eapply IH. exact H.
    + injection H as _ <-. exists errno. auto.
Qed.

(** The loop never returns more events than its target. *)
Lemma read_loop_bound (wfuel fuel : nat) (total : Z) :
  forall st bufferSize buffer logs L err,
    loop wfuel fuel total st bufferSize buffer logs = Ok (L, err) ->
    len logs <= total -> len L <= total.
Proof.
  intros st bufferSize buffer logs L err H Hle.
  destruct (read_loop_target wfuel fuel total total _ _ _ _ _ _ H)
    as [err' H']; [lia|].
  rewrite H in H'. injection H' as HL _.
  pose proof (len_nonneg logs).
  apply (f_equal (@List.length _)) in HL. rewrite length_firstn in HL.
  unfold len. lia.
Qed.

End ReadLoop.

(** * The collection as a whole *)

(** Every event of a collection was built from a record and passed the
    filter. *)
Lemma collect_produced (St : Type) (gcn : option string)
    (open : string -> OpenResult St) (count : St -> option Z)
    (read : St -> Z -> ReadResult * St) (logName : string) (ids : list Z)
    (wfuel fuel : nat) (maxEvents : Z) (logs : list EventLogData)
    (err : option error) :
  CollectWindowsEventLogs St gcn open count read logName ids wfuel fuel
    maxEvents = Ok (logs, err) ->
  Forall (produced logName (GetLocalComputerName gcn) ids) logs.
Proof.
  unfold CollectWindowsEventLogs. intros H.
  destruct (has_nul logName); [injection H as <- _; constructor|].
  destruct (open logName) as [handle|errno].
  - destruct (count handle) as [total|]; [|injection H as <- _; constructor].
    apply read_loop_extends in H. destruct H as [new [-> F]]. exact F.
  - destruct (errno =? ERROR_FILE_NOT_FOUND); injection H as <- _; constructor.
Qed.

Lemma len_firstn {A : Type} (l : list A) (c : Z) :
  0 <= c -> len (firstn (Z.to_nat c) l) = Z.min c (len l).
Proof. intros H. unfold len. rewrite length_firstn. lia. Qed.

(** * The translators and the source name *)

(** C5. The code divides by fixed lengths of 365-day years and 30-day
    months: for 1700000000 it prints the first of December, not the
    fourteenth of November, and it can print a thirteenth month. *)
Theorem timestamp_fixed_length_months :
  WindowsTimeToTime 1700000000 = "2023-12-01 22:13:20"%string
  /\ WindowsTimeToTime 1700000000 <> "2023-11-14 22:13:20"%string
  /\ WindowsTimeToTime 31535999 = "1970-13-05 23:59:59"%string.
Proof.
  split; [vm_compute; reflexivity|].
  split; [vm_compute; discriminate|vm_compute; reflexivity].
Qed.

(** C7. The scan for the source name starts at byte 32 of the record,
    inside the header, not at byte 56: with a zero [ClosingRecordNumber]
    the name "Svc" behind the header is never read and the fallback
    answers; with the units of "AB" in that field the function returns
    "AB".  The scan stops after 513 units (1026 bytes). *)
Theorem source_scan_starts_in_header :
  text_field 1024 1024 (sample_record 1 4624) 56 = Ok (Some "Svc"%string, 62)
  /\ GetSourceFromEvent "Security" (sample_record 1 4624) 0
     = Ok "Security"%string
  /\ GetSourceFromEvent "Security" closing_AB_record 0 = Ok "AB"%string
  /\ scan 1024 (scan_fuel 1024) (repeat 65 3000) 32 32 = Ok 1058.
Proof.
  repeat split; vm_compute; reflexivity.
Qed.

Lemma Split_first_segment (s : string) :
  exists rest, Split "/" s = first_segment s :: rest.
Proof.
  induction s as [|c s IH]; cbn [Split first_segment].
  - eexists. reflexivity.
  - destruct (Ascii.eqb c "/"); [eexists; reflexivity|].
    destruct IH as [rest ->]. eexists. reflexivity.
Qed.

(** C8, as the code has it.  When no name decodes from the buffer, the
    resolver returns a classic channel name as it is; otherwise, for a
    channel name that begins with "Microsoft-Windows-", the text before
    its first ['/']; otherwise "EventLog". *)
Theorem source_fallback_chain (logName : string) (buffer : list Z)
    (offset : Z) :
  decode_source buffer offset = Ok EmptyString ->
  (In logName ["System"; "Application"; "Security"]%string ->
   GetSourceFromEvent logName buffer offset = Ok logName)
  /\ (~ In logName ["System"; "Application"; "Security"]%string ->
      HasPrefix logName "Microsoft-Windows-" = true ->
      GetSourceFromEvent logName buffer offset = Ok (first_segment logName))
  /\ (~ In logName ["System"; "Application"; "Security"]%string ->
      HasPrefix logName "Microsoft-Windows-" = false ->
      GetSourceFromEvent logName buffer offset = Ok "EventLog"%string).
Proof.
  intros Hd. unfold GetSourceFromEvent. rewrite Hd. cbn [bind].
  cbn [String.eqb negb]. unfold source_fallback.
  split; [|split].
  - intros [<-|[<-|[<-|[]]]]; reflexivity.
  - intros Hn Hp.
    destruct (String.eqb_spec logName "System");
      [exfalso; apply Hn; cbn; auto|].
    destruct (String.eqb_spec logName "Application");
      [exfalso; apply Hn; cbn; auto|].
    destruct (String.eqb_spec logName "Security");
      [exfalso; apply Hn; cbn; auto|].
    cbn [orb]. rewrite Hp.
    destruct (Split_first_segment logName) as [rest ->]. reflexivity.
  - intros Hn Hp.
    destruct (String.eqb_spec logName "System");
      [exfalso; apply Hn; cbn; auto|].
    destruct (String.eqb_spec logName "Application");
      [exfalso; apply Hn; cbn; auto|].
    destruct (String.eqb_spec logName "Security");
      [exfalso; apply Hn; cbn; auto|].
    cbn [orb]. rewrite Hp. reflexivity.
Qed.

Lemma source_fallback_chain_witness :
  GetSourceFromEvent "Microsoft-Windows-Sysmon/Operational"
    (sample_record 1 4624) 0 = Ok "Microsoft-Windows-Sysmon"%string.
Proof.
  refine (proj1 (proj2 (source_fallback_chain
            "Microsoft-Windows-Sysmon/Operational" (sample_record 1 4624) 0
            ltac:(vm_compute; reflexivity))) _ ltac:(vm_compute; reflexivity)).
  intros [H|[H|[H|[]]]]; discriminate H.
Defined.

(** C8 as stated fails: a channel name with a vendor path that does not
    begin with "Microsoft-Windows-" gets the sentinel, not its first
    segment. *)
Lemma vendor_path_gets_sentinel :
  decode_source (sample_record 1 4624) 0 = Ok EmptyString
  /\ contains_slash "Vendor-App/Operational" = true
  /\ spec_source_fallback "Vendor-App/Operational" = "Vendor-App"%string
  /\ GetSourceFromEvent "Vendor-App/Operational" (sample_record 1 4624) 0
     = Ok "EventLog"%string
  /\ GetSourceFromEvent "Vendor-App/Operational" (sample_record 1 4624) 0
     <> Ok (spec_source_fallback "Vendor-App/Operational").
Proof.
  repeat split; try (vm_compute; reflexivity).
  vm_compute. discriminate.
Qed.

(** * Termination *)

Lemma finishes_Ok {A : Type} (a : A) : finishes (Ok a).
Proof. discriminate. Qed.

Lemma finishes_bind {A B : Type} (m : res A) (k : A -> res B) :
  finishes m -> (forall a, m = Ok a -> finishes (k a)) ->
  finishes (bind m k).
Proof.
  intros Hm Hk. destruct m as [a|f]; cbn [bind].
  - apply Hk. reflexivity.
  - intros E. apply Hm. injection E as ->. reflexivity.
Qed.

Lemma finishes_if {A : Type} (b : bool) (x y : res A) :
  finishes x -> finishes y -> finishes (if b then x else y).
Proof. destruct b; auto. Qed.

Lemma finishes_index (buffer : list Z) (i : Z) : finishes (index buffer i).
Proof.
  unfold index. destruct ((0 <=? i) && (i <? len buffer)); discriminate.
Qed.

Lemma finishes_peek8 (buffer : list Z) (i : Z) : finishes (peek8 buffer i).
Proof.
  unfold peek8. destruct ((0 <=? i) && (i <? len buffer)); discriminate.
Qed.

Create HintDb fin.
#[local] Hint Resolve finishes_Ok finishes_index finishes_peek8 : fin.
#[local] Hint Extern 2 (finishes (bind _ _)) =>
  apply finishes_bind; [|intros ? ?] : fin.
#[local] Hint Extern 2 (finishes (if _ then _ else _)) =>
  apply finishes_if : fin.

Lemma finishes_peek16 (buffer : list Z) (i : Z) : finishes (peek16 buffer i).
Proof. unfold peek16. auto 10 with fin. Qed.
#[local] Hint Resolve finishes_peek16 : fin.

Lemma finishes_peek32 (buffer : list Z) (i : Z) : finishes (peek32 buffer i).
Proof. unfold peek32. auto 10 with fin. Qed.
#[local] Hint Resolve finishes_peek32 : fin.

Lemma finishes_peek_units (buffer : list Z) (n : nat) :
  forall start, finishes (peek_units buffer start n).
Proof.
  induction n as [|n IH]; intros start; cbn [peek_units]; auto 10 with fin.
Qed.
#[local] Hint Resolve finishes_peek_units : fin.

Lemma finishes_slice (buffer : list Z) (lo hi : Z) :
  finishes (slice buffer lo hi).
Proof.
  unfold slice.
  destruct ((0 <=? lo) && (lo <=? hi) && (hi <=? len buffer)); discriminate.
Qed.
#[local] Hint Resolve finishes_slice : fin.

(** The distance [end - start] grows by two in each iteration, also
    across a wrap of the cursor, so the cap ends every scan. *)
Lemma finishes_scan (cap : Z) (buffer : list Z) (start : Z) (fuel : nat) :
  0 <= cap <= 4294967292 ->
  forall e,
    u32 (e - start) <= cap ->
    cap - u32 (e - start) + 2 <= 2 * Z.of_nat fuel ->
    finishes (scan cap fuel buffer start e).
Proof.
  intros Hcap. induction fuel as [|fuel IH]; intros e Hd Hf.
  - lia.
  - cbn [scan].
    apply finishes_if; [|auto with fin].
    apply finishes_bind; [auto with fin|intros b0 _].
    apply finishes_bind; [auto 10 with fin|intros nz _].
    destruct nz; [|auto with fin].
    assert (Hstep : u32 (u32 (e + 2) - start) = u32 (e - start) + 2).
    { pose proof (u32_range (e - start)).
      rewrite <- (u32_small (u32 (e - start) + 2)) by lia.
      unfold u32. rewrite Zminus_mod_idemp_l, Zplus_mod_idemp_l.
      f_equal. lia. }
    rewrite Hstep.
    destruct (Z.gtb_spec (u32 (e - start) + 2) cap); [auto with fin|].
    apply IH; rewrite Hstep; lia.
Qed.

Lemma finishes_text_field (cap limit : Z) (buffer : list Z) (start : Z) :
  0 <= cap <= 4294967292 -> finishes (text_field cap limit buffer start).
Proof.
  intros Hcap. unfold text_field.
  apply finishes_bind.
  - apply finishes_scan; [exact Hcap| |];
      replace (start - start) with 0 by lia; rewrite u32_small by lia;
      [lia|pose proof (scan_fuel_enough cap); lia].
  - intros e _. auto 10 with fin.
Qed.

Lemma finishes_strings_loop (buffer : list Z) (n : nat) :
  forall stringsPtr acc, finishes (strings_loop n buffer stringsPtr acc).
Proof.
  induction n as [|n IH]; intros p acc; cbn [strings_loop]; [auto with fin|].
  apply finishes_if; [auto with fin|].
  apply finishes_bind; [apply finishes_text_field; lia|intros r _].
  apply finishes_if; [auto with fin|apply IH].
Qed.

Lemma finishes_build_event (logName cn : string) (buffer : list Z)
    (offset : Z) :
  finishes (build_event logName cn buffer offset).
Proof.
  assert (Hsrc : finishes (GetSourceFromEvent logName buffer offset)).
  { unfold GetSourceFromEvent, decode_source.
    apply finishes_bind; [|intros; auto with fin].
    apply finishes_bind; [apply finishes_text_field; lia|intros r _].
    destruct (fst r); auto with fin. }
  assert (Hstr : forall n so, finishes (extract_strings buffer offset n so)).
  { intros n so. unfold extract_strings.
    repeat apply finishes_if; auto using finishes_strings_loop with fin. }
  assert (Hdat : forall n d, finishes (extract_data buffer offset n d)).
  { intros n d. unfold extract_data. auto 10 with fin. }
  unfold build_event. auto 30 with fin.
Qed.

Lemma finishes_walk_step (logName cn : string) (ids : list Z) (total : Z)
    (buffer : list Z) (bytesRead offset : Z) (logs : list EventLogData) :
  finishes (walk_step logName cn ids total buffer bytesRead offset logs).
Proof.
  unfold walk_step.
  pose proof (finishes_build_event logName cn buffer offset).
  auto 20 with fin.
Qed.

(** When the bytes read stay 56 below [2^32], no sum of the loop wraps:
    an iteration that goes on has moved the cursor forward, by eight or
    by at least the size of a header, and not past the bytes read. *)
Lemma walk_step_advances (logName cn : string) (ids : list Z) (total : Z)
    (buffer : list Z) (bytesRead offset : Z) (logs : list EventLogData)
    (offset' : Z) (logs' : list EventLogData) :
  bytesRead <= 4294967240 -> 0 <= offset ->
  walk_step logName cn ids total buffer bytesRead offset logs
  = Ok (Next offset' logs') ->
  offset < offset' <= bytesRead
  /\ (offset' = offset + 8 \/ offset + sizeof_EVENTLOGRECORD <= offset').
Proof.
  unfold walk_step, sizeof_EVENTLOGRECORD. intros Hb H0 H.
  destruct (Z.ltb_spec offset bytesRead); [|discriminate H].
  rewrite (u32_small (offset + 56)) in H by lia.
  destruct (Z.gtb_spec (offset + 56) bytesRead); [discriminate H|].
  inv_bind H. inv_bind H.
  rewrite (u32_small (bytesRead - offset)) in H by lia.
  rewrite (u32_small (offset + 8)) in H by lia.
  destruct (Z.ltb_spec a0 56); cbn [orb] in H.
  - destruct (Z.geb_spec (offset + 8) bytesRead); [discriminate H|].
    injection H as <- _. lia.
  - destruct (Z.gtb_spec a0 (bytesRead - offset)).
    + destruct (Z.geb_spec (offset + 8) bytesRead); [discriminate H|].
      injection H as <- _. lia.
    + inv_bind H. rewrite (u32_small (offset + a0)) in H by lia.
      destruct (len (filter_append ids logs a1) >=? total);
        [discriminate H|].
      injection H as <- _. lia.
Qed.

Lemma walk_finishes (logName cn : string) (ids : list Z) (total : Z)
    (buffer : list Z) (bytesRead : Z) (fuel : nat) :
  bytesRead <= 4294967240 ->
  forall offset logs,
    0 <= offset -> (1 <= fuel)%nat ->
    bytesRead - offset + 8 <= 8 * Z.of_nat fuel ->
    finishes (walk fuel logName cn ids total buffer bytesRead offset logs).
Proof.
  intros Hb. induction fuel as [|fuel IH]; intros offset logs H0 H1 Hf;
    [lia|].
  cbn [walk]. apply finishes_bind; [apply finishes_walk_step|].
  intros [l|o l] E; [apply finishes_Ok|].
  destruct (walk_step_advances _ _ _ _ _ _ _ _ _ _ Hb H0 E) as [Ho Hs].
  unfold sizeof_EVENTLOGRECORD in Hs. apply IH; lia.
Qed.

(** Inside the buffer the iteration has a result. *)
Lemma walk_step_total (logName cn : string) (ids : list Z) (total : Z)
    (buffer : list Z) (bytesRead offset : Z) (logs : list EventLogData) :
  bytesRead <= 4294967240 -> bytesRead <= len buffer ->
  len buffer <= 4294967294 -> 0 <= offset ->
  exists r,
    walk_step logName cn ids total buffer bytesRead offset logs = Ok r.
Proof.
  intros Hb H1 H2 H0.
  destruct (Z.le_gt_cases bytesRead offset) as [Hd|Hlt].
  { eexists. apply walk_step_done. exact Hd. }
  destruct (Z.le_gt_cases (offset + sizeof_EVENTLOGRECORD) bytesRead)
    as [Hh|Hshort].
  - destruct (Z.lt_ge_cases (get32 buffer offset) sizeof_EVENTLOGRECORD)
      as [Hs|Hs].
    { eexists. apply walk_step_invalid; try lia. }
    destruct (Z.le_gt_cases (get32 buffer offset) (bytesRead - offset))
      as [Hf|Hf].
    + destruct (walk_step_valid logName cn ids total buffer bytesRead offset
                  logs) as [event [_ E]]; try lia.
      eexists. exact E.
    + eexists. apply walk_step_invalid; try lia.
  - unfold walk_step, sizeof_EVENTLOGRECORD in *.
    destruct (Z.ltb_spec offset bytesRead); [|lia].
    rewrite (u32_small (offset + 56)) by lia.
    destruct (Z.gtb_spec (offset + 56) bytesRead); [|lia].
    eexists. reflexivity.
Qed.

Lemma walk_total (logName cn : string) (ids : list Z) (total : Z)
    (buffer : list Z) (bytesRead : Z) (fuel : nat) :
  bytesRead <= 4294967240 -> bytesRead <= len buffer ->
  len buffer <= 4294967294 ->
  forall offset logs,
    0 <= offset -> (1 <= fuel)%nat ->
    bytesRead - offset + 8 <= 8 * Z.of_nat fuel ->
    exists logs',
      walk fuel logName cn ids total buffer bytesRead offset logs = Ok logs'.
Proof.
  intros Hb H1 H2. induction fuel as [|fuel IH];
    intros offset logs H0 Hf1 Hf; [lia|].
  cbn [walk].
  destruct (walk_step_total logName cn ids total buffer bytesRead offset logs
              Hb H1 H2 H0) as [r E].
  rewrite E. cbn [bind]. destruct r as [l|o l]; [eexists; reflexivity|].
  destruct (walk_step_advances _ _ _ _ _ _ _ _ _ _ Hb H0 E) as [Ho Hs].
  unfold sizeof_EVENTLOGRECORD in Hs. apply IH; lia.
Qed.



Lemma len_wrap_buffer : len wrap_buffer = 4294967295.
Proof.
  unfold len, wrap_buffer. rewrite repeat_length. apply Z2Nat.id. lia.
Qed.

Lemma get32_wrap_buffer (i : Z) : get32 wrap_buffer i = 0.
Proof.
  unfold get32, get16, wrap_buffer. rewrite !nth_repeat. reflexivity.
Qed.

(** In the all-zero buffer every header is implausible, and eight bytes
    on from the last aligned cursor is the start of the buffer. *)
Lemma wrap_buffer_step (total offset : Z) (logs : list EventLogData) :
  0 <= offset <= 4294967288 -> offset mod 8 = 0 ->
  walk_step "System" "HOST" [] total wrap_buffer 4294967295 offset logs
  = Ok (Next (u32 (offset + 8)) logs)
  /\ 0 <= u32 (offset + 8) <= 4294967288 /\ u32 (offset + 8) mod 8 = 0.
Proof.
  intros Hr Hm.
  assert (Hnext : 0 <= u32 (offset + 8) <= 4294967288
                  /\ u32 (offset + 8) mod 8 = 0).
  { destruct (Z.eq_dec offset 4294967288) as [->|Hne].
    - split; [|reflexivity]. unfold u32. cbn. lia.
    - rewrite u32_small by lia.
      pose proof (Z.div_mod offset 8 ltac:(lia)) as Hd. rewrite Hm in Hd.
      split; [lia|].
      rewrite <- Zplus_mod_idemp_l, Hm. reflexivity. }
  split; [|exact Hnext].
  unfold walk_step, sizeof_EVENTLOGRECORD.
  destruct (Z.ltb_spec offset 4294967295); [|lia].
  pose proof (u32_range (offset + 56)).
  destruct (Z.gtb_spec (u32 (offset + 56)) 4294967295); [lia|].
  rewrite index_ok by (rewrite len_wrap_buffer; lia).
  rewrite peek32_ok by (rewrite ?len_wrap_buffer; lia).
  cbn [bind]. rewrite get32_wrap_buffer.
  change (0 <? 56) with true. cbn [orb].
  destruct (Z.geb_spec (u32 (offset + 8)) 4294967295); [lia|reflexivity].
Qed.


(** * The string fields *)

(** A field of at least 16384 non-NUL units is dropped. *)
Lemma text_field_long (buffer : list Z) (p : Z) :
  len buffer <= 4294967294 -> 0 <= p ->
  (forall j, 0 <= j < 16384 ->
     p + 2 * j + 1 < len buffer /\ unit_nonzero buffer (p + 2 * j) = true) ->
  exists e, text_field 32768 16384 buffer p = Ok (None, e).
Proof.
  intros HL Hp Hall.
  destruct (Hall 0) as [Hin _]; [lia|].
  destruct (text_field_spec 32768 16384 buffer p)
    as [k [Hk [_ [_ [Hstop E]]]]]; try lia.
  assert (Hge : 16384 <= k).
  { destruct (Z.lt_ge_cases k 16384) as [Hlt|Hge]; [|exact Hge].
    destruct (Hall k) as [A B]; [lia|].
    destruct Hstop as [H|[H|H]]; [lia|lia|congruence]. }
  rewrite E. destruct (Z.ltb_spec k 16384); [lia|].
  rewrite andb_false_r. eexists. reflexivity.
Qed.

(** A field that starts with a NUL unit, or in the last byte of the
    buffer, is dropped and the scan does not move. *)
Lemma text_field_empty (buffer : list Z) (p : Z) :
  len buffer <= 4294967294 -> 0 <= p <= 4294967294 ->
  len buffer <= p + 1 \/ unit_nonzero buffer p = false ->
  text_field 32768 16384 buffer p = Ok (None, p).
Proof.
  intros HL Hp Hz.
  destruct (text_field_spec 32768 16384 buffer p)
    as [k [Hk [Hall [_ [_ E]]]]]; try lia.
  assert (k = 0) as ->.
  { destruct (Z.eq_dec k 0) as [H|H]; [exact H|].
    destruct (Hall 0) as [A B]; [lia|].
    replace (p + 2 * 0) with p in * by lia.
    destruct Hz as [Hz|Hz]; [lia|congruence]. }
  rewrite E. cbn [Z.ltb Z.compare andb]. f_equal. f_equal. lia.
Qed.

(** A field of [k] non-NUL units, [0 < k < 16384], that ends on a NUL
    unit or on the end of the buffer is kept as those [k] units. *)
Lemma text_field_kept (buffer : list Z) (p k : Z) :
  len buffer <= 4294967294 -> 0 <= p -> 0 < k < 16384 ->
  (forall j, 0 <= j < k ->
     p + 2 * j + 1 < len buffer /\ unit_nonzero buffer (p + 2 * j) = true) ->
  len buffer <= p + 2 * k + 1 \/ unit_nonzero buffer (p + 2 * k) = false ->
  text_field 32768 16384 buffer p
  = Ok (Some (UTF16ToString (units_at buffer p (Z.to_nat k))), p + 2 * k).
Proof.
  intros HL Hp Hk Hall Hend.
  destruct (Hall 0) as [Hin _]; [lia|].
  destruct (text_field_spec 32768 16384 buffer p)
    as [k' [Hk' [Hall' [_ [Hstop E]]]]]; try lia.
  assert (k' = k) as ->.
  { destruct (Z.lt_trichotomy k' k) as [Hlt|[Heq|Hgt]]; [|exact Heq|].
    - destruct (Hall k') as [A B]; [lia|].
      destruct Hstop as [H|[H|H]]; [lia|lia|congruence].
    - destruct (Hall' k) as [A B]; [lia|].
      destruct Hend as [H|H]; [lia|congruence]. }
  rewrite E.
  destruct (Z.ltb_spec 0 k); [|lia].
  destruct (Z.ltb_spec k 16384); [|lia].
  reflexivity.
Qed.




(** * Corrupt records *)

Lemma nth_app_r (a b : list Z) (i : Z) :
  0 <= i -> nth (Z.to_nat (len a + i)) (a ++ b) 0 = nth (Z.to_nat i) b 0.
Proof.
  intros H. unfold len.
  replace (Z.to_nat (Z.of_nat (List.length a) + i))
    with (List.length a + Z.to_nat i)%nat by lia.
  apply app_nth2_plus.
Qed.

Lemma get32_app_r (a b : list Z) (i : Z) :
  0 <= i -> get32 (a ++ b) (len a + i) = get32 b i.
Proof.
  intros H. unfold get32, get16.
  replace (len a + i + 1) with (len a + (i + 1)) by lia.
  replace (len a + i + 2) with (len a + (i + 2)) by lia.
  replace (len a + (i + 2) + 1) with (len a + (i + 2 + 1)) by lia.
  rewrite !nth_app_r by lia. reflexivity.
Qed.

Lemma get32_app_l (a b : list Z) (i : Z) :
  0 <= i -> i + 4 <= len a -> get32 (a ++ b) i = get32 a i.
Proof.
  intros H0 H1. unfold len in H1. unfold get32, get16.
  rewrite !app_nth1 by lia. reflexivity.
Qed.

(** The walk over [k - j] rejected positions, eight bytes apart. *)
Lemma walk_realigns (logName cn : string) (ids : list Z) (total : Z)
    (buffer : list Z) (k : Z) (logs : list EventLogData) (n : nat) :
  len buffer <= 4294967240 ->
  8 * k + sizeof_EVENTLOGRECORD <= len buffer ->
  (forall j, 0 <= j < k ->
     get32 buffer (8 * j) < sizeof_EVENTLOGRECORD
     \/ get32 buffer (8 * j) > len buffer - 8 * j) ->
  forall fuel j,
    0 <= j -> j + Z.of_nat n = k ->
    walk (n + fuel) logName cn ids total buffer (len buffer) (8 * j) logs
    = walk fuel logName cn ids total buffer (len buffer) (8 * k) logs.
Proof.
  unfold sizeof_EVENTLOGRECORD. intros HL Hk Hbad.
  induction n as [|n IH]; intros fuel j Hj Hn.
  - replace j with k by lia. reflexivity.
  - cbn [Nat.add walk].
    rewrite walk_step_invalid;
      unfold sizeof_EVENTLOGRECORD; try lia; [|apply Hbad; lia].
    destruct (Z.geb_spec (8 * j + 8) (len buffer)); [lia|].
    cbn [bind]. replace (8 * j + 8) with (8 * (j + 1)) by lia.
    apply IH; lia.
Qed.

(** C2, as the code has it.  An implausible declared length moves the
    cursor by the eight bytes of the realignment, not by the declared
    length, and the scan goes on without error.  When the corrupt bytes
    in front of two well-formed records are a multiple of eight bytes
    and none of their positions that are a multiple of eight holds a
    plausible length, the walk yields the events of the two records, in
    their order, each subject to the filter. *)
Theorem corruption_contained (logName cn : string) (ids : list Z)
    (total : Z) (corrupt r1 r2 : list Z) (k : Z)
    (logs : list EventLogData) :
  len (corrupt ++ r1 ++ r2) <= 4294967240 ->
  len corrupt = 8 * k ->
  (forall j, 0 <= j < k ->
     get32 (corrupt ++ r1 ++ r2) (8 * j) < sizeof_EVENTLOGRECORD
     \/ get32 (corrupt ++ r1 ++ r2) (8 * j)
        > len (corrupt ++ r1 ++ r2) - 8 * j) ->
  well_formed_record r1 -> well_formed_record r2 ->
  len logs + 2 <= total ->
  (forall j, 0 <= j < k ->
     walk_step logName cn ids total (corrupt ++ r1 ++ r2)
       (len (corrupt ++ r1 ++ r2)) (8 * j) logs
     = Ok (Next (8 * j + 8) logs))
  /\ exists e1 e2,
       build_event logName cn (corrupt ++ r1 ++ r2) (len corrupt) = Ok e1
       /\ build_event logName cn (corrupt ++ r1 ++ r2) (len corrupt + len r1)
          = Ok e2
       /\ forall fuel,
            (Z.to_nat k + 3 <= fuel)%nat ->
            walk fuel logName cn ids total (corrupt ++ r1 ++ r2)
              (len (corrupt ++ r1 ++ r2)) 0 logs
            = Ok (filter_append ids (filter_append ids logs e1) e2).
Proof.
  unfold well_formed_record, sizeof_EVENTLOGRECORD.
  intros HL Hc Hbad [W1 L1] [W2 L2] Htot.
  set (buffer := corrupt ++ r1 ++ r2) in *.
  assert (Hlen : len buffer = len corrupt + len r1 + len r2).
  { unfold buffer. rewrite !len_app. lia. }
  pose proof (len_nonneg corrupt) as Hc0.
  assert (G1 : get32 buffer (len corrupt) = len r1).
  { unfold buffer. replace (len corrupt) with (len corrupt + 0) at 1 by lia.
    rewrite get32_app_r by lia. rewrite get32_app_l by lia. exact L1. }
  assert (G2 : get32 buffer (len corrupt + len r1) = len r2).
  { unfold buffer. rewrite get32_app_r by lia.
    replace (len r1) with (len r1 + 0) at 1 by lia.
    rewrite get32_app_r by lia. exact L2. }
  split.
  { intros j Hj.
    rewrite walk_step_invalid;
      unfold sizeof_EVENTLOGRECORD; try lia; [|apply Hbad; lia].
    destruct (Z.geb_spec (8 * j + 8) (len buffer)); [lia|reflexivity]. }
  destruct (walk_step_valid logName cn ids total buffer (len buffer)
              (len corrupt) logs) as [e1 [B1 S1]];
    unfold sizeof_EVENTLOGRECORD; try lia.
  destruct (walk_step_valid logName cn ids total buffer (len buffer)
              (len corrupt + len r1) (filter_append ids logs e1))
    as [e2 [B2 S2]]; unfold sizeof_EVENTLOGRECORD; try lia.
  exists e1, e2. split; [exact B1|]. split; [exact B2|].
  intros fuel Hfuel.
  assert (Hg1 : len (filter_append ids logs e1) <= len logs + 1).
  { destruct (filter_append_cases ids logs e1) as [[-> _]|[-> _]];
      [rewrite len_app; unfold len; cbn [List.length]|]; lia. }
  replace fuel with (Z.to_nat k + (3 + (fuel - Z.to_nat k - 3)))%nat by lia.
  assert (R := walk_realigns logName cn ids total buffer k logs (Z.to_nat k)).
  unfold sizeof_EVENTLOGRECORD in R.
  specialize (R HL ltac:(lia) Hbad (3 + (fuel - Z.to_nat k - 3))%nat 0
                ltac:(lia) ltac:(lia)).
  replace (8 * 0) with 0 in R by lia. rewrite R.
  rewrite <- Hc. cbn [Nat.add walk].
  rewrite S1. cbn [bind]. cbv zeta. rewrite G1.
  destruct (Z.geb_spec (len (filter_append ids logs e1)) total); [lia|].
  rewrite S2. cbn [bind]. cbv zeta. rewrite G2.
  destruct (len (filter_append ids (filter_append ids logs e1) e2) >=? total);
    [reflexivity|].
  rewrite walk_step_done by lia. reflexivity.
Qed.

Lemma corruption_contained_witness :
  exists e1 e2,
    walk 11 "Security" "HOST" [] 10
      (rejected_record ++ sample_record 2 4624 ++ sample_record 3 4625)
      216 0 [] = Ok [e1; e2]
    /\ RecordNumber e1 = 2 /\ RecordNumber e2 = 3.
Proof.
  destruct (corruption_contained "Security" "HOST" [] 10 rejected_record
              (sample_record 2 4624) (sample_record 3 4625) 8 [])
    as [_ [e1 [e2 [B1 [B2 W]]]]].
  - vm_compute. discriminate.
  - reflexivity.
  - intros j Hj.
    assert (j = 0 \/ j = 1 \/ j = 2 \/ j = 3 \/ j = 4 \/ j = 5 \/ j = 6
            \/ j = 7) as [->|[->|[->|[->|[->|[->|[->| ->]]]]]]] by lia;
      vm_compute; intuition congruence.
  - split; [vm_compute; discriminate|reflexivity].
  - split; [vm_compute; discriminate|reflexivity].
  - vm_compute. discriminate.
  - exists e1, e2. split; [apply (W 11%nat); vm_compute; lia|].
    vm_compute in B1, B2.
    injection B1 as <-. injection B2 as <-. split; reflexivity.
Defined.

(** C2 as stated fails: the corrupt record declares length zero, the
    realignment lands on its byte 8, which reads as a plausible length
    56, and the walk yields a third, spurious event in front of the two
    well-formed records. *)
Lemma realignment_decodes_corrupt_bytes :
  get32 corrupt_record 0 < sizeof_EVENTLOGRECORD
  /\ well_formed_record (sample_record 2 4624)
  /\ well_formed_record (sample_record 3 4625)
  /\ exists spurious e1 e2,
       walk 16 "Security" "HOST" [] 10
         (corrupt_record ++ sample_record 2 4624 ++ sample_record 3 4625)
         216 0 [] = Ok [spurious; e1; e2]
       /\ build_event "Security" "HOST"
            (corrupt_record ++ sample_record 2 4624 ++ sample_record 3 4625)
            8 = Ok spurious
       /\ RecordNumber e1 = 2 /\ RecordNumber e2 = 3.
Proof.
  split; [reflexivity|].
  split; [split; [vm_compute; discriminate|reflexivity]|].
  split; [split; [vm_compute; discriminate|reflexivity]|].
  do 3 eexists. split; [vm_compute; reflexivity|].
  split; [vm_compute; reflexivity|]. split; reflexivity.
Qed.

(** * Further properties of the collection *)

(** ** The payload extractor *)

Lemma len_firstn_skipn (buffer : list Z) (s n : Z) :
  0 <= s -> 0 <= n -> s + n <= len buffer ->
  len (firstn (Z.to_nat n) (skipn (Z.to_nat s) buffer)) = n.
Proof.
  unfold len. intros Hs Hn H. rewrite length_firstn, length_skipn. lia.
Qed.

(** X1. The payload extractor never faults.  What it returns is never
    longer than the declared data length, and when it is not empty it is
    the run of buffer bytes that starts at the (wrapped) sum of the
    record offset and the data offset and lies wholly inside the
    buffer. *)
Theorem payload_within_buffer (buffer : list Z)
    (offset DataLength DataOffset : Z) :
  len buffer <= 4294967295 -> 0 <= DataLength < 4294967296 ->
  exists data,
    extract_data buffer offset DataLength DataOffset = Ok data
    /\ len data <= DataLength
    /\ (data <> [] ->
        u32 (offset + DataOffset) + len data <= len buffer
        /\ data = firstn (Z.to_nat (len data))
                    (skipn (Z.to_nat (u32 (offset + DataOffset))) buffer)).
Proof.
  intros HL HD. pose proof (len_nonneg buffer) as HL0.
  assert (Hnil : exists data : list Z,
             Ok [] = Ok data /\ len data <= DataLength
             /\ (data <> [] ->
                 u32 (offset + DataOffset) + len data <= len buffer
                 /\ data = firstn (Z.to_nat (len data))
                             (skipn (Z.to_nat (u32 (offset + DataOffset)))
                                buffer))).
  { exists []. split; [reflexivity|]. split; [unfold len; cbn; lia|].
    intros H. contradiction. }
  unfold extract_data.
  destruct ((0 <? DataLength) && (0 <? DataOffset)); [|exact Hnil].
  rewrite (u32_small (len buffer)) by lia.
  pose proof (u32_range (offset + DataOffset)) as R1.
  set (s := u32 (offset + DataOffset)) in *.
  destruct (Z.ltb_spec s (len buffer)); [|exact Hnil].
  pose proof (u32_range (s + DataLength)) as R2.
  assert (Hw : u32 (s + DataLength) <= s + DataLength
               /\ (u32 (s + DataLength) = s + DataLength
                   \/ u32 (s + DataLength) < s)).
  { destruct (Z.lt_ge_cases (s + DataLength) 4294967296) as [Hlt|Hge].
    - rewrite u32_small by lia. lia.
    - assert (E : u32 (s + DataLength) = s + DataLength - 4294967296).
      { unfold u32. symmetry.
        apply Z.mod_unique with (q := 1); lia. }
      lia. }
  set (e := if u32 (s + DataLength) >? len buffer
            then len buffer else u32 (s + DataLength)).
  assert (He : e <= len buffer /\ e <= s + DataLength).
  { unfold e.
    destruct (Z.gtb_spec (u32 (s + DataLength)) (len buffer)); lia. }
  destruct (Z.gtb_spec e s); [|exact Hnil].
  unfold slice.
  destruct (Z.leb_spec 0 s); [|lia].
  destruct (Z.leb_spec s e); [|lia].
  destruct (Z.leb_spec e (len buffer)); [|lia].
  cbn [andb]. eexists. split; [reflexivity|].
  rewrite len_firstn_skipn by lia.
  split; [lia|]. intros _. split; [lia|reflexivity].
Qed.

Lemma payload_within_buffer_witness :
  exists data,
    extract_data (sample_record 1 4624) 0 8 56 = Ok data
    /\ len data <= 8
    /\ (data <> [] ->
        u32 (0 + 56) + len data <= len (sample_record 1 4624)
        /\ data = firstn (Z.to_nat (len data))
                    (skipn (Z.to_nat (u32 (0 + 56))) (sample_record 1 4624))).
Proof.
  apply (payload_within_buffer (sample_record 1 4624) 0 8 56).
  - vm_compute. discriminate.
  - lia.
Defined.

(** X2. A payload that lies inside the buffer is returned whole: its
    bytes are the [DataLength] bytes at record offset plus data
    offset. *)
Theorem payload_exact (buffer : list Z) (offset DataLength DataOffset : Z) :
  len buffer <= 4294967295 -> 0 <= offset ->
  0 < DataLength -> 0 < DataOffset ->
  offset + DataOffset + DataLength <= len buffer ->
  extract_data buffer offset DataLength DataOffset
  = Ok (firstn (Z.to_nat DataLength)
          (skipn (Z.to_nat (offset + DataOffset)) buffer))
  /\ len (firstn (Z.to_nat DataLength)
            (skipn (Z.to_nat (offset + DataOffset)) buffer)) = DataLength.
Proof.
  intros HL H0 HD HO Hin. pose proof (len_nonneg buffer) as HL0.
  split; [|apply len_firstn_skipn; lia].
  unfold extract_data.
  destruct (Z.ltb_spec 0 DataLength); [|lia].
  destruct (Z.ltb_spec 0 DataOffset); [|lia]. cbn [andb].
  rewrite (u32_small (len buffer)) by lia.
  rewrite (u32_small (offset + DataOffset)) by lia.
  destruct (Z.ltb_spec (offset + DataOffset) (len buffer)); [|lia].
  rewrite (u32_small (offset + DataOffset + DataLength)) by lia.
  destruct (Z.gtb_spec (offset + DataOffset + DataLength) (len buffer));
    [lia|].
  destruct (Z.gtb_spec (offset + DataOffset + DataLength)
              (offset + DataOffset)); [|lia].
  unfold slice.
  destruct (Z.leb_spec 0 (offset + DataOffset)); [|lia].
  destruct (Z.leb_spec (offset + DataOffset)
              (offset + DataOffset + DataLength)); [|lia].
  destruct (Z.leb_spec (offset + DataOffset + DataLength) (len buffer));
    [|lia].
  cbn [andb]. do 3 f_equal. lia.
Qed.

Lemma payload_exact_witness :
  extract_data (sample_record 1 4624) 0 6 56
  = Ok [83; 0; 118; 0; 99; 0].
Proof.
  exact (proj1 (payload_exact (sample_record 1 4624) 0 6 56
                  ltac:(vm_compute; discriminate) ltac:(lia) ltac:(lia)
                  ltac:(lia) ltac:(vm_compute; discriminate))).
Defined.



(** ** Event ids, errors and bounds of a collection *)

Lemma land_65535_range (x : Z) : 0 <= Z.land x 65535 <= 65535.
Proof.
  assert (E : Z.land x 65535 = x mod 65536).
  { change 65535 with (Z.ones 16). rewrite Z.land_ones by lia. reflexivity. }
  rewrite E. pose proof (Z.mod_pos_bound x 65536 ltac:(lia)). lia.
Qed.

(** X4. Every event of a collection has an [EventID] between 0 and
    65535.  So an allow-list whose ids all lie outside that range
    matches nothing: the collection is empty. *)
Theorem ids_above_16_bits_match_nothing (St : Type) (gcn : option string)
    (open : string -> OpenResult St) (count : St -> option Z)
    (read : St -> Z -> ReadResult * St) (logName : string) (ids : list Z)
    (wfuel fuel : nat) (maxEvents : Z) (logs : list EventLogData)
    (err : option error) :
  CollectWindowsEventLogs St gcn open count read logName ids wfuel fuel
    maxEvents = Ok (logs, err) ->
  Forall (fun event => 0 <= EventID event <= 65535) logs
  /\ (ids <> [] -> (forall id, In id ids -> id < 0 \/ 65535 < id) ->
      logs = []).
Proof.
  intros H. apply collect_produced in H.
  assert (Hr : Forall (fun event => 0 <= EventID event <= 65535) logs).
  { eapply Forall_impl; [|exact H].
    intros event [buffer [offset [B _]]].
    rewrite (build_event_masks _ _ _ _ _ B). apply land_65535_range. }
  split; [exact Hr|]. intros Hne Hbig.
  destruct logs as [|event rest]; [reflexivity|exfalso].
  inversion H as [|? ? [buffer [offset [_ [Hnil|Hin]]]] _]; subst;
    [contradiction|].
  inversion Hr as [|? ? Hrange _]; subst.
  destruct (Hbig _ Hin); lia.
Qed.

Lemma ids_above_16_bits_match_nothing_witness :
  batch_collect [sample_record 1 (4624 + 65536)] 1 "Security"
    [4624 + 65536] 0 = Ok ([], None).
Proof.
  assert (H : exists logs,
             batch_collect [sample_record 1 (4624 + 65536)] 1 "Security"
               [4624 + 65536] 0 = Ok (logs, None) /\ logs = []).
  { eexists. split; [vm_compute; reflexivity|].
    apply (proj2 (ids_above_16_bits_match_nothing (list (list Z))
                    (Some "HOST"%string)
                    (fun _ => Opened [sample_record 1 (4624 + 65536)])
                    (fun _ => Some 1) batch_read "Security"%string
                    [4624 + 65536] 64%nat 16%nat 0 _ None
                    ltac:(vm_compute; reflexivity)));
      [discriminate|].
    intros id [<-|[]]. right. lia. }
  destruct H as [logs [E ->]]. exact E.
Defined.

(** X5. Events come with an error only when a read failed: a
    collection that ends with any other error (name conversion, open,
    record count) returns no events. *)
Theorem only_read_errors_keep_events (St : Type) (gcn : option string)
    (open : string -> OpenResult St) (count : St -> option Z)
    (read : St -> Z -> ReadResult * St) (logName : string) (ids : list Z)
    (wfuel fuel : nat) (maxEvents : Z) (logs : list EventLogData)
    (err : error) :
  CollectWindowsEventLogs St gcn open count read logName ids wfuel fuel
    maxEvents = Ok (logs, Some err) ->
  (exists errno, err = ErrRead errno) \/ logs = [].
Proof.
  unfold CollectWindowsEventLogs. intros H.
  destruct (has_nul logName); [injection H as <- _; right; reflexivity|].
  destruct (open logName) as [handle|errno].
  - destruct (count handle) as [total|];
      [|injection H as <- _; right; reflexivity].
    apply read_loop_error in H. destruct H as [errno [-> _]].
    left. exists errno. reflexivity.
  - destruct (errno =? ERROR_FILE_NOT_FOUND); injection H as <- _;
      right; reflexivity.
Qed.

Lemma only_read_errors_keep_events_witness :
  (exists errno, ErrNotFound "Sysmon" = ErrRead errno)
  \/ (@nil EventLogData) = [].
Proof.
  apply (only_read_errors_keep_events unit None (fun _ => OpenFailed 2)
           (fun _ => Some 7) (fun st _ => (ReadFailed 259 0, st))
           "Sysmon"%string [1] 64%nat 16%nat 100 [] (ErrNotFound "Sysmon")).
  vm_compute. reflexivity.
Defined.

(** X6. A collection never holds more events than the service counts
    records in the log, nor more than a positive [maxEvents]. *)
Theorem collection_size_bounds (St : Type) (gcn : option string)
    (open : string -> OpenResult St) (count : St -> option Z)
    (read : St -> Z -> ReadResult * St) (logName : string) (ids : list Z)
    (wfuel fuel : nat) (maxEvents : Z) (logs : list EventLogData)
    (err : option error) (handle : St) (totalRecords : Z) :
  CollectWindowsEventLogs St gcn open count read logName ids wfuel fuel
    maxEvents = Ok (logs, err) ->
  open logName = Opened handle ->
  count handle = Some totalRecords ->
  len logs <= u32 totalRecords /\ (0 < maxEvents -> len logs <= maxEvents).
Proof.
  unfold CollectWindowsEventLogs. intros H Ho Hc.
  destruct (has_nul logName).
  { injection H as <- _. pose proof (u32_range totalRecords).
    unfold len. cbn. lia. }
  rewrite Ho, Hc in H.
  pose proof (u32_range totalRecords) as Ht.
  assert (Hlim : limit maxEvents (u32 totalRecords) <= u32 totalRecords
                 /\ (0 < maxEvents ->
                     limit maxEvents (u32 totalRecords) <= maxEvents)
                 /\ 0 <= limit maxEvents (u32 totalRecords)).
  { unfold limit. destruct (Z.ltb_spec 0 maxEvents); cbn [andb]; [|lia].
    destruct (Z.gtb_spec (u32 totalRecords) maxEvents); [|lia].
    rewrite u32_small by lia. lia. }
  apply read_loop_bound in H; [|unfold len; cbn; lia].
  lia.
Qed.

Lemma collection_size_bounds_witness :
  exists logs,
    batch_collect
      [sample_record 1 4624 ++ sample_record 2 4648 ++ sample_record 3 4625]
      3 "Security" [] 2 = Ok (logs, None)
    /\ len logs <= u32 3 /\ (0 < 2 -> len logs <= 2).
Proof.
  eexists. split; [vm_compute; reflexivity|].
  apply (collection_size_bounds (list (list Z)) (Some "HOST"%string)
           (fun _ => Opened [sample_record 1 4624 ++ sample_record 2 4648
                               ++ sample_record 3 4625])
           (fun _ => Some 3) batch_read "Security"%string [] 64%nat 16%nat
           2 _ None
           [sample_record 1 4624 ++ sample_record 2 4648
              ++ sample_record 3 4625] 3);
    [vm_compute; reflexivity|reflexivity|reflexivity].
Defined.

(** X7. When the service signals an insufficient buffer and asks for a
    size that is zero as a [uint32], the loop allocates an empty buffer
    and the next read indexes its first byte: the collection stops with
    an index-out-of-range fault. *)
Theorem zero_size_retry_faults (St : Type) (gcn : option string)
    (read : St -> Z -> ReadResult * St) (logName : string) (ids : list Z)
    (wfuel fuel : nat) (total : Z) (st st' : St) (bufferSize : Z)
    (buffer : list Z) (logs : list EventLogData) (needed : Z) :
  len logs < total -> 0 < len buffer ->
  read st bufferSize = (ReadFailed ERROR_INSUFFICIENT_BUFFER needed, st') ->
  u32 needed = 0 ->
  read_loop St gcn read logName ids wfuel (S (S fuel)) total st bufferSize
    buffer logs = Fault IndexOutOfRange.
Proof.
  intros Hlt Hbuf Hread Hz. cbn [read_loop].
  destruct (Z.ltb_spec (len logs) total); [|lia].
  rewrite index_ok by lia. cbn [bind]. rewrite Hread.
  change (ERROR_INSUFFICIENT_BUFFER =? ERROR_NO_MORE_ITEMS) with false.
  change (ERROR_INSUFFICIENT_BUFFER =? ERROR_INSUFFICIENT_BUFFER) with true.
  cbv iota. rewrite Hz. reflexivity.
Qed.

Lemma zero_size_retry_faults_witness :
  read_loop unit None
    (fun st _ => (ReadFailed ERROR_INSUFFICIENT_BUFFER 0, st))
    "System" [] 64 (S (S 3)) 5 tt 4096 (make_bytes 4096) []
  = Fault IndexOutOfRange.
Proof.
  apply (zero_size_retry_faults unit None
           (fun st _ => (ReadFailed ERROR_INSUFFICIENT_BUFFER 0, st))
           "System"%string [] 64%nat 3%nat 5 tt tt 4096 (make_bytes 4096)
           [] 0);
    [vm_compute; reflexivity|vm_compute; reflexivity|reflexivity
    |reflexivity].
Defined.

(** ** Walks over well-formed logs, and the filter *)

Lemma walk_records (logName cn : string) (ids : list Z) (total : Z)
    (rs : list (list Z)) :
  Forall well_formed_record rs ->
  forall pre logs,
    len (pre ++ List.concat rs) <= 4294967240 ->
    len logs + len rs <= total ->
    exists events,
      Forall2 (fun off event =>
                 build_event logName cn (pre ++ List.concat rs) off = Ok event)
        (record_offsets (len pre) rs) events
      /\ forall fuel,
           (List.length rs + 1 <= fuel)%nat ->
           walk fuel logName cn ids total (pre ++ List.concat rs)
             (len (pre ++ List.concat rs)) (len pre) logs
           = Ok (fold_left (filter_append ids) events logs).
Proof.
  induction 1 as [|r rs [W L] _ IH]; intros pre logs HL Htot.
  - exists []. split; [constructor|]. intros fuel Hf.
    destruct fuel as [|fuel]; [lia|]. cbn [walk List.concat].
    rewrite walk_step_done by (rewrite app_nil_r; lia). reflexivity.
  - unfold sizeof_EVENTLOGRECORD in W.
    pose proof (len_nonneg pre) as Hp0. pose proof (len_nonneg rs) as Hr0.
    assert (Hlen : len (pre ++ List.concat (r :: rs))
                   = len pre + len r + len (List.concat rs)).
    { cbn [List.concat]. rewrite !len_app. lia. }
    pose proof (len_nonneg (List.concat rs)) as Hc0.
    assert (Hre : pre ++ List.concat (r :: rs) = (pre ++ r) ++ List.concat rs).
    { cbn [List.concat]. rewrite app_assoc. reflexivity. }
    assert (G : get32 (pre ++ List.concat (r :: rs)) (len pre) = len r).
    { cbn [List.concat]. replace (len pre) with (len pre + 0) at 1 by lia.
      rewrite get32_app_r by lia. rewrite get32_app_l by lia. exact L. }
    destruct (walk_step_valid logName cn ids total (pre ++ List.concat (r :: rs))
                (len (pre ++ List.concat (r :: rs))) (len pre) logs)
      as [event [B S]]; unfold sizeof_EVENTLOGRECORD; try lia.
    assert (Hg : len (filter_append ids logs event) <= len logs + 1).
    { destruct (filter_append_cases ids logs event) as [[-> _]|[-> _]];
        [rewrite len_app; unfold len; cbn [List.length]|]; lia. }
    assert (Hrs : len (r :: rs) = len rs + 1).
    { unfold len. cbn [List.length]. lia. }
    destruct (IH (pre ++ r) (filter_append ids logs event))
      as [events [F W']].
    { rewrite <- Hre. exact HL. }
    { lia. }
    exists (event :: events). split.
    + cbn [record_offsets]. constructor; [exact B|].
      rewrite Hre. rewrite len_app in F. exact F.
    + intros fuel Hf. destruct fuel as [|fuel]; [lia|].
      cbn [walk fold_left]. rewrite S. cbn [bind]. cbv zeta. rewrite G.
      destruct (Z.geb_spec (len (filter_append ids logs event)) total)
        as [Hcap|Hcap].
      * assert (rs = []) as ->.
        { destruct rs; [reflexivity|].
          unfold len in *. cbn [List.length] in *. lia. }
        inversion F; subst. reflexivity.
      * rewrite Hre. rewrite <- len_app. apply W'.
        cbn [List.length] in Hf. lia.
Qed.

(** X8. A buffer made of well-formed records, one after the other, is
    decoded record by record: when the target is not reached before the
    end, the walk returns the events built at the start of each record,
    in the order of the buffer, each passed through the filter. *)
Theorem well_formed_log_decoded (logName cn : string) (ids : list Z)
    (total : Z) (rs : list (list Z)) (logs : list EventLogData) :
  Forall well_formed_record rs ->
  len (List.concat rs) <= 4294967240 ->
  len logs + len rs <= total ->
  exists events,
    Forall2 (fun off event =>
               build_event logName cn (List.concat rs) off = Ok event)
      (record_offsets 0 rs) events
    /\ forall fuel,
         (List.length rs + 1 <= fuel)%nat ->
         walk fuel logName cn ids total (List.concat rs) (len (List.concat rs)) 0 logs
         = Ok (fold_left (filter_append ids) events logs).
Proof.
  intros W HL Htot.
  exact (walk_records logName cn ids total rs W [] logs HL Htot).
Qed.

Lemma well_formed_log_decoded_witness :
  exists events,
    map RecordNumber events = [1; 2; 3]
    /\ walk 4 "Security" "HOST" [] 10
         (List.concat [sample_record 1 4624; sample_record 2 4648;
                  sample_record 3 4625]) 228 0 [] = Ok events.
Proof.
  destruct (well_formed_log_decoded "Security" "HOST" [] 10
              [sample_record 1 4624; sample_record 2 4648;
               sample_record 3 4625] [])
    as [events [F W]].
  - repeat constructor; vm_compute; discriminate.
  - vm_compute. discriminate.
  - vm_compute. discriminate.
  - specialize (W 4%nat ltac:(vm_compute; lia)).
    inversion F as [|o1 e1 ? ? B1 F1]; subst.
    inversion F1 as [|o2 e2 ? ? B2 F2]; subst.
    inversion F2 as [|o3 e3 ? ? B3 F3]; subst.
    inversion F3; subst.
    vm_compute in B1, B2, B3.
    injection B1 as <-. injection B2 as <-. injection B3 as <-.
    eexists. split; [|exact W]. reflexivity.
Defined.

Lemma filter_append_filter (ids : list Z) (logs : list EventLogData)
    (event : EventLogData) :
  ids <> [] ->
  filter_append ids (filter (allowed ids) logs) event
  = filter (allowed ids) (logs ++ [event]).
Proof.
  intros Hne. unfold filter_append.
  assert (H : (0 <? len ids) = true).
  { apply Z.ltb_lt. destruct ids; [contradiction|].
    unfold len. cbn [List.length]. lia. }
  rewrite H, filter_app. cbn [filter].
  change (allowed ids event) with (eventIDMatches (EventID event) ids).
  destruct (eventIDMatches (EventID event) ids);
    [reflexivity|rewrite app_nil_r; reflexivity].
Qed.

Lemma len_filter_le {A : Type} (f : A -> bool) (l : list A) :
  len (filter f l) <= len l.
Proof.
  unfold len. pose proof (filter_length_le f l). lia.
Qed.

(** An iteration of the unfiltered walk that stays below the target is
    mirrored by the filtered walk, on the filtered logs. *)
Lemma walk_step_filter (logName cn : string) (ids : list Z) (total : Z)
    (buffer : list Z) (bytesRead offset : Z) (logs : list EventLogData)
    (r : step_result) :
  ids <> [] ->
  walk_step logName cn [] total buffer bytesRead offset logs = Ok r ->
  len (step_logs r) < total ->
  walk_step logName cn ids total buffer bytesRead offset
    (filter (allowed ids) logs)
  = Ok (match r with
        | Break l => Break (filter (allowed ids) l)
        | Next o l => Next o (filter (allowed ids) l)
        end).
Proof.
  unfold walk_step. intros Hne H Hlt.
  destruct (offset <? bytesRead); [|injection H as <-; reflexivity].
  destruct (u32 (offset + sizeof_EVENTLOGRECORD) >? bytesRead);
    [injection H as <-; reflexivity|].
  inv_bind H. inv_bind H. cbn [bind].
  destruct ((a0 <? sizeof_EVENTLOGRECORD) || (a0 >? u32 (bytesRead - offset))).
  - destruct (u32 (offset + 8) >=? bytesRead); injection H as <-;
      reflexivity.
  - inv_bind H. cbn [bind].
    rewrite (filter_append_filter ids logs a1 Hne).
    change (filter_append [] logs a1) with (logs ++ [a1]) in H.
    pose proof (len_filter_le (allowed ids) (logs ++ [a1])) as Hf.
    destruct (Z.geb_spec (len (logs ++ [a1])) total);
      injection H as <-; cbn [step_logs] in Hlt; [lia|].
    destruct (Z.geb_spec (len (filter (allowed ids) (logs ++ [a1]))) total);
      [lia|reflexivity].
Qed.

Lemma walk_filter (logName cn : string) (ids : list Z) (total : Z)
    (buffer : list Z) (bytesRead : Z) (fuel : nat) :
  ids <> [] ->
  forall offset logs all,
    walk fuel logName cn [] total buffer bytesRead offset logs = Ok all ->
    len all < total ->
    walk fuel logName cn ids total buffer bytesRead offset
      (filter (allowed ids) logs)
    = Ok (filter (allowed ids) all).
Proof.
  intros Hne. induction fuel as [|fuel IH]; intros offset logs all H Hlt;
    cbn [walk] in *; [discriminate|].
  inv_bind H.
  assert (Hs : len (step_logs a) < total).
  { destruct a as [l|o l]; cbn [step_logs].
    - injection H as <-. exact Hlt.
    - destruct (walk_extends _ _ _ _ _ _ _ _ _ _ H) as [new [-> _]].
      rewrite len_app in Hlt. pose proof (len_nonneg new). lia. }
  rewrite (walk_step_filter _ _ _ _ _ _ _ _ _ Hne E Hs). cbn [bind].
  destruct a as [l|o l].
  - injection H as <-. reflexivity.
  - apply IH; assumption.
Qed.

(** X9. Filtering commutes with the walk.  When the unfiltered walk of
    a buffer ends below the target with the events [all], the walk with
    a non-empty allow-list returns exactly the events of [all] whose id
    is in the list, in the same order. *)
Theorem filtered_walk_is_filter_of_walk (logName cn : string)
    (ids : list Z) (total : Z) (buffer : list Z) (bytesRead offset : Z)
    (fuel : nat) (all : list EventLogData) :
  ids <> [] ->
  walk fuel logName cn [] total buffer bytesRead offset [] = Ok all ->
  len all < total ->
  walk fuel logName cn ids total buffer bytesRead offset []
  = Ok (filter (fun event => eventIDMatches (EventID event) ids) all).
Proof.
  intros Hne H Hlt.
  exact (walk_filter logName cn ids total buffer bytesRead fuel Hne offset
           [] all H Hlt).
Qed.

Lemma filtered_walk_is_filter_of_walk_witness :
  exists all,
    walk 8 "Security" "HOST" [] 10
      (sample_record 1 4624 ++ sample_record 2 4648 ++ sample_record 3 4625)
      228 0 [] = Ok all
    /\ map EventID all = [4624; 4648; 4625]
    /\ walk 8 "Security" "HOST" [4624; 4625] 10
         (sample_record 1 4624 ++ sample_record 2 4648
            ++ sample_record 3 4625) 228 0 []
       = Ok (filter (fun event =>
                       eventIDMatches (EventID event) [4624; 4625]) all).
Proof.
  eexists. split; [vm_compute; reflexivity|].
  split; [reflexivity|].
  apply (filtered_walk_is_filter_of_walk "Security" "HOST" [4624; 4625] 10);
    [discriminate|vm_compute; reflexivity|vm_compute; reflexivity].
Defined.

(** ** Round trip of the string fields *)

Lemma len_utf16_bytes (s : string) : len (utf16_bytes s) = 2 * str_len s.
Proof.
  unfold len, str_len. induction s as [|c s IH];
    cbn [utf16_bytes List.length String.length]; lia.
Qed.

Lemma len_cons2 (pre : list Z) (a b : Z) : len (pre ++ [a; b]) = len pre + 2.
Proof. rewrite len_app. unfold len. cbn [List.length]. lia. Qed.

Lemma encoded_shift (pre : list Z) (c : ascii) (s : string) (rest : list Z) :
  pre ++ utf16_bytes (String c s) ++ rest
  = (pre ++ [code c; 0]) ++ utf16_bytes s ++ rest.
Proof. cbn [utf16_bytes]. rewrite <- app_assoc. reflexivity. Qed.

Lemma nth_at_len (pre rest : list Z) (i : Z) :
  0 <= i -> nth (Z.to_nat (len pre + i)) (pre ++ rest) 0
            = nth (Z.to_nat i) rest 0.
Proof. apply nth_app_r. Qed.

Lemma unit_nonzero_encoded (s : string) :
  is_ascii_text s = true ->
  forall pre rest j,
    0 <= j < str_len s ->
    unit_nonzero (pre ++ utf16_bytes s ++ rest) (len pre + 2 * j) = true.
Proof.
  induction s as [|c s IH]; intros Ha pre rest j Hj.
  - unfold str_len in Hj. cbn in Hj. lia.
  - cbn [is_ascii_text] in Ha.
    apply andb_true_iff in Ha. destruct Ha as [Hc Hs].
    apply andb_true_iff in Hc. destruct Hc as [Hc0 _].
    apply Z.ltb_lt in Hc0.
    destruct (Z.eq_dec j 0) as [->|Hne].
    + unfold unit_nonzero. replace (len pre + 2 * 0) with (len pre + 0) by lia.
      rewrite nth_at_len by lia. cbn [utf16_bytes app Z.to_nat nth].
      fold (code c). destruct (Z.eqb_spec (code c) 0); [lia|reflexivity].
    + rewrite encoded_shift.
      replace (len pre + 2 * j) with (len (pre ++ [code c; 0]) + 2 * (j - 1))
        by (rewrite len_cons2; lia).
      apply IH; [exact Hs|].
      unfold str_len in *. cbn [String.length] in Hj. lia.
Qed.

Lemma unit_zero_after (s : string) :
  forall pre rest,
    unit_nonzero (pre ++ utf16_bytes s ++ 0 :: 0 :: rest)
      (len pre + 2 * str_len s) = false.
Proof.
  induction s as [|c s IH]; intros pre rest.
  - unfold unit_nonzero, str_len. cbn [String.length utf16_bytes app].
    replace (len pre + 2 * Z.of_nat 0 + 1) with (len pre + 1) by lia.
    replace (len pre + 2 * Z.of_nat 0) with (len pre + 0) by lia.
    rewrite !nth_at_len by lia. reflexivity.
  - rewrite encoded_shift.
    replace (len pre + 2 * str_len (String c s))
      with (len (pre ++ [code c; 0]) + 2 * str_len s)
      by (rewrite len_cons2; unfold str_len; cbn [String.length]; lia).
    apply IH.
Qed.

Lemma units_at_encoded (s : string) :
  forall pre rest,
    units_at (pre ++ utf16_bytes s ++ rest) (len pre) (String.length s)
    = codes s.
Proof.
  induction s as [|c s IH]; intros pre rest; [reflexivity|].
  cbn [String.length units_at codes]. f_equal.
  - replace (len pre) with (len pre + 0) at 1 by lia.
    rewrite !nth_at_len by lia. cbn [utf16_bytes app Z.to_nat nth].
    change (Pos.to_nat 1) with 1%nat. cbn [nth]. fold (code c). lia.
  - rewrite encoded_shift. rewrite <- len_cons2 with (a := code c) (b := 0).
    apply IH.
Qed.

Lemma byte_char_code (c : ascii) : byte_char (code c) = c.
Proof.
  unfold byte_char, code. rewrite N2Z.id. apply ascii_N_embedding.
Qed.

(** The conversion gives back a text of non-NUL 7-bit characters. *)
Lemma UTF16ToString_codes (s : string) :
  is_ascii_text s = true -> UTF16ToString (codes s) = s.
Proof.
  unfold UTF16ToString, utf16_Decode.
  induction s as [|c s IH]; intros Ha; [reflexivity|].
  cbn [is_ascii_text] in Ha.
  apply andb_true_iff in Ha. destruct Ha as [Hc Hs].
  apply andb_true_iff in Hc. destruct Hc as [Hc0 Hc1].
  apply Z.ltb_lt in Hc0, Hc1.
  cbn [codes cut_at_nul].
  destruct (Z.eqb_spec (code c) 0); [lia|].
  cbn [utf16_decode_from].
  destruct (Z.ltb_spec (code c) 55296); [|lia]. cbn [orb string_of_runes].
  rewrite IH by exact Hs. unfold utf8_encode_rune.
  destruct (Z.ltb_spec (code c) 128); [|lia].
  cbn [append]. rewrite byte_char_code. reflexivity.
Qed.

(** One encoded text is read back by the field extractor. *)
Lemma text_field_encoded (pre rest : list Z) (s : string) :
  is_ascii_text s = true -> 0 < str_len s < 16384 ->
  len (pre ++ utf16_bytes s ++ 0 :: 0 :: rest) <= 4294967294 ->
  text_field 32768 16384 (pre ++ utf16_bytes s ++ 0 :: 0 :: rest) (len pre)
  = Ok (Some s, len pre + 2 * str_len s).
Proof.
  intros Ha Hs HL.
  pose proof (len_nonneg pre) as Hp0. pose proof (len_nonneg rest) as Hr0.
  assert (Hlen : len (pre ++ utf16_bytes s ++ 0 :: 0 :: rest)
                 = len pre + 2 * str_len s + 2 + len rest).
  { rewrite !len_app, len_utf16_bytes. unfold len. cbn [List.length]. lia. }
  rewrite (text_field_kept _ (len pre) (str_len s)); try lia.
  - unfold str_len. rewrite Nat2Z.id, units_at_encoded.
    rewrite UTF16ToString_codes by exact Ha. reflexivity.
  - intros j Hj. split; [lia|]. apply unit_nonzero_encoded; assumption.
  - right. apply unit_zero_after.
Qed.

Lemma len_encode_cons (s : string) (ss : list string) (post : list Z) :
  len (encode_strings (s :: ss) ++ post)
  = 2 * str_len s + 2 + len (encode_strings ss ++ post).
Proof.
  unfold encode_strings. cbn [map List.concat].
  rewrite <- app_assoc.
  rewrite (len_app (utf16_bytes s ++ [0; 0])), (len_app (utf16_bytes s)).
  rewrite len_utf16_bytes. change (len [0; 0]) with 2. lia.
Qed.

Lemma strings_loop_encoded (ss : list string) :
  Forall (fun s => is_ascii_text s = true /\ 0 < str_len s < 16384) ss ->
  forall pre post acc,
    len (pre ++ encode_strings ss ++ post) <= 4294967294 ->
    strings_loop (List.length ss) (pre ++ encode_strings ss ++ post)
      (len pre) acc
    = Ok (acc ++ ss).
Proof.
  induction 1 as [|s ss [Ha Hs] _ IH]; intros pre post acc HL.
  - cbn [List.length strings_loop]. rewrite app_nil_r. reflexivity.
  - assert (Hb : pre ++ encode_strings (s :: ss) ++ post
                 = pre ++ utf16_bytes s ++ 0 :: 0 :: encode_strings ss ++ post).
    { unfold encode_strings. cbn [map List.concat].
      rewrite <- !app_assoc. reflexivity. }
    assert (Hb' : pre ++ encode_strings (s :: ss) ++ post
                  = (pre ++ utf16_bytes s ++ [0; 0])
                      ++ encode_strings ss ++ post).
    { rewrite Hb. rewrite <- !app_assoc. reflexivity. }
    assert (Hp' : len (pre ++ utf16_bytes s ++ [0; 0])
                  = len pre + 2 * str_len s + 2).
    { rewrite !len_app, len_utf16_bytes. unfold len. cbn [List.length]. lia. }
    pose proof (len_nonneg pre) as Hp0.
    pose proof (len_nonneg (encode_strings ss ++ post)) as Hr0.
    assert (Hlen : len (pre ++ encode_strings (s :: ss) ++ post)
                   = len pre + 2 * str_len s + 2
                     + len (encode_strings ss ++ post)).
    { rewrite Hb'. rewrite len_app. lia. }
    cbn [List.length strings_loop].
    rewrite (u32_small (len _)) by lia.
    destruct (Z.geb_spec (len pre) (len (pre ++ encode_strings (s :: ss) ++ post)));
      [lia|].
    rewrite Hb at 1. rewrite text_field_encoded; try assumption;
      [|rewrite <- Hb; exact HL].
    cbn [bind fst snd].
    rewrite (u32_small (len pre + 2 * str_len s + 2)) by lia.
    destruct (Z.geb_spec (len pre + 2 * str_len s + 2)
                (len (pre ++ encode_strings (s :: ss) ++ post))) as [Hge|Hlt].
    + assert (ss = []) as ->.
      { destruct ss as [|s' ss']; [reflexivity|exfalso].
        pose proof (len_encode_cons s' ss' post) as Hc.
        pose proof (len_nonneg (encode_strings ss' ++ post)).
        assert (0 <= str_len s') by (unfold str_len; lia).
        lia. }
      reflexivity.
    + rewrite Hb'. rewrite <- Hp'. rewrite IH.
      * rewrite <- app_assoc. reflexivity.
      * rewrite <- Hb'. exact HL.
Qed.

(** X10. Round trip of the string fields.  When the strings of a record
    are texts of 1 to 16383 non-NUL 7-bit characters, stored one after
    the other in UTF-16 with their NUL units at the string offset, the
    extractor returns exactly these texts, in order, whatever follows
    them in the buffer. *)
Theorem strings_round_trip (pre post : list Z) (ss : list string)
    (offset StringOffset : Z) :
  Forall (fun s => is_ascii_text s = true /\ 0 < str_len s < 16384) ss ->
  len (pre ++ encode_strings ss ++ post) <= 4294967294 ->
  0 <= offset -> 0 < StringOffset -> offset + StringOffset = len pre ->
  extract_strings (pre ++ encode_strings ss ++ post) offset (len ss)
    StringOffset = Ok ss.
Proof.
  intros Hss HL H0 Hso Hp. unfold extract_strings.
  destruct ss as [|s ss]; [reflexivity|].
  assert (Hn : 0 < len (s :: ss)).
  { unfold len. cbn [List.length]. lia. }
  destruct (Z.ltb_spec 0 (len (s :: ss))); [|lia].
  destruct (Z.ltb_spec 0 StringOffset); [|lia]. cbn [andb].
  pose proof (len_nonneg pre) as Hp0.
  pose proof (len_nonneg (pre ++ encode_strings (s :: ss) ++ post)) as Hb0.
  rewrite Hp. rewrite (u32_small (len pre)) by
    (rewrite len_app in HL;
     pose proof (len_nonneg (encode_strings (s :: ss) ++ post)); lia).
  rewrite (u32_small (len (pre ++ _))) by lia.
  assert (Hin : len pre < len (pre ++ encode_strings (s :: ss) ++ post)).
  { rewrite len_app, len_encode_cons.
    pose proof (len_nonneg (encode_strings ss ++ post)).
    assert (0 <= str_len s) by (unfold str_len; lia). lia. }
  destruct (Z.ltb_spec (len pre)
              (len (pre ++ encode_strings (s :: ss) ++ post))); [|lia].
  replace (Z.to_nat (len (s :: ss))) with (List.length (s :: ss))
    by (unfold len; rewrite Nat2Z.id; reflexivity).
  rewrite strings_loop_encoded by assumption. reflexivity.
Qed.

Lemma strings_round_trip_witness :
  extract_strings
    (header_bytes 100 1 7 4 2 56 0 0
       ++ encode_strings ["logon"; "user42"]%string ++ [9; 9; 9])
    0 2 56 = Ok ["logon"; "user42"]%string.
Proof.
  apply (strings_round_trip (header_bytes 100 1 7 4 2 56 0 0) [9; 9; 9]
           ["logon"; "user42"]%string 0 56).
  - repeat constructor; vm_compute; try reflexivity; discriminate.
  - vm_compute. discriminate.
  - lia.
  - lia.
  - reflexivity.
Defined.

(** ** The cap of the source-name scan *)

(** X11. The source-name scan decodes at most 513 code units: a name
    is never rejected for its length (the test [strLen < 1024] cannot
    fail), and a run of 513 or more non-NUL units at the scan start is
    cut to its first 513 units. *)
Theorem source_name_cut_at_513_units (buffer : list Z) (offset : Z) :
  len buffer <= 4294967294 -> 0 <= offset <= 4294967262 ->
  (exists k,
      0 <= k <= 513
      /\ decode_source buffer offset
         = Ok (if 0 <? k
               then UTF16ToString
                      (units_at buffer (offset + 32) (Z.to_nat k))
               else EmptyString))
  /\ ((forall j, 0 <= j < 513 ->
         offset + 32 + 2 * j + 1 < len buffer
         /\ unit_nonzero buffer (offset + 32 + 2 * j) = true) ->
      decode_source buffer offset
      = Ok (UTF16ToString (units_at buffer (offset + 32) 513))).
Proof.
  intros HL Ho. unfold decode_source.
  change (8 * 4) with 32. rewrite (u32_small (offset + 32)) by lia.
  destruct (text_field_spec 1024 1024 buffer (offset + 32))
    as [k [Hk [Hall [Hb [Hstop E]]]]]; try lia.
  rewrite E. cbn [bind fst].
  assert (Hk513 : k <= 513).
  { destruct (Z.eq_dec k 0) as [->|Hne]; [lia|].
    assert (0 < k) as Hp by lia. specialize (Hb Hp). lia. }
  destruct (Z.ltb_spec k 1024); [|lia]. rewrite andb_true_r.
  split.
  - exists k. split; [lia|]. destruct (0 <? k); reflexivity.
  - intros Hrun.
    assert (k = 513) as ->.
    { destruct (Z.lt_ge_cases k 513) as [Hlt|Hge]; [exfalso|lia].
      destruct (Hrun k) as [A B]; [lia|].
      destruct Hstop as [H'|[H'|H']]; [lia|lia|congruence]. }
    reflexivity.
Qed.

Lemma source_name_cut_at_513_units_witness :
  decode_source (repeat 65 3000) 0
  = Ok (UTF16ToString (units_at (repeat 65 3000) (0 + 32) 513)).
Proof.
  apply (proj2 (source_name_cut_at_513_units (repeat 65 3000) 0
                  ltac:(vm_compute; discriminate) ltac:(lia))).
  intros j Hj. split.
  - change (len (repeat 65 3000)) with 3000. lia.
  - unfold unit_nonzero. rewrite !nth_repeat_lt; [reflexivity| |];
      rewrite ?repeat_length; lia.
Defined.

(** ** The timestamp translator *)

Lemma string_app_assoc (a b c : string) :
  append (append a b) c = append a (append b c).
Proof. induction a as [|x a IH]; cbn [append]; [reflexivity|]. now f_equal. Qed.

Lemma string_length_app (a b : string) :
  String.length (append a b) = (String.length a + String.length b)%nat.
Proof.
  induction a as [|x a IH]; cbn [append String.length Nat.add];
    [reflexivity|].
  rewrite IH. reflexivity.
Qed.

Lemma mod_mod_mul (a n k : Z) :
  0 < n -> 0 < k -> (a mod (k * n)) mod n = a mod n.
Proof.
  intros Hn Hk.
  rewrite (Z.div_mod a (k * n)) at 2 by lia.
  replace (k * n * (a / (k * n)) + a mod (k * n))
    with (a mod (k * n) + (k * (a / (k * n))) * n) by lia.
  rewrite Z_mod_plus_full. reflexivity.
Qed.

Lemma fmt_0d_2_length (z : Z) :
  0 <= z < 100 -> String.length (fmt_0d 2 z) = 2%nat.
Proof.
  intros Hz.
  assert (H : forallb (fun n => Nat.eqb (String.length (fmt_0d 2 (Z.of_nat n))) 2)
                (seq 0 100) = true) by (vm_compute; reflexivity).
  rewrite forallb_forall in H.
  specialize (H (Z.to_nat z)). rewrite Z2Nat.id in H by lia.
  apply Nat.eqb_eq. apply H. apply in_seq. lia.
Qed.

Lemma fmt_0d_4_length (z : Z) :
  1000 <= z < 3000 -> String.length (fmt_0d 4 z) = 4%nat.
Proof.
  intros Hz.
  assert (H : forallb (fun n => Nat.eqb (String.length (fmt_0d 4 (Z.of_nat n))) 4)
                (seq 1000 2000) = true) by (vm_compute; reflexivity).
  rewrite forallb_forall in H.
  specialize (H (Z.to_nat z)). rewrite Z2Nat.id in H by lia.
  apply Nat.eqb_eq. apply H. apply in_seq. lia.
Qed.

(** The seconds the translator computes with: the timestamp itself
    below [2^31], the timestamp minus [2^32] from there on. *)
Lemma timeval_seconds (t : Z) :
  0 <= t < 4294967296 ->
  NsecToTimeval_Sec (i64 (t * 1000000000))
  = if t <? 2147483648 then t else t - 4294967296.
Proof.
  intros Ht. unfold NsecToTimeval_Sec.
  assert (E : i64 (t * 1000000000) = t * 1000000000).
  { unfold i64. rewrite Z.mod_small by lia. lia. }
  rewrite E, Z.quot_mul by lia. unfold i32.
  destruct (Z.ltb_spec t 2147483648).
  - rewrite Z.mod_small by lia. lia.
  - replace (t + 2147483648) with (t - 2147483648 + 1 * 4294967296) by lia.
    rewrite Z_mod_plus_full, Z.mod_small by lia. lia.
Qed.

(** X12. For a timestamp below [2^31] the translator prints ten
    characters of date, a space, and the true UTC time of day of the
    timestamp: hours [t mod 86400 / 3600], minutes [t mod 3600 / 60] and
    seconds [t mod 60].  Only the date part is approximate. *)
Theorem time_of_day_is_exact (t : Z) :
  0 <= t < 2147483648 ->
  exists date,
    String.length date = 10%nat
    /\ WindowsTimeToTime t
       = append date
           (String " " (append (fmt_0d 2 (t mod 86400 / 3600))
              (String ":" (append (fmt_0d 2 (t mod 3600 / 60))
                 (String ":" (fmt_0d 2 (t mod 60))))))).
Proof.
  intros Ht. unfold WindowsTimeToTime.
  rewrite timeval_seconds by lia.
  destruct (Z.ltb_spec t 2147483648); [|lia].
  cbv zeta.
  pose proof (Z.mod_pos_bound t 31536000 ltac:(lia)) as Hy.
  pose proof (Z.mod_pos_bound (t mod 31536000) 2592000 ltac:(lia)) as Hm.
  pose proof (Z.mod_pos_bound ((t mod 31536000) mod 2592000) 86400
                ltac:(lia)) as Hd.
  rewrite (Z.rem_mod_nonneg t 31536000) by lia.
  rewrite (Z.rem_mod_nonneg (t mod 31536000) 2592000) by lia.
  rewrite (Z.rem_mod_nonneg (_ mod 2592000) 86400) by lia.
  pose proof (Z.mod_pos_bound (((t mod 31536000) mod 2592000) mod 86400)
                3600 ltac:(lia)) as Hh.
  rewrite (Z.rem_mod_nonneg (_ mod 86400) 3600) by lia.
  rewrite (Z.rem_mod_nonneg (_ mod 3600) 60) by lia.
  rewrite (Z.quot_div_nonneg t 31536000) by lia.
  rewrite (Z.quot_div_nonneg (t mod 31536000) 2592000) by lia.
  rewrite (Z.quot_div_nonneg (_ mod 2592000) 86400) by lia.
  rewrite (Z.quot_div_nonneg (_ mod 86400) 3600) by lia.
  rewrite (Z.quot_div_nonneg (_ mod 3600) 60) by lia.
  assert (Ed : ((t mod 31536000) mod 2592000) mod 86400 = t mod 86400).
  { transitivity ((t mod 31536000) mod 86400).
    - exact (mod_mod_mul (t mod 31536000) 86400 30 ltac:(lia) ltac:(lia)).
    - exact (mod_mod_mul t 86400 365 ltac:(lia) ltac:(lia)). }
  assert (Eh : (t mod 86400) mod 3600 = t mod 3600).
  { exact (mod_mod_mul t 3600 24 ltac:(lia) ltac:(lia)). }
  assert (Es : (t mod 3600) mod 60 = t mod 60).
  { exact (mod_mod_mul t 60 60 ltac:(lia) ltac:(lia)). }
  rewrite Ed, Eh, Es.
  assert (Hyear : 0 <= t / 31536000 < 69).
  { split; [apply Z.div_pos; lia|apply Z.div_lt_upper_bound; lia]. }
  assert (Hmon : 0 <= t mod 31536000 / 2592000 < 13).
  { split; [apply Z.div_pos; lia|apply Z.div_lt_upper_bound; lia]. }
  assert (Hday : 0 <= (t mod 31536000) mod 2592000 / 86400 < 30).
  { split; [apply Z.div_pos; lia|apply Z.div_lt_upper_bound; lia]. }
  assert (I1 : i32 (1970 + t / 31536000) = 1970 + t / 31536000).
  { unfold i32. rewrite Z.mod_small by lia. lia. }
  assert (I2 : i32 (t mod 31536000 / 2592000 + 1)
               = t mod 31536000 / 2592000 + 1).
  { unfold i32. rewrite Z.mod_small by lia. lia. }
  assert (I3 : i32 ((t mod 31536000) mod 2592000 / 86400 + 1)
               = (t mod 31536000) mod 2592000 / 86400 + 1).
  { unfold i32. rewrite Z.mod_small by lia. lia. }
  rewrite I1, I2, I3.
  exists (append (fmt_0d 4 (1970 + t / 31536000))
            (String "-" (append (fmt_0d 2 (t mod 31536000 / 2592000 + 1))
               (String "-"
                  (fmt_0d 2 ((t mod 31536000) mod 2592000 / 86400 + 1)))))).
  split.
  - rewrite string_length_app. cbn [String.length].
    rewrite string_length_app. cbn [String.length].
    rewrite fmt_0d_4_length, !fmt_0d_2_length by lia. reflexivity.
  - rewrite string_app_assoc. cbn [append]. f_equal. f_equal.
    rewrite string_app_assoc. cbn [append]. reflexivity.
Qed.

Lemma time_of_day_is_exact_witness :
  exists date,
    String.length date = 10%nat
    /\ WindowsTimeToTime 1700000000
       = append date
           (String " " (append (fmt_0d 2 (1700000000 mod 86400 / 3600))
              (String ":" (append (fmt_0d 2 (1700000000 mod 3600 / 60))
                 (String ":" (fmt_0d 2 (1700000000 mod 60))))))).
Proof. apply (time_of_day_is_exact 1700000000). lia. Defined.

(** X13. From [2^31] on (19 January 2038) the seconds wrap into the
    negative [int32] range, and the translator prints a year between
    1901 and 1970: the text begins with the four digits of
    [1970 + (t - 2^32) / 31536000], the division truncating. *)
Theorem timestamps_wrap_in_2038 (t : Z) :
  2147483648 <= t < 4294967296 ->
  NsecToTimeval_Sec (i64 (t * 1000000000)) = t - 4294967296
  /\ 1901 <= 1970 + Z.quot (t - 4294967296) 31536000 <= 1970
  /\ exists rest,
       WindowsTimeToTime t
       = append (fmt_0d 4 (1970 + Z.quot (t - 4294967296) 31536000)) rest.
Proof.
  intros Ht.
  assert (ES : NsecToTimeval_Sec (i64 (t * 1000000000)) = t - 4294967296).
  { rewrite timeval_seconds by lia.
    destruct (Z.ltb_spec t 2147483648); [lia|reflexivity]. }
  assert (Hq : -69 <= Z.quot (t - 4294967296) 31536000 <= 0).
  { rewrite <- (Z.opp_involutive (t - 4294967296)).
    rewrite Z.quot_opp_l by lia.
    rewrite Z.quot_div_nonneg by lia.
    assert (0 <= (- (t - 4294967296)) / 31536000 < 69).
    { split; [apply Z.div_pos; lia|apply Z.div_lt_upper_bound; lia]. }
    lia. }
  split; [exact ES|]. split; [lia|].
  unfold WindowsTimeToTime. rewrite ES. cbv zeta.
  assert (I1 : i32 (1970 + Z.quot (t - 4294967296) 31536000)
               = 1970 + Z.quot (t - 4294967296) 31536000).
  { unfold i32. rewrite Z.mod_small by lia. lia. }
  rewrite I1. eexists. reflexivity.
Qed.

Lemma timestamps_wrap_in_2038_witness :
  NsecToTimeval_Sec (i64 (4294967295 * 1000000000)) = 4294967295 - 4294967296
  /\ 1901 <= 1970 + Z.quot (4294967295 - 4294967296) 31536000 <= 1970
  /\ exists rest,
       WindowsTimeToTime 4294967295
       = append (fmt_0d 4 (1970 + Z.quot (4294967295 - 4294967296) 31536000))
           rest.
Proof. apply (timestamps_wrap_in_2038 4294967295). lia. Defined.

(** ** The event-type names *)

Lemma digits_inj (a b : Z) : 0 <= a -> 0 <= b -> digits a = digits b -> a = b.
Proof.
  unfold digits. intros Ha Hb H.
  assert (Hnn : forall n, N.to_uint n <> Decimal.Nil).
  { intros [|p]; [discriminate|]. cbn [N.to_uint].
    apply DecimalPos.Unsigned.to_uint_nonnil. }
  apply (f_equal NilZero.uint_of_string) in H.
  rewrite !NilZero.usu in H by apply Hnn.
  injection H as H. apply DecimalN.Unsigned.to_uint_inj in H. lia.
Qed.

Lemma append_inj_l (p a b : string) : append p a = append p b -> a = b.
Proof.
  induction p as [|c p IH]; cbn [append]; intros H; [exact H|].
  injection H as H. auto.
Qed.

Lemma append_inj_r (a b s : string) : append a s = append b s -> a = b.
Proof.
  intros H.
  assert (Hl : String.length a = String.length b).
  { apply (f_equal String.length) in H.
    rewrite !string_length_app in H. lia. }
  revert b H Hl. induction a as [|x a IH]; intros [|y b] H Hl;
    cbn [String.length] in Hl; try discriminate; [reflexivity|].
  cbn [append] in H. injection H as -> H. f_equal. apply IH; [exact H|lia].
Qed.

(** X14. The name of an event type determines the type: two type
    codes (non-negative, as a [uint16] is) with the same name are
    equal.  A code that is none of the six known ones is named
    "Unknown (code)". *)
Theorem event_type_name_injective (a b : Z) :
  0 <= a -> 0 <= b ->
  GetEventTypeName a = GetEventTypeName b -> a = b.
Proof.
  intros Ha Hb. unfold GetEventTypeName, EVENTLOG_SUCCESS,
    EVENTLOG_ERROR_TYPE, EVENTLOG_WARNING_TYPE, EVENTLOG_INFORMATION_TYPE,
    EVENTLOG_AUDIT_SUCCESS, EVENTLOG_AUDIT_FAILURE.
  destruct (Z.eqb_spec a 0); destruct (Z.eqb_spec a 1);
  destruct (Z.eqb_spec a 2); destruct (Z.eqb_spec a 4);
  destruct (Z.eqb_spec a 8); destruct (Z.eqb_spec a 16); try lia;
  destruct (Z.eqb_spec b 0); destruct (Z.eqb_spec b 1);
  destruct (Z.eqb_spec b 2); destruct (Z.eqb_spec b 4);
  destruct (Z.eqb_spec b 8); destruct (Z.eqb_spec b 16); try lia;
  intros H; try discriminate H.
  apply append_inj_l, append_inj_r in H. unfold fmt_d in H.
  destruct (Z.ltb_spec a 0); [lia|]. destruct (Z.ltb_spec b 0); [lia|].
  apply digits_inj; assumption.
Qed.

Lemma event_type_name_injective_witness :
  GetEventTypeName 3 = "Unknown (3)"%string
  /\ (GetEventTypeName 3 = GetEventTypeName 3 -> 3 = 3).
Proof.
  split; [reflexivity|].
  apply (event_type_name_injective 3 3); lia.
Defined.

(** ** The report of a channel *)

Lemma entry_texts_app (a b : list EventLogData) :
  forall i,
    entry_texts i (a ++ b)
    = append (entry_texts i a) (entry_texts (i + len a) b).
Proof.
  induction a as [|x a IH]; intros i; cbn [entry_texts app append].
  - change (len (@nil EventLogData)) with 0. rewrite Z.add_0_r. reflexivity.
  - rewrite IH, string_app_assoc.
    replace (i + 1 + len a) with (i + len (x :: a)); [reflexivity|].
    unfold len. cbn [List.length]. lia.
Qed.

(** X15. In the report of a channel every event has its entry at its
    own place: for the event at position [i] of the collection, counted
    from 0, the report is the line with the count of all the events,
    the entries of the [i] events before it, its own entry with index
    [i] (printed as [i + 1]), the entries of the events after it with
    the indexes from [i + 1] on, and the rule of fifty dashes.  The
    line about no matching events is not part of it. *)
Theorem channel_report_lists_events_in_order (channel : string)
    (before after : list EventLogData) (event : EventLogData) :
  FormatLogChannel channel (before ++ event :: after)
  = written
      ["Found "; fmt_d (len before + 1 + len after); " logs in "; channel;
       " channel"; nl;
       entry_texts 0 before;
       FormatLogEntry event (len before);
       entry_texts (len before + 1) after;
       Repeat "-" 50; nl]%string.
Proof.
  unfold FormatLogChannel.
  assert (Hn : len (before ++ event :: after) = len before + 1 + len after).
  { rewrite len_app. unfold len. cbn [List.length]. lia. }
  rewrite Hn.
  assert (Hl : (len before + 1 + len after =? 0) = false).
  { apply Z.eqb_neq. pose proof (len_nonneg before).
    pose proof (len_nonneg after). lia. }
  rewrite Hl, entry_texts_app. cbn [entry_texts written].
  rewrite Z.add_0_l. rewrite !string_app_assoc. reflexivity.
Qed.

Lemma channel_report_lists_events_in_order_witness :
  FormatLogChannel "Security"
    [mkEvent 7 1700000000 1700000001 4624 8 0 "Security" "HOST"
       ["ok"%string] [];
     mkEvent 8 1700000002 1700000003 4625 16 0 "Security" "HOST" [] [];
     mkEvent 9 1700000004 1700000005 4672 8 0 "Security" "HOST"
       ["a"%string; "b"%string] []]
  = written
      ["Found "; "3"; " logs in "; "Security"; " channel"; nl;
       FormatLogEntry
         (mkEvent 7 1700000000 1700000001 4624 8 0 "Security" "HOST"
            ["ok"%string] []) 0;
       FormatLogEntry
         (mkEvent 8 1700000002 1700000003 4625 16 0 "Security" "HOST" [] [])
         1;
       FormatLogEntry
         (mkEvent 9 1700000004 1700000005 4672 8 0 "Security" "HOST"
            ["a"%string; "b"%string] []) 2;
       Repeat "-" 50; nl]%string.
Proof.
  etransitivity.
  - exact (channel_report_lists_events_in_order "Security"
             [mkEvent 7 1700000000 1700000001 4624 8 0 "Security" "HOST"
                ["ok"%string] []]
             [mkEvent 9 1700000004 1700000005 4672 8 0 "Security" "HOST"
                ["a"%string; "b"%string] []]
             (mkEvent 8 1700000002 1700000003 4625 16 0 "Security" "HOST"
                [] [])).
  - vm_compute. reflexivity.
Defined.


(** ** Executable paths *)

Lemma IndexByte_lower (c : ascii) (s : string) : -1 <= IndexByte c s.
Proof.
  induction s as [|x s IH]; cbn [IndexByte]; [lia|].
  destruct (Ascii.eqb x c); [lia|].
  destruct (Z.eqb_spec (IndexByte c s) (-1)); lia.
Qed.

Lemma IndexByte_absent (c : ascii) (s : string) :
  occurs c s = false <-> IndexByte c s = -1.
Proof.
  induction s as [|x s IH]; cbn [IndexByte occurs]; [tauto|].
  pose proof (IndexByte_lower c s) as Hl.
  destruct (Ascii.eqb x c); cbn [orb]; [split; [discriminate|lia]|].
  destruct (Z.eqb_spec (IndexByte c s) (-1)) as [E|E].
  - rewrite IH. tauto.
  - rewrite IH. split; [tauto|lia].
Qed.

Lemma IndexByte_first (c : ascii) (a b : string) :
  occurs c a = false ->
  IndexByte c (append a (String c b)) = str_len a.
Proof.
  unfold str_len. induction a as [|x a IH]; cbn [append IndexByte occurs].
  - intros _. rewrite Ascii.eqb_refl. reflexivity.
  - intros H. apply orb_false_iff in H. destruct H as [Hx Ha].
    rewrite Hx, (IH Ha).
    destruct (Z.eqb_spec (Z.of_nat (String.length a)) (-1)); [lia|].
    cbn [String.length]. lia.
Qed.

Lemma substring_all (s : string) : substring 0 (String.length s) s = s.
Proof.
  induction s as [|x s IH]; cbn [substring String.length]; [reflexivity|].
  now f_equal.
Qed.

Lemma substring_prefix (a b : string) :
  substring 0 (String.length a) (append a b) = a.
Proof.
  induction a as [|x a IH]; cbn [append substring String.length].
  - destruct b; reflexivity.
  - now f_equal.
Qed.

Lemma substring_skip (a b : string) (n : nat) :
  substring (String.length a) n (append a b) = substring 0 n b.
Proof.
  induction a as [|x a IH]; cbn [append substring String.length];
    [reflexivity|exact IH].
Qed.

Lemma slice_prefix (a b : string) : slice_str (append a b) 0 (str_len a) = a.
Proof.
  unfold slice_str, str_len. rewrite Z.sub_0_r, Nat2Z.id.
  apply substring_prefix.
Qed.

Lemma slice_from_after (a : string) (c : ascii) (b : string) :
  slice_from (append a (String c b)) (str_len a + 1) = b.
Proof.
  unfold slice_from, str_len.
  replace (Z.to_nat (Z.of_nat (String.length a) + 1))
    with (String.length (append a (String c EmptyString)))
    by (rewrite string_length_app; cbn [String.length]; lia).
  replace (append a (String c b))
    with (append (append a (String c EmptyString)) b)
    by (rewrite string_app_assoc; reflexivity).
  rewrite substring_skip, string_length_app.
  replace (String.length (append a (String c EmptyString))
           + String.length b
           - String.length (append a (String c EmptyString)))%nat
    with (String.length b) by lia.
  apply substring_all.
Qed.

Lemma slice_middle (a : string) (c : ascii) (v b : string) :
  slice_str (append a (String c (append v b))) (str_len a + 1)
    (str_len v + (str_len a + 1)) = v.
Proof.
  unfold slice_str, str_len.
  replace (Z.to_nat (Z.of_nat (String.length a) + 1))
    with (String.length (append a (String c EmptyString)))
    by (rewrite string_length_app; cbn [String.length]; lia).
  replace (append a (String c (append v b)))
    with (append (append a (String c EmptyString)) (append v b))
    by (rewrite string_app_assoc; reflexivity).
  rewrite substring_skip.
  replace (Z.to_nat (Z.of_nat (String.length v)
                     + (Z.of_nat (String.length a) + 1)
                     - (Z.of_nat (String.length a) + 1)))
    with (String.length v) by lia.
  apply substring_prefix.
Qed.

(** A text splits at the first occurrence of a character. *)
Lemma split_at_first (c : ascii) (s : string) :
  IndexByte c s <> -1 ->
  exists a b, s = append a (String c b) /\ occurs c a = false.
Proof.
  induction s as [|x s IH]; cbn [IndexByte]; [congruence|].
  destruct (Ascii.eqb_spec x c) as [->|Hne].
  - intros _. exists EmptyString, s. split; reflexivity.
  - destruct (Z.eqb_spec (IndexByte c s) (-1)) as [E|E]; [congruence|].
    intros _. destruct (IH E) as [a [b [-> Ha]]].
    exists (String x a), b. split; [reflexivity|].
    cbn [occurs]. rewrite Ha.
    destruct (Ascii.eqb_spec x c); [contradiction|reflexivity].
Qed.

Lemma count_char_app (c : ascii) (a b : string) :
  count_char c (append a b) = count_char c a + count_char c b.
Proof.
  induction a as [|x a IH]; cbn [append count_char]; [reflexivity|].
  rewrite IH. lia.
Qed.

Lemma count_char_absent (c : ascii) (s : string) :
  occurs c s = false -> count_char c s = 0.
Proof.
  induction s as [|x s IH]; cbn [occurs count_char]; [reflexivity|].
  intros H. apply orb_false_iff in H. destruct H as [-> Hs].
  rewrite (IH Hs). reflexivity.
Qed.

Lemma count_char_nonneg (c : ascii) (s : string) : 0 <= count_char c s.
Proof.
  induction s as [|x s IH]; cbn [count_char]; [lia|].
  destruct (Ascii.eqb x c); lia.
Qed.

(** One turn of the expansion loop on a text with a variable. *)
Lemma expand_env_step (Getenv : string -> string) (fuel : nat)
    (a v b : string) :
  occurs "%" a = false -> occurs "%" v = false ->
  expand_env Getenv (S fuel) (append a (String "%" (append v (String "%" b))))
  = expand_env Getenv fuel (append a (append (Getenv v) b)).
Proof.
  intros Ha Hv. cbn [expand_env].
  rewrite (IndexByte_first "%" a _ Ha).
  assert (Hn : forall s, (str_len s =? -1) = false).
  { intros s. apply Z.eqb_neq. unfold str_len. lia. }
  rewrite Hn. rewrite slice_from_after.
  rewrite (IndexByte_first "%" v _ Hv). rewrite Hn.
  rewrite slice_middle, slice_prefix.
  replace (append a (String "%" (append v (String "%" b))))
    with (append (append a (String "%" v)) (String "%" b))
    by (rewrite string_app_assoc; reflexivity).
  replace (str_len v + (str_len a + 1) + 1)
    with (str_len (append a (String "%" v)) + 1)
    by (unfold str_len; rewrite string_length_app; cbn [String.length]; lia).
  rewrite slice_from_after. reflexivity.
Qed.

Lemma closing_quote_found (q : ascii) (inner tail : string) :
  occurs q inner = false ->
  forall i, closing_quote q (append inner (String q tail)) i
            = Some (i + str_len inner).
Proof.
  unfold str_len. induction inner as [|x inner IH]; intros H i;
    cbn [append closing_quote occurs String.length] in *.
  - rewrite Ascii.eqb_refl. f_equal. lia.
  - apply orb_false_iff in H. destruct H as [Hx Hi].
    rewrite Hx, (IH Hi). f_equal. lia.
Qed.

Lemma closing_quote_none (q : ascii) (rest : string) :
  occurs q rest = false -> forall i, closing_quote q rest i = None.
Proof.
  induction rest as [|x rest IH]; intros H i;
    cbn [closing_quote occurs] in *; [reflexivity|].
  apply orb_false_iff in H. destruct H as [Hx Hr].
  rewrite Hx. apply IH. exact Hr.
Qed.

Lemma quote_test (q : ascii) :
  q = dquote \/ q = "'"%char -> Ascii.eqb q dquote || Ascii.eqb q "'" = true.
Proof. intros [->| ->]; reflexivity. Qed.

(** X16. A quoted service path yields the text between the opening
    quote and the next quote of the same kind, whatever follows it,
    when that text holds no percent sign. *)
Theorem quoted_path_is_unquoted (Getenv : string -> string) (fuel : nat)
    (q : ascii) (inner tail : string) :
  q = dquote \/ q = "'"%char ->
  occurs q inner = false -> occurs "%" inner = false ->
  extractExecutablePath Getenv fuel
    (String q (append inner (String q tail))) = Ok inner.
Proof.
  intros Hq Hi Hp. unfold extractExecutablePath.
  rewrite (quote_test q Hq), (closing_quote_found q inner tail Hi).
  assert (E : slice_str (String q (append inner (String q tail))) 1
                (1 + str_len inner) = inner).
  { unfold slice_str, str_len.
    replace (Z.to_nat (1 + Z.of_nat (String.length inner) - 1))
      with (String.length inner) by lia.
    change (Z.to_nat 1) with 1%nat. cbn [substring].
    apply substring_prefix. }
  rewrite E. apply IndexByte_absent in Hp. rewrite Hp. reflexivity.
Qed.

Lemma quoted_path_is_unquoted_witness :
  extractExecutablePath (fun _ => EmptyString) 0
    (String dquote
       (append "C:\Program Files\svc\svc.exe" (String dquote " -k run")))
  = Ok "C:\Program Files\svc\svc.exe"%string.
Proof.
  apply (quoted_path_is_unquoted (fun _ => EmptyString) 0 dquote
           "C:\Program Files\svc\svc.exe" " -k run");
    [left; reflexivity|reflexivity|reflexivity].
Defined.

(** X17. A path whose opening quote is never closed is returned as it
    is, with its quote and with everything after its first space, when
    it holds no percent sign. *)
Theorem unclosed_quote_keeps_everything (Getenv : string -> string)
    (fuel : nat) (q : ascii) (rest : string) :
  q = dquote \/ q = "'"%char ->
  occurs q rest = false -> occurs "%" rest = false ->
  extractExecutablePath Getenv fuel (String q rest) = Ok (String q rest).
Proof.
  intros Hq Hr Hp. unfold extractExecutablePath.
  rewrite (quote_test q Hq), (closing_quote_none q rest Hr).
  assert (E : occurs "%" (String q rest) = false).
  { cbn [occurs]. rewrite Hp. destruct Hq as [->| ->]; reflexivity. }
  apply IndexByte_absent in E. rewrite E. reflexivity.
Qed.

Lemma unclosed_quote_keeps_everything_witness :
  extractExecutablePath (fun _ => EmptyString) 0
    (String dquote "C:\Tools\svc.exe -k run")
  = Ok (String dquote "C:\Tools\svc.exe -k run").
Proof.
  apply (unclosed_quote_keeps_everything (fun _ => EmptyString) 0 dquote
           "C:\Tools\svc.exe -k run");
    [left; reflexivity|reflexivity|reflexivity].
Defined.

(** X18. An unquoted path is cut at its first space: a path without
    space or percent sign is returned as it is, and followed by a space
    and arguments it is returned without them. *)
Theorem unquoted_path_drops_arguments (Getenv : string -> string)
    (fuel : nat) (c0 : ascii) (exe args : string) :
  c0 <> dquote -> c0 <> "'"%char ->
  occurs " " (String c0 exe) = false ->
  occurs "%" (String c0 exe) = false ->
  extractExecutablePath Getenv fuel (String c0 exe) = Ok (String c0 exe)
  /\ extractExecutablePath Getenv fuel
       (append (String c0 exe) (String " " args))
     = Ok (String c0 exe).
Proof.
  intros Hd Hs Hsp Hp.
  assert (Hq : Ascii.eqb c0 dquote || Ascii.eqb c0 "'" = false).
  { apply orb_false_iff. split; apply Ascii.eqb_neq; assumption. }
  pose proof (proj1 (IndexByte_absent "%" _) Hp) as Ep.
  split.
  - unfold extractExecutablePath. rewrite Hq.
    rewrite (proj1 (IndexByte_absent " " _) Hsp).
    change (0 <? -1) with false. cbv iota. rewrite Ep. reflexivity.
  - unfold extractExecutablePath. cbn [append]. rewrite Hq.
    change (String c0 (append exe (String " " args)))
      with (append (String c0 exe) (String " " args)).
    rewrite (IndexByte_first " " (String c0 exe) args Hsp).
    assert (Hpos : (0 <? str_len (String c0 exe)) = true).
    { apply Z.ltb_lt. unfold str_len. cbn [String.length]. lia. }
    rewrite Hpos, slice_prefix, Ep. reflexivity.
Qed.

Lemma unquoted_path_drops_arguments_witness :
  extractExecutablePath (fun _ => EmptyString) 0
    "C:\Windows\system32\svchost.exe -k netsvcs -p"
  = Ok "C:\Windows\system32\svchost.exe"%string.
Proof.
  apply (proj2 (unquoted_path_drops_arguments (fun _ => EmptyString) 0
                  "C" ":\Windows\system32\svchost.exe" "-k netsvcs -p"
                  ltac:(discriminate) ltac:(discriminate)
                  ltac:(reflexivity) ltac:(reflexivity))).
Defined.

(** X19. When no value of the environment holds a percent sign, the
    expansion loop ends within one turn more than half the number of
    percent signs of the text, and its result holds at most one percent
    sign. *)
Theorem expansion_terminates (Getenv : string -> string) :
  (forall v, occurs "%" (Getenv v) = false) ->
  forall (fuel : nat) (path : string),
    count_char "%" path < 2 * Z.of_nat fuel ->
    exists result,
      expand_env Getenv fuel path = Ok result
      /\ count_char "%" result <= 1.
Proof.
  intros Henv. induction fuel as [|fuel IH]; intros path Hf.
  - pose proof (count_char_nonneg "%" path). lia.
  - destruct (Z.eq_dec (IndexByte "%" path) (-1)) as [E|E].
    + cbn [expand_env]. rewrite E. cbn [Z.eqb].
      exists path. split; [reflexivity|].
      rewrite count_char_absent by (apply IndexByte_absent; exact E). lia.
    + destruct (split_at_first "%" path E) as [a [r [-> Ha]]].
      destruct (Z.eq_dec (IndexByte "%" r) (-1)) as [Er|Er].
      * cbn [expand_env]. rewrite (IndexByte_first "%" a r Ha).
        assert (Hn : (str_len a =? -1) = false).
        { apply Z.eqb_neq. unfold str_len. lia. }
        rewrite Hn, slice_from_after, Er. cbn [Z.eqb].
        eexists. split; [reflexivity|].
        rewrite count_char_app. cbn [count_char].
        rewrite (count_char_absent "%" a Ha).
        rewrite (count_char_absent "%" r) by (apply IndexByte_absent; exact Er).
        reflexivity.
      * destruct (split_at_first "%" r Er) as [v [b [-> Hv]]].
        rewrite (expand_env_step Getenv fuel a v b Ha Hv).
        apply IH.
        rewrite !count_char_app in *. cbn [count_char] in Hf.
        rewrite count_char_app in Hf. cbn [count_char] in Hf.
        rewrite (count_char_absent "%" a Ha) in *.
        rewrite (count_char_absent "%" v Hv) in Hf.
        rewrite (count_char_absent "%" _ (Henv v)).
        change (Ascii.eqb "%" "%") with true in Hf. lia.
Qed.

Lemma expansion_terminates_witness :
  exists result,
    expand_env (fun v => if String.eqb v "SystemRoot"
                         then "C:\Windows"%string else EmptyString)
      2 "%SystemRoot%\system32\svc.exe" = Ok result
    /\ count_char "%" result <= 1.
Proof.
  apply (expansion_terminates
           (fun v => if String.eqb v "SystemRoot"
                     then "C:\Windows"%string else EmptyString)).
  - intros v. destruct (String.eqb v "SystemRoot"); reflexivity.
  - vm_compute. reflexivity.
Defined.

(** X20. A variable whose value is its own reference makes the
    expansion loop endless: with [Getenv v] equal to [%v%], the loop on
    [a%v%b] never returns, whatever the number of turns. *)
Theorem self_reference_never_ends (Getenv : string -> string)
    (a v b : string) :
  occurs "%" a = false -> occurs "%" v = false ->
  Getenv v = String "%" (append v "%") ->
  forall fuel,
    expand_env Getenv fuel (append a (String "%" (append v (String "%" b))))
    = Fault OutOfFuel.
Proof.
  intros Ha Hv Hself fuel. induction fuel as [|fuel IH]; [reflexivity|].
  rewrite (expand_env_step Getenv fuel a v b Ha Hv), Hself.
  cbn [append]. rewrite string_app_assoc. cbn [append]. exact IH.
Qed.

Lemma self_reference_never_ends_witness :
  expand_env (fun v => String "%" (append v "%")) 1000 "C:\%A%\svc.exe"
  = Fault OutOfFuel.
Proof.
  apply (self_reference_never_ends (fun v => String "%" (append v "%"))
           "C:\" "A" "\svc.exe");
    reflexivity.
Defined.

(** ** The configured channels *)

(** X21. In the table of monitored channels the names are pairwise
    distinct, and every channel has a non-empty allow-list whose ids are
    unchanged by the 16-bit mask, so each of them can be met by the masked
    [EventID] of an event. *)
Theorem configured_ids_are_matchable :
  NoDup (map Name GetChannelConfigs)
  /\ Forall (fun c => EventIDs c <> []
                      /\ Forall (fun id => Z.land id 65535 = id) (EventIDs c))
       GetChannelConfigs.
Proof.
  split.
  - assert (E : nodup string_dec (map Name GetChannelConfigs)
                = map Name GetChannelConfigs) by (vm_compute; reflexivity).
    rewrite <- E. apply NoDup_nodup.
  - unfold GetChannelConfigs.
    repeat (apply Forall_cons;
            [split; [discriminate|repeat constructor]|]).
    apply Forall_nil.
Qed.

(** ** The source name is never empty *)

Lemma first_segment_of_prefixed (logName : string) :
  HasPrefix logName "Microsoft-Windows-" = true ->
  first_segment logName <> EmptyString.
Proof.
  unfold HasPrefix. destruct logName as [|c rest]; cbn [prefix];
    [discriminate|].
  destruct (ascii_dec "M" c) as [<-|]; [|discriminate].
  intros _. cbn [first_segment]. discriminate.
Qed.

(** X22. Whatever the buffer holds, a source name that
    [GetSourceFromEvent] returns for a non-empty channel name is not
    empty: a decoded name is used only when it is not empty, and each
    fallback is a non-empty text. *)
Theorem source_name_never_empty (logName : string) (buffer : list Z)
    (offset : Z) (sourceName : string) :
  logName <> EmptyString ->
  GetSourceFromEvent logName buffer offset = Ok sourceName ->
  sourceName <> EmptyString.
Proof.
  unfold GetSourceFromEvent. intros Hne H. inv_bind H.
  destruct (String.eqb_spec a EmptyString) as [->|Ha]; cbn [negb] in H;
    injection H as <-; [|exact Ha].
  unfold source_fallback.
  destruct ((logName =? "System")%string || (logName =? "Application")%string
            || (logName =? "Security")%string); [exact Hne|].
  destruct (HasPrefix logName "Microsoft-Windows-") eqn:Hp; [|discriminate].
  destruct (Split_first_segment logName) as [rest ->].
  apply first_segment_of_prefixed. exact Hp.
Qed.

Lemma source_name_never_empty_witness :
  "Microsoft-Windows-Sysmon"%string <> EmptyString.
Proof.
  apply (source_name_never_empty "Microsoft-Windows-Sysmon/Operational"
           (sample_record 1 4624) 0);
    [discriminate|vm_compute; reflexivity].
Defined.

(** ** Round trip of the record header *)

Lemma get16_le16 (m : Z) (l : list Z) :
  0 <= m < 65536 -> get16 (le16 m ++ l) 0 = m.
Proof.
  intros Hm. unfold get16, le16. cbn [app Z.to_nat Z.add].
  change (Pos.to_nat 1) with 1%nat. cbn [nth].
  assert (H1 : m / 256 < 256) by (apply Z.div_lt_upper_bound; lia).
  assert (H0 : 0 <= m / 256) by (apply Z.div_pos; lia).
  rewrite (Z.mod_small (m / 256)) by lia.
  pose proof (Z.div_mod m 256 ltac:(lia)). lia.
Qed.

Lemma get16_skip (x l : list Z) (i : Z) :
  0 <= i -> get16 (x ++ l) (len x + i) = get16 l i.
Proof.
  intros H. unfold get16.
  replace (len x + i + 1) with (len x + (i + 1)) by lia.
  rewrite !nth_app_r by lia. reflexivity.
Qed.

Lemma get32_le32 (n : Z) (l : list Z) :
  0 <= n < 4294967296 -> get32 (le32 n ++ l) 0 = n.
Proof.
  intros Hn. unfold get32, le32. rewrite <- app_assoc.
  assert (Hlo : 0 <= n mod 65536 < 65536) by (apply Z.mod_pos_bound; lia).
  assert (Hhi : 0 <= n / 65536 < 65536).
  { split; [apply Z.div_pos; lia|apply Z.div_lt_upper_bound; lia]. }
  rewrite get16_le16 by exact Hlo.
  change (0 + 2) with (len (le16 (n mod 65536)) + 0).
  rewrite get16_skip by lia. rewrite get16_le16 by exact Hhi.
  pose proof (Z.div_mod n 65536 ltac:(lia)). lia.
Qed.

Lemma get32_skip4 (a : Z) (l : list Z) (i : Z) :
  0 <= i -> get32 (le32 a ++ l) (4 + i) = get32 l i.
Proof.
  intros H. change 4 with (len (le32 a)). apply get32_app_r. exact H.
Qed.

Lemma get16_skip4 (a : Z) (l : list Z) (i : Z) :
  0 <= i -> get16 (le32 a ++ l) (4 + i) = get16 l i.
Proof.
  intros H. change 4 with (len (le32 a)). apply get16_skip. exact H.
Qed.

Lemma get16_skip2 (a : Z) (l : list Z) (i : Z) :
  0 <= i -> get16 (le16 a ++ l) (2 + i) = get16 l i.
Proof.
  intros H. change 2 with (len (le16 a)). apply get16_skip. exact H.
Qed.

(** X23. Round trip of the header.  When the buffer begins with the
    bytes of an [EVENTLOGRECORD] whose fields fit their types, the event
    built at offset 0 has the record number, the two times, the event
    type and the category of the structure, and its event id modulo
    65536. *)
Theorem header_round_trip (logName cn : string) (r : EVENTLOGRECORD)
    (rest : list Z) (event : EventLogData) :
  0 <= rec_RecordNumber r < 4294967296 ->
  0 <= rec_TimeGenerated r < 4294967296 ->
  0 <= rec_TimeWritten r < 4294967296 ->
  0 <= rec_EventID r < 4294967296 ->
  0 <= rec_EventType r < 65536 ->
  0 <= rec_EventCategory r < 65536 ->
  build_event logName cn (record_bytes r ++ rest) 0 = Ok event ->
  RecordNumber event = rec_RecordNumber r
  /\ TimeGenerated event = rec_TimeGenerated r
  /\ TimeWritten event = rec_TimeWritten r
  /\ EventID event = rec_EventID r mod 65536
  /\ EventType event = rec_EventType r
  /\ EventCategory event = rec_EventCategory r.
Proof.
  intros H1 H2 H3 H4 H5 H6 B. unfold build_event in B.
  do 13 inv_bind B. injection B as <-.
  cbn [RecordNumber TimeGenerated TimeWritten EventID EventType
       EventCategory].
  apply peek32_inv in E, E0, E1, E2. apply peek16_inv in E3, E4.
  subst a a0 a1 a2 a3 a4.
  unfold record_bytes. rewrite <- !app_assoc.
  replace (0 + 8) with (4 + (4 + 0)) by lia.
  replace (0 + 12) with (4 + (4 + (4 + 0))) by lia.
  replace (0 + 16) with (4 + (4 + (4 + (4 + 0)))) by lia.
  replace (0 + 20) with (4 + (4 + (4 + (4 + (4 + 0))))) by lia.
  replace (0 + 24) with (4 + (4 + (4 + (4 + (4 + (4 + 0)))))) by lia.
  replace (0 + 28)
    with (4 + (4 + (4 + (4 + (4 + (4 + (2 + (2 + 0)))))))) by lia.
  rewrite !get32_skip4, !get16_skip4, !get16_skip2 by lia.
  rewrite !get32_le32, !get16_le16 by lia.
  repeat split.
  change 65535 with (Z.ones 16). rewrite Z.land_ones by lia. reflexivity.
Qed.

Lemma header_round_trip_witness :
  exists event,
    build_event "System" "HOST"
      (record_bytes (mkRecord 60 0 77 1700000000 1700000001
                       (7036 + 65536 * 16384) 4 1 0 0 0 56 0 0 0 0)
         ++ utf16_bytes "up") 0 = Ok event
    /\ RecordNumber event = 77 /\ EventID event = 7036.
Proof.
  eexists. split; [vm_compute; reflexivity|].
  destruct (header_round_trip "System" "HOST"
              (mkRecord 60 0 77 1700000000 1700000001
                 (7036 + 65536 * 16384) 4 1 0 0 0 56 0 0 0 0)
              (utf16_bytes "up") _
              ltac:(cbn; lia) ltac:(cbn; lia) ltac:(cbn; lia)
              ltac:(cbn; lia) ltac:(cbn; lia) ltac:(cbn; lia)
              ltac:(vm_compute; reflexivity)) as [Hr [_ [_ [He _]]]].
  split; [exact Hr|exact He].
Defined.

(** * Logs served by scripted reads *)

Lemma get16_app_l (a b : list Z) (i : Z) :
  0 <= i -> i + 2 <= len a -> get16 (a ++ b) i = get16 a i.
Proof.
  intros H0 H1. unfold len in H1. unfold get16.
  rewrite !app_nth1 by lia. reflexivity.
Qed.

(** The event built at the start of a record has the header fields of
    that record, whatever bytes stand before and after it. *)
Lemma build_event_decodes (logName cn : string) (pre r post : list Z)
    (event : EventLogData) :
  sizeof_EVENTLOGRECORD <= len r ->
  build_event logName cn (pre ++ r ++ post) (len pre) = Ok event ->
  decodes r event.
Proof.
  unfold sizeof_EVENTLOGRECORD. intros Hr B. unfold build_event in B.
  do 13 inv_bind B. injection B as <-.
  apply peek32_inv in E, E0, E1, E2. apply peek16_inv in E3, E4.
  subst a a0 a1 a2 a3 a4. unfold decodes.
  cbn [RecordNumber TimeGenerated TimeWritten EventID EventType
       EventCategory].
  rewrite !get32_app_r, !get16_skip by lia.
  rewrite !get32_app_l, !get16_app_l by lia.
  repeat split.
Qed.

Lemma filter_append_kept (ids : list Z) (logs : list EventLogData)
    (event : EventLogData) (r : list Z) :
  decodes r event ->
  filter_append ids logs event
  = if record_kept ids r then logs ++ [event] else logs.
Proof.
  intros [_ [_ [_ [E _]]]]. unfold filter_append, record_kept. rewrite E.
  destruct (0 <? len ids); [|reflexivity].
  destruct (eventIDMatches _ ids); reflexivity.
Qed.

Lemma overwrite_fits (buffer data : list Z) :
  len data <= len buffer ->
  overwrite buffer data = data ++ skipn (List.length data) buffer.
Proof.
  unfold len, overwrite. intros H. apply firstn_all2.
  rewrite length_app, length_skipn. lia.
Qed.

Lemma len_make_bytes (n : Z) : 0 <= n -> len (make_bytes n) = n.
Proof.
  intros H. unfold len, make_bytes. rewrite repeat_length. lia.
Qed.

(** The walk over a batch of well-formed records that begins the bytes
    read: the events of the records that pass the filter, record by
    record, until the target is reached. *)
Lemma walk_batch (logName cn : string) (ids : list Z) (total : Z)
    (rs : list (list Z)) :
  Forall well_formed_record rs ->
  forall pre post logs,
    len (pre ++ List.concat rs ++ post) <= 4294967240 ->
    len logs < total ->
    exists events,
      Forall2 decodes
        (firstn (Z.to_nat (total - len logs)) (filter (record_kept ids) rs))
        events
      /\ forall fuel,
           (List.length rs + 1 <= fuel)%nat ->
           walk fuel logName cn ids total (pre ++ List.concat rs ++ post)
             (len pre + len (List.concat rs)) (len pre) logs
           = Ok (logs ++ events).
Proof.
  induction 1 as [|r rs [W L] _ IH]; intros pre post logs HL Htot.
  - exists []. split; [rewrite firstn_nil; constructor|].
    intros fuel Hf. destruct fuel as [|fuel]; [lia|]. cbn [walk].
    rewrite walk_step_done by (unfold len; cbn; lia).
    cbn [bind]. rewrite app_nil_r. reflexivity.
  - unfold sizeof_EVENTLOGRECORD in W.
    pose proof (len_nonneg pre) as Hp0.
    pose proof (len_nonneg post) as Hq0.
    pose proof (len_nonneg (List.concat rs)) as Hc0.
    pose proof (len_nonneg logs) as Hl0.
    assert (Hlen : len (pre ++ List.concat (r :: rs) ++ post)
                   = len pre + len r + len (List.concat rs) + len post).
    { cbn [List.concat]. rewrite !len_app. lia. }
    assert (Hc : len (List.concat (r :: rs)) = len r + len (List.concat rs)).
    { cbn [List.concat]. rewrite len_app. reflexivity. }
    assert (Hre : pre ++ List.concat (r :: rs) ++ post
                  = (pre ++ r) ++ List.concat rs ++ post).
    { cbn [List.concat]. rewrite <- !app_assoc. reflexivity. }
    assert (Hdec : pre ++ List.concat (r :: rs) ++ post
                   = pre ++ r ++ List.concat rs ++ post).
    { cbn [List.concat]. rewrite <- !app_assoc. reflexivity. }
    assert (G : get32 (pre ++ List.concat (r :: rs) ++ post) (len pre)
                = len r).
    { rewrite Hdec. replace (len pre) with (len pre + 0) at 1 by lia.
      rewrite get32_app_r by lia. rewrite get32_app_l by lia. exact L. }
    destruct (walk_step_valid logName cn ids total
                (pre ++ List.concat (r :: rs) ++ post)
                (len pre + len (List.concat (r :: rs))) (len pre) logs)
      as [event [B S]]; unfold sizeof_EVENTLOGRECORD; try lia.
    assert (D : decodes r event).
    { rewrite Hdec in B. eapply build_event_decodes; [|exact B].
      unfold sizeof_EVENTLOGRECORD. lia. }
    rewrite (filter_append_kept ids logs event r D) in S.
    rewrite G in S. cbv zeta in S.
    assert (Hb : len pre + len (List.concat (r :: rs))
                 = len (pre ++ r) + len (List.concat rs)).
    { rewrite Hc, len_app. lia. }
    cbn [filter]. destruct (record_kept ids r).
    + assert (Hl1 : len (logs ++ [event]) = len logs + 1).
      { rewrite len_app. reflexivity. }
      assert (Hn : Z.to_nat (total - len logs)
                   = Datatypes.S (Z.to_nat (total - len (logs ++ [event])))).
      { rewrite Hl1. lia. }
      rewrite Hn. cbn [firstn].
      destruct (Z.geb_spec (len (logs ++ [event])) total) as [Hcap|Hcap].
      * exists [event]. split.
        { replace (Z.to_nat (total - len (logs ++ [event]))) with 0%nat
            by lia.
          cbn [firstn]. constructor; [exact D|constructor]. }
        intros fuel Hf. destruct fuel as [|fuel]; [lia|].
        cbn [walk]. rewrite S. reflexivity.
      * destruct (IH (pre ++ r) post (logs ++ [event])) as [events [F W']].
        { rewrite <- Hre. exact HL. }
        { lia. }
        exists (event :: events). split; [constructor; assumption|].
        intros fuel Hf. destruct fuel as [|fuel]; [lia|].
        cbn [walk]. rewrite S. cbn [bind].
        rewrite Hre, Hb, <- (len_app pre r). rewrite W'.
        { rewrite <- app_assoc. reflexivity. }
        cbn [List.length] in Hf. lia.
    + destruct (Z.geb_spec (len logs) total) as [Hcap|Hcap]; [lia|].
      destruct (IH (pre ++ r) post logs) as [events [F W']].
      { rewrite <- Hre. exact HL. }
      { lia. }
      exists events. split; [exact F|].
      intros fuel Hf. destruct fuel as [|fuel]; [lia|].
      cbn [walk]. rewrite S. cbn [bind].
      rewrite Hre, Hb, <- (len_app pre r). apply W'.
      cbn [List.length] in Hf. lia.
Qed.

Lemma firstn_nonpos {A : Type} (z : Z) (l : list A) :
  z <= 0 -> firstn (Z.to_nat z) l = [].
Proof. intros H. replace (Z.to_nat z) with 0%nat by lia. reflexivity. Qed.

Section ScriptedLog.

Variable St : Type.
Variable GetComputerNameW : option string.
Variable OpenEventLogW : string -> OpenResult St.
Variable GetNumberOfEventLogRecords : St -> option Z.
Variable ReadEventLogW : St -> Z -> ReadResult * St.
Variables (logName : string) (ids : list Z).

(** The read loop against a service that plays a script: it returns the
    events of the delivered records that pass the filter, up to the
    target, and the error of the failure that ends the script when the
    target was not reached before it. *)
Lemma read_loop_script (total : Z) (wfuel : nat) (script : list reply) :
  (List.length (delivered script) + 1 <= wfuel)%nat ->
  forall st bufferSize buffer logs fuel,
    len buffer = bufferSize -> 0 < bufferSize <= 4294967240 ->
    serves ReadEventLogW st bufferSize script ->
    well_formed_script bufferSize script ->
    (List.length script <= fuel)%nat ->
    exists events,
      Forall2 decodes
        (firstn (Z.to_nat (total - len logs))
           (filter (record_kept ids) (delivered script)))
        events
      /\ read_loop St GetComputerNameW ReadEventLogW logName ids wfuel fuel
           total st bufferSize buffer logs
         = Ok (logs ++ events,
               if len logs
                  + len (filter (record_kept ids) (delivered script))
                  <? total
               then final_error script else None).
Proof.
  induction script as [|r script IH];
    intros Hw st bufferSize buffer logs fuel Hlen Hsize Hs Hwf Hf;
    [contradiction|].
  destruct fuel as [|fuel]; [cbn [List.length] in Hf; lia|].
  cbn [List.length] in Hf.
  pose proof (len_nonneg logs) as Hl0.
  pose proof (len_nonneg (filter (record_kept ids) (delivered (r :: script))))
    as Hk0.
  cbn [read_loop].
  destruct (Z.ltb_spec (len logs) total) as [Hlt|Hge].
  2:{ exists []. rewrite firstn_nonpos by lia. split; [constructor|].
      rewrite app_nil_r.
      destruct (Z.ltb_spec
                  (len logs
                   + len (filter (record_kept ids) (delivered (r :: script))))
                  total); [lia|reflexivity]. }
  rewrite index_ok by lia. cbn [bind].
  inversion Hs as [|st0 bs0 r0 st' script0 Hread Hrest]; subst st0 bs0 r0 script0.
  rewrite Hread. clear Hk0.
  destruct r as [rs|needed|errno needed]; cbn [reply_result next_size] in *.
  - destruct Hwf as [Wrs [Hfit Hwf]].
    cbn [delivered] in *. rewrite length_app in Hw.
    pose proof (len_nonneg (List.concat rs)) as Hc0.
    cbv zeta. rewrite overwrite_fits by lia.
    rewrite (u32_small (len (List.concat rs))) by lia.
    set (post := skipn (List.length (List.concat rs)) buffer).
    assert (Hnew : len (List.concat rs ++ post) = bufferSize).
    { unfold post, len in *. rewrite length_app, length_skipn. lia. }
    destruct (walk_batch logName (GetLocalComputerName GetComputerNameW) ids
                total rs Wrs [] post logs) as [ev1 [F1 W1]].
    { cbn [app]. lia. }
    { exact Hlt. }
    specialize (W1 wfuel ltac:(lia)). cbn [app] in W1.
    change (len (@nil Z)) with 0 in W1. rewrite Z.add_0_l in W1.
    rewrite W1. cbn [bind].
    destruct (IH ltac:(lia) st' bufferSize (List.concat rs ++ post)
                (logs ++ ev1) fuel Hnew Hsize Hrest Hwf ltac:(lia))
      as [ev2 [F2 R2]].
    exists (ev1 ++ ev2).
    pose proof (Forall2_length F1) as L1. rewrite length_firstn in L1.
    rewrite filter_app, firstn_app. split.
    + apply Forall2_app; [exact F1|].
      replace (Z.to_nat (total - len logs)
               - List.length (filter (record_kept ids) rs))%nat
        with (Z.to_nat (total - len (logs ++ ev1))); [exact F2|].
      rewrite len_app. unfold len in *. lia.
    + rewrite R2, app_assoc. f_equal. f_equal.
      rewrite !len_app.
      destruct (Z.ltb_spec
                  (len logs + len ev1
                   + len (filter (record_kept ids) (delivered script)))
                  total);
        destruct (Z.ltb_spec
                    (len logs
                     + (len (filter (record_kept ids) rs)
                        + len (filter (record_kept ids) (delivered script))))
                    total);
        try reflexivity; unfold len in *; lia.
  - destruct Hwf as [Hn Hwf]. cbn [delivered final_error] in *.
    change (ERROR_INSUFFICIENT_BUFFER =? ERROR_NO_MORE_ITEMS) with false.
    change (ERROR_INSUFFICIENT_BUFFER =? ERROR_INSUFFICIENT_BUFFER) with true.
    cbv iota zeta.
    apply IH; try assumption; try lia. apply len_make_bytes. lia.
  - cbn [delivered final_error filter well_formed_script] in *.
    exists []. rewrite firstn_nil. split; [constructor|].
    rewrite app_nil_r. change (len (@nil (list Z))) with 0.
    destruct (Z.ltb_spec (len logs + 0) total); [|lia].
    destruct (Z.eqb_spec errno ERROR_NO_MORE_ITEMS); [reflexivity|].
    destruct (Z.eqb_spec errno ERROR_INSUFFICIENT_BUFFER);
      [contradiction|reflexivity].
Qed.

(** The collection from a log served by a script. *)
Lemma collect_script (n : Z) (script : list reply) (wfuel fuel : nat)
    (maxEvents : Z) :
  serves_log OpenEventLogW GetNumberOfEventLogRecords ReadEventLogW logName
    n script ->
  (List.length (delivered script) + 1 <= wfuel)%nat ->
  (List.length script <= fuel)%nat ->
  exists events,
    Forall2 decodes
      (firstn (Z.to_nat (limit maxEvents (u32 n)))
         (filter (record_kept ids) (delivered script)))
      events
    /\ CollectWindowsEventLogs St GetComputerNameW OpenEventLogW
         GetNumberOfEventLogRecords ReadEventLogW logName ids wfuel fuel
         maxEvents
       = Ok (events,
             if len (filter (record_kept ids) (delivered script))
                <? limit maxEvents (u32 n)
             then final_error script else None).
Proof.
  intros [Hname [handle [Hopen [Hcount [Hs Hwf]]]]] Hw Hf.
  unfold CollectWindowsEventLogs. rewrite Hname, Hopen, Hcount.
  destruct (read_loop_script (limit maxEvents (u32 n)) wfuel script Hw
              handle 4096 (make_bytes 4096) [] fuel)
    as [events [F R]]; try assumption; [reflexivity|lia|].
  change (len (@nil EventLogData)) with 0 in F, R.
  rewrite Z.sub_0_r in F. rewrite Z.add_0_l in R.
  exists events. split; [exact F|exact R].
Qed.

End ScriptedLog.

Lemma filter_all {A : Type} (f : A -> bool) (l : list A) :
  (forall x, f x = true) -> filter f l = l.
Proof.
  intros H. induction l as [|x l IH]; cbn [filter]; [reflexivity|].
  rewrite H, IH. reflexivity.
Qed.

Lemma record_kept_nil (rs : list (list Z)) : filter (record_kept []) rs = rs.
Proof. apply filter_all. intros r. reflexivity. Qed.

Lemma record_kept_matches (ids : list Z) (rs : list (list Z)) :
  ids <> [] ->
  filter (record_kept ids) rs
  = filter (fun r => eventIDMatches (Z.land (get32 r 20) 65535) ids) rs.
Proof.
  intros Hne. apply filter_ext. intros r. unfold record_kept.
  destruct (Z.ltb_spec 0 (len ids)) as [_|H]; [reflexivity|].
  destruct ids; [contradiction|]. unfold len in H. cbn [List.length] in H.
  lia.
Qed.

Lemma delivered_before_failure (replies : list reply) (errno needed : Z) :
  Forall (fun r => is_failure r = false) replies ->
  delivered (replies ++ [Failure errno needed]) = delivered replies
  /\ final_error (replies ++ [Failure errno needed])
     = (if errno =? ERROR_NO_MORE_ITEMS then None
        else Some (ErrRead errno)).
Proof.
  induction 1 as [|r replies Hr _ [IH1 IH2]]; [split; reflexivity|].
  destruct r as [rs|n|e n]; [| |discriminate Hr];
    cbn [app delivered final_error]; rewrite IH1, IH2; split; reflexivity.
Qed.

(** The collection capped at [maxEvents] returns the first [maxEvents]
    events of the collection without a cap, whatever the service. *)
Lemma collect_capped_prefix (St : Type) (gcn : option string)
    (open : string -> OpenResult St) (count : St -> option Z)
    (read : St -> Z -> ReadResult * St) (logName : string) (ids : list Z)
    (wfuel fuel : nat) (maxEvents : Z) (all : list EventLogData)
    (err : option error) :
  CollectWindowsEventLogs St gcn open count read logName ids wfuel fuel 0
  = Ok (all, err) ->
  0 < maxEvents ->
  exists err',
    CollectWindowsEventLogs St gcn open count read logName ids wfuel fuel
      maxEvents = Ok (firstn (Z.to_nat maxEvents) all, err').
Proof.
  intros H Hpos. unfold CollectWindowsEventLogs in *.
  destruct (has_nul logName).
  { injection H as <- <-. rewrite firstn_nil. eexists. reflexivity. }
  destruct (open logName) as [handle|errno].
  2:{ destruct (errno =? ERROR_FILE_NOT_FOUND); injection H as <- <-;
        rewrite firstn_nil; eexists; reflexivity. }
  destruct (count handle) as [total|].
  2:{ injection H as <- <-. rewrite firstn_nil. eexists. reflexivity. }
  pose proof (u32_range total) as Ht.
  assert (E0 : limit 0 (u32 total) = u32 total) by reflexivity.
  rewrite E0 in H.
  assert (Hb : len all <= u32 total).
  { eapply read_loop_bound; [exact H|]. unfold len. cbn. lia. }
  unfold limit.
  destruct (Z.ltb_spec 0 maxEvents); [|lia]. cbn [andb].
  destruct (Z.gtb_spec (u32 total) maxEvents) as [Hgt|Hle].
  + rewrite (u32_small maxEvents) by lia.
    destruct (read_loop_target St gcn read logName ids wfuel fuel
                maxEvents (u32 total) _ _ _ _ _ _ H) as [err' H'].
    { unfold len. cbn. lia. }
    exists err'. exact H'.
  + exists err. rewrite firstn_all_len by lia. exact H.
Qed.

(** One failed read, in the read loop. *)
Lemma read_loop_failed (St : Type) (gcn : option string)
    (read : St -> Z -> ReadResult * St) (logName : string) (ids : list Z)
    (wfuel fuel : nat) (total : Z) (st : St) (bufferSize : Z)
    (buffer : list Z) (logs : list EventLogData) (errno needed : Z)
    (st' : St) :
  len logs < total -> 0 < len buffer ->
  read st bufferSize = (ReadFailed errno needed, st') ->
  read_loop St gcn read logName ids wfuel (S fuel) total st bufferSize
    buffer logs
  = if errno =? ERROR_NO_MORE_ITEMS then Ok (logs, None)
    else if errno =? ERROR_INSUFFICIENT_BUFFER
         then read_loop St gcn read logName ids wfuel fuel total st'
                (u32 needed) (make_bytes (u32 needed)) logs
         else Ok (logs, Some (ErrRead errno)).
Proof.
  intros Hlt Hbuf Hread. cbn [read_loop].
  destruct (Z.ltb_spec (len logs) total); [|lia].
  rewrite index_ok by lia. cbn [bind]. rewrite Hread. reflexivity.
Qed.

(** No error of a collection is one of the two signals of the read. *)
Lemma collect_error_not_signal (St : Type) (gcn : option string)
    (open : string -> OpenResult St) (count : St -> option Z)
    (read : St -> Z -> ReadResult * St) (logName : string) (ids : list Z)
    (wfuel fuel : nat) (maxEvents : Z) (logs : list EventLogData)
    (err : error) :
  CollectWindowsEventLogs St gcn open count read logName ids wfuel fuel
    maxEvents = Ok (logs, Some err) ->
  err <> ErrRead ERROR_NO_MORE_ITEMS
  /\ err <> ErrRead ERROR_INSUFFICIENT_BUFFER.
Proof.
  intros H. unfold CollectWindowsEventLogs in H.
  destruct (has_nul logName); [injection H as _ <-; split; discriminate|].
  destruct (open logName) as [handle|errno].
  + destruct (count handle) as [total|];
      [|injection H as _ <-; split; discriminate].
    apply read_loop_error in H. destruct H as [errno [-> [H1 H2]]].
    split; congruence.
  + destruct (errno =? ERROR_FILE_NOT_FOUND); injection H as _ <-;
      split; discriminate.
Qed.

(** Discharges that a sample service plays a sample script. *)
Ltac play_script :=
  split; [reflexivity|];
  eexists; split; [reflexivity|]; split; [reflexivity|]; split;
  [repeat (eapply serves_cons; [reflexivity|]); apply serves_nil
  |cbn [well_formed_script app];
   repeat match goal with
          | |- _ /\ _ => split
          | |- Forall _ _ => constructor
          | |- well_formed_record _ => split
          end;
   vm_compute; try reflexivity; try discriminate].

(** C1. The event built from a record has as [EventID] the raw 32-bit
    event id of that record, the field at byte 20 of the record, with
    its high 16 bits cleared, whatever those bits are.  It holds of
    every record at every offset of every buffer; the only event an
    iteration of the record loop adds is the one built at its cursor in
    the buffer it walks; and from a log that the service delivers in
    well-formed records the collection returns, record by record, events
    that carry the masked id of their own record. *)
Theorem event_id_masked :
  (forall logName cn buffer offset event,
      build_event logName cn buffer offset = Ok event ->
      EventID event = Z.land (get32 buffer (offset + 20)) 65535)
  /\ (forall logName cn ids total buffer bytesRead offset logs r,
         walk_step logName cn ids total buffer bytesRead offset logs = Ok r ->
         step_logs r = logs
         \/ exists event,
              step_logs r = logs ++ [event]
              /\ EventID event = Z.land (get32 buffer (offset + 20)) 65535)
  /\ (forall (St : Type) gcn (open : string -> OpenResult St) count read
             logName ids n script wfuel fuel maxEvents,
         serves_log open count read logName n script ->
         (List.length (delivered script) + 1 <= wfuel)%nat ->
         (List.length script <= fuel)%nat ->
         exists logs err,
           CollectWindowsEventLogs St gcn open count read logName ids wfuel
             fuel maxEvents = Ok (logs, err)
           /\ Forall2
                (fun r event => EventID event = Z.land (get32 r 20) 65535)
                (firstn (Z.to_nat (limit maxEvents (u32 n)))
                   (filter (record_kept ids) (delivered script)))
                logs).
Proof.
  split; [|split].
  - intros logName cn buffer offset event B.
    eapply build_event_masks. exact B.
  - intros logName cn ids total buffer bytesRead offset logs r H.
    destruct (walk_step_extends _ _ _ _ _ _ _ _ _ H)
      as [E|[event [B [_ E]]]]; [left; exact E|].
    right. exists event. split; [exact E|].
    eapply build_event_masks. exact B.
  - intros St gcn open count read logName ids n script wfuel fuel maxEvents
      Hs Hw Hf.
    destruct (collect_script St gcn open count read logName ids n script
                wfuel fuel maxEvents Hs Hw Hf) as [events [F C]].
    exists events. eexists. split; [exact C|].
    eapply Forall2_impl; [|exact F].
    intros r event [_ [_ [_ [E _]]]]. exact E.
Qed.

Lemma event_id_masked_witness :
  exists logs err,
    CollectWindowsEventLogs (list ReadResult) (Some "HOST"%string)
      (fun _ =>
         Opened [ReadDone (sample_record 1 (4624 + 65536 * 49152)
                             ++ sample_record 2 (4625 + 65536 * 7));
                 ReadFailed ERROR_NO_MORE_ITEMS 0])
      (fun _ => Some 2) scripted_read "Security" [] 64 16 0
    = Ok (logs, err)
    /\ map EventID logs = [4624; 4625].
Proof.
  destruct (proj2 (proj2 event_id_masked) (list ReadResult)
              (Some "HOST"%string)
              (fun _ =>
                 Opened
                   (map reply_result
                      [Records [sample_record 1 (4624 + 65536 * 49152);
                                sample_record 2 (4625 + 65536 * 7)];
                       Failure ERROR_NO_MORE_ITEMS 0]))
              (fun _ => Some 2) scripted_read "Security"%string [] 2
              [Records [sample_record 1 (4624 + 65536 * 49152);
                        sample_record 2 (4625 + 65536 * 7)];
               Failure ERROR_NO_MORE_ITEMS 0] 64%nat 16%nat 0)
    as [logs [err [C F]]].
  - play_script.
  - vm_compute. lia.
  - vm_compute. lia.
  - exists logs, err. split.
    + exact C.
    + change (Forall2
                (fun r event => EventID event = Z.land (get32 r 20) 65535)
                [sample_record 1 (4624 + 65536 * 49152);
                 sample_record 2 (4625 + 65536 * 7)] logs) in F.
      inversion F as [|r1 e1 ? l1 E1 F1]; subst.
      inversion F1 as [|r2 e2 ? l2 E2 F2]; subst.
      inversion F2; subst. cbn [map]. rewrite E1, E2.
      vm_compute. reflexivity.
Defined.

(** C3. The available records are the records the service delivers that
    pass the filter, and the service counts at least the records it
    delivers.  With [maxEvents] positive the collection returns the
    events of the first [maxEvents] available records, so exactly
    [min maxEvents available] events; with [maxEvents] zero or negative
    it returns the events of all available records.  Whatever the
    service, the capped collection is the first [maxEvents] events of
    the collection without a cap. *)
Theorem capping :
  (forall (St : Type) gcn (open : string -> OpenResult St) count read
          logName ids n script wfuel fuel maxEvents,
      serves_log open count read logName n script ->
      len (delivered script) <= u32 n ->
      (List.length (delivered script) + 1 <= wfuel)%nat ->
      (List.length script <= fuel)%nat ->
      let available := filter (record_kept ids) (delivered script) in
      exists logs err,
        CollectWindowsEventLogs St gcn open count read logName ids wfuel
          fuel maxEvents = Ok (logs, err)
        /\ (0 < maxEvents ->
            Forall2 decodes (firstn (Z.to_nat maxEvents) available) logs
            /\ len logs = Z.min maxEvents (len available))
        /\ (maxEvents <= 0 ->
            Forall2 decodes available logs /\ len logs = len available))
  /\ (forall (St : Type) gcn (open : string -> OpenResult St) count read
             logName ids wfuel fuel maxEvents all err,
         CollectWindowsEventLogs St gcn open count read logName ids wfuel
           fuel 0 = Ok (all, err) ->
         0 < maxEvents ->
         exists err',
           CollectWindowsEventLogs St gcn open count read logName ids wfuel
             fuel maxEvents = Ok (firstn (Z.to_nat maxEvents) all, err')).
Proof.
  split.
  - intros St gcn open count read logName ids n script wfuel fuel maxEvents
      Hs Hn Hw Hf available.
    destruct (collect_script St gcn open count read logName ids n script
                wfuel fuel maxEvents Hs Hw Hf) as [logs [F C]].
    fold available in F, C.
    exists logs. eexists. split; [exact C|].
    pose proof (len_filter_le (record_kept ids) (delivered script)) as Ha.
    fold available in Ha.
    pose proof (len_nonneg available) as Ha0.
    pose proof (u32_range n) as Hr.
    assert (Hlen : forall c, Forall2 decodes (firstn (Z.to_nat c) available)
                               logs ->
                             0 <= c -> len logs = Z.min c (len available)).
    { intros c Fc Hc. apply Forall2_length in Fc.
      rewrite length_firstn in Fc. unfold len in *. lia. }
    unfold limit in F.
    split.
    + intros Hpos. destruct (Z.ltb_spec 0 maxEvents); [|lia].
      cbn [andb] in F.
      destruct (Z.gtb_spec (u32 n) maxEvents) as [Hgt|Hle].
      * rewrite (u32_small maxEvents) in F by lia.
        split; [exact F|]. apply Hlen; [exact F|lia].
      * rewrite firstn_all_len in F by lia.
        rewrite firstn_all_len by lia.
        split; [exact F|]. apply Forall2_length in F. unfold len in *. lia.
    + intros Hneg. destruct (Z.ltb_spec 0 maxEvents); [lia|].
      cbn [andb] in F. rewrite firstn_all_len in F by lia.
      split; [exact F|]. apply Forall2_length in F. unfold len. lia.
  - intros St gcn open count read logName ids wfuel fuel maxEvents all err
      H Hpos.
    eapply collect_capped_prefix; eassumption.
Qed.

Lemma capping_witness :
  exists logs err,
    CollectWindowsEventLogs (list ReadResult) (Some "HOST"%string)
      (fun _ =>
         Opened [ReadDone (sample_record 1 4624);
                 ReadDone (sample_record 2 4648 ++ sample_record 3 4625);
                 ReadDone (sample_record 4 4624);
                 ReadFailed ERROR_NO_MORE_ITEMS 0])
      (fun _ => Some 4) scripted_read "Security" [4624; 4625] 64 16 2
    = Ok (logs, err)
    /\ map RecordNumber logs = [1; 3]
    /\ len logs = Z.min 2 3.
Proof.
  destruct (proj1 capping (list ReadResult) (Some "HOST"%string)
              (fun _ =>
                 Opened
                   (map reply_result
                      [Records [sample_record 1 4624];
                       Records [sample_record 2 4648; sample_record 3 4625];
                       Records [sample_record 4 4624];
                       Failure ERROR_NO_MORE_ITEMS 0]))
              (fun _ => Some 4) scripted_read "Security"%string
              [4624; 4625] 4
              [Records [sample_record 1 4624];
               Records [sample_record 2 4648; sample_record 3 4625];
               Records [sample_record 4 4624];
               Failure ERROR_NO_MORE_ITEMS 0] 64%nat 16%nat 2)
    as [logs [err [C [Hpos _]]]].
  - play_script.
  - vm_compute. discriminate.
  - vm_compute. lia.
  - vm_compute. lia.
  - destruct (Hpos ltac:(lia)) as [F L].
    exists logs, err. split; [exact C|]. split; [|exact L].
    change (Forall2 decodes [sample_record 1 4624; sample_record 3 4625]
              logs) in F.
    inversion F as [|r1 e1 ? l1 [E1 _] F1]; subst.
    inversion F1 as [|r2 e2 ? l2 [E2 _] F2]; subst.
    inversion F2; subst. cbn [map]. rewrite E1, E2.
    vm_compute. reflexivity.
Defined.

(** C4. With a non-empty allow-list every event of a collection has its
    masked event id in the list.  From a log that the service delivers
    in well-formed records, the collection with an empty allow-list
    returns the event of every record, in the order of the log and up
    to the target; with a non-empty allow-list it returns the events of
    exactly the records whose masked event id is in the list: the test
    is made record by record, and the target counts the events that
    passed it.  In any buffer, the iteration at a plausible record
    appends the event built there when the list is empty or holds its
    id, and leaves the events as they are otherwise. *)
Theorem filter_correct :
  (forall (St : Type) gcn (open : string -> OpenResult St) count read
          logName ids wfuel fuel maxEvents logs err,
      ids <> [] ->
      CollectWindowsEventLogs St gcn open count read logName ids wfuel fuel
        maxEvents = Ok (logs, err) ->
      Forall (fun event => In (EventID event) ids) logs)
  /\ (forall (St : Type) gcn (open : string -> OpenResult St) count read
             logName ids n script wfuel fuel maxEvents,
         serves_log open count read logName n script ->
         (List.length (delivered script) + 1 <= wfuel)%nat ->
         (List.length script <= fuel)%nat ->
         exists logs err,
           CollectWindowsEventLogs St gcn open count read logName ids wfuel
             fuel maxEvents = Ok (logs, err)
           /\ (ids = [] ->
               Forall2 decodes
                 (firstn (Z.to_nat (limit maxEvents (u32 n)))
                    (delivered script))
                 logs)
           /\ (ids <> [] ->
               Forall2 decodes
                 (firstn (Z.to_nat (limit maxEvents (u32 n)))
                    (filter
                       (fun r =>
                          eventIDMatches (Z.land (get32 r 20) 65535) ids)
                       (delivered script)))
                 logs))
  /\ (forall logName cn ids total buffer bytesRead offset logs,
         0 <= offset -> bytesRead <= len buffer ->
         len buffer <= 4294967294 ->
         sizeof_EVENTLOGRECORD <= get32 buffer offset <= bytesRead - offset ->
         exists event r,
           build_event logName cn buffer offset = Ok event
           /\ walk_step logName cn ids total buffer bytesRead offset logs
              = Ok r
           /\ step_logs r
              = match ids with
                | [] => logs ++ [event]
                | _ :: _ =>
                    if eventIDMatches (EventID event) ids
                    then logs ++ [event] else logs
                end).
Proof.
  split; [|split].
  - intros St gcn open count read logName ids wfuel fuel maxEvents logs err
      Hne H.
    apply collect_produced in H.
    eapply Forall_impl; [|exact H].
    intros event [buffer [offset [_ [Hnil|Hin]]]]; [contradiction|exact Hin].
  - intros St gcn open count read logName ids n script wfuel fuel maxEvents
      Hs Hw Hf.
    destruct (collect_script St gcn open count read logName ids n script
                wfuel fuel maxEvents Hs Hw Hf) as [logs [F C]].
    exists logs. eexists. split; [exact C|]. split.
    + intros ->. rewrite record_kept_nil in F. exact F.
    + intros Hne. rewrite record_kept_matches in F by exact Hne. exact F.
  - intros logName cn ids total buffer bytesRead offset logs H0 H1 H2 H3.
    destruct (walk_step_valid logName cn ids total buffer bytesRead offset
                logs H0 H1 H2 H3) as [event [B E]].
    exists event. eexists. split; [exact B|]. split; [exact E|].
    assert (Hf : filter_append ids logs event
                 = match ids with
                   | [] => logs ++ [event]
                   | _ :: _ =>
                       if eventIDMatches (EventID event) ids
                       then logs ++ [event] else logs
                   end).
    { unfold filter_append. destruct ids as [|i rest]; [reflexivity|].
      destruct (Z.ltb_spec 0 (len (i :: rest))) as [_|H]; [reflexivity|].
      unfold len in H. cbn [List.length] in H. lia. }
    cbv zeta. rewrite <- Hf.
    destruct (len (filter_append ids logs event) >=? total); reflexivity.
Qed.

Lemma filter_correct_witness :
  (exists logs err,
      CollectWindowsEventLogs (list ReadResult) (Some "HOST"%string)
        (fun _ =>
           Opened [ReadDone (sample_record 1 4624 ++ sample_record 2 4648);
                   ReadDone (sample_record 3 4625);
                   ReadFailed ERROR_NO_MORE_ITEMS 0])
        (fun _ => Some 3) scripted_read "Security" [] 64 16 0
      = Ok (logs, err)
      /\ map RecordNumber logs = [1; 2; 3])
  /\ (exists logs err,
         CollectWindowsEventLogs (list ReadResult) (Some "HOST"%string)
           (fun _ =>
              Opened [ReadDone (sample_record 1 4624 ++ sample_record 2 4648);
                      ReadDone (sample_record 3 4625);
                      ReadFailed ERROR_NO_MORE_ITEMS 0])
           (fun _ => Some 3) scripted_read "Security" [4624; 4625] 64 16 0
         = Ok (logs, err)
         /\ map RecordNumber logs = [1; 3]
         /\ Forall (fun event => In (EventID event) [4624; 4625]) logs).
Proof.
  split.
  - destruct (proj1 (proj2 filter_correct) (list ReadResult)
                (Some "HOST"%string)
                (fun _ =>
                   Opened
                     (map reply_result
                        [Records [sample_record 1 4624; sample_record 2 4648];
                         Records [sample_record 3 4625];
                         Failure ERROR_NO_MORE_ITEMS 0]))
                (fun _ => Some 3) scripted_read "Security"%string [] 3
                [Records [sample_record 1 4624; sample_record 2 4648];
                 Records [sample_record 3 4625];
                 Failure ERROR_NO_MORE_ITEMS 0] 64%nat 16%nat 0)
      as [logs [err [C [Hall _]]]].
    + play_script.
    + vm_compute. lia.
    + vm_compute. lia.
    + exists logs, err. split; [exact C|].
      specialize (Hall eq_refl).
      change (Forall2 decodes
                [sample_record 1 4624; sample_record 2 4648;
                 sample_record 3 4625] logs) in Hall.
      inversion Hall as [|r1 e1 ? l1 [E1 _] F1]; subst.
      inversion F1 as [|r2 e2 ? l2 [E2 _] F2]; subst.
      inversion F2 as [|r3 e3 ? l3 [E3 _] F3]; subst.
      inversion F3; subst. cbn [map]. rewrite E1, E2, E3.
      vm_compute. reflexivity.
  - destruct (proj1 (proj2 filter_correct) (list ReadResult)
                (Some "HOST"%string)
                (fun _ =>
                   Opened
                     (map reply_result
                        [Records [sample_record 1 4624; sample_record 2 4648];
                         Records [sample_record 3 4625];
                         Failure ERROR_NO_MORE_ITEMS 0]))
                (fun _ => Some 3) scripted_read "Security"%string
                [4624; 4625] 3
                [Records [sample_record 1 4624; sample_record 2 4648];
                 Records [sample_record 3 4625];
                 Failure ERROR_NO_MORE_ITEMS 0] 64%nat 16%nat 0)
      as [logs [err [C [_ Hsome]]]].
    + play_script.
    + vm_compute. lia.
    + vm_compute. lia.
    + exists logs, err. split; [exact C|]. split.
      * specialize (Hsome ltac:(discriminate)).
        change (Forall2 decodes
                  [sample_record 1 4624; sample_record 3 4625] logs)
          in Hsome.
        inversion Hsome as [|r1 e1 ? l1 [E1 _] F1]; subst.
        inversion F1 as [|r2 e2 ? l2 [E2 _] F2]; subst.
        inversion F2; subst. cbn [map]. rewrite E1, E2.
        vm_compute. reflexivity.
      * eapply (proj1 filter_correct); [discriminate|exact C].
Defined.

(** C9. A failed read stops the loop with the events decoded so far and
    an error, unless the error number is one of the two signals: on
    no-more-items the loop ends without error, on insufficient-buffer it
    allocates the size the service asked for and reads again with the
    same events; so no error of a collection is one of the two signals.
    For a log whose reads deliver well-formed records, ask for bigger
    buffers, and then fail: when the target was not reached before, the
    collection returns the events of all the delivered records that
    pass the filter, those read before and after a request for a bigger
    buffer alike, together with the error of the failure, and without
    error when the failure is the end of the log. *)
Theorem read_failure_handling :
  (forall (St : Type) gcn (read : St -> Z -> ReadResult * St) logName ids
          wfuel fuel total st bufferSize buffer logs errno needed st',
      len logs < total -> 0 < len buffer ->
      read st bufferSize = (ReadFailed errno needed, st') ->
      read_loop St gcn read logName ids wfuel (S fuel) total st bufferSize
        buffer logs
      = if errno =? ERROR_NO_MORE_ITEMS then Ok (logs, None)
        else if errno =? ERROR_INSUFFICIENT_BUFFER
             then read_loop St gcn read logName ids wfuel fuel total st'
                    (u32 needed) (make_bytes (u32 needed)) logs
             else Ok (logs, Some (ErrRead errno)))
  /\ (forall (St : Type) gcn (open : string -> OpenResult St) count read
             logName ids wfuel fuel maxEvents logs err,
         CollectWindowsEventLogs St gcn open count read logName ids wfuel
           fuel maxEvents = Ok (logs, Some err) ->
         err <> ErrRead ERROR_NO_MORE_ITEMS
         /\ err <> ErrRead ERROR_INSUFFICIENT_BUFFER)
  /\ (forall (St : Type) gcn (open : string -> OpenResult St) count read
             logName ids n replies errno needed wfuel fuel maxEvents,
         serves_log open count read logName n
           (replies ++ [Failure errno needed]) ->
         Forall (fun r => is_failure r = false) replies ->
         len (filter (record_kept ids) (delivered replies))
         < limit maxEvents (u32 n) ->
         (List.length (delivered replies) + 1 <= wfuel)%nat ->
         (List.length replies + 1 <= fuel)%nat ->
         exists logs,
           Forall2 decodes (filter (record_kept ids) (delivered replies))
             logs
           /\ CollectWindowsEventLogs St gcn open count read logName ids
                wfuel fuel maxEvents
              = Ok (logs,
                    if errno =? ERROR_NO_MORE_ITEMS then None
                    else Some (ErrRead errno))).
Proof.
  split; [|split].
  - intros. apply read_loop_failed; assumption.
  - intros. eapply collect_error_not_signal; eassumption.
  - intros St gcn open count read logName ids n replies errno needed wfuel
      fuel maxEvents Hs Hno Hcap Hw Hf.
    destruct (delivered_before_failure replies errno needed Hno) as [Hd He].
    destruct (collect_script St gcn open count read logName ids n
                (replies ++ [Failure errno needed]) wfuel fuel maxEvents Hs)
      as [logs [F C]].
    { rewrite Hd. exact Hw. }
    { rewrite length_app. cbn [List.length]. lia. }
    rewrite Hd in F, C. rewrite He in C.
    rewrite firstn_all_len in F by lia.
    destruct (Z.ltb_spec
                (len (filter (record_kept ids) (delivered replies)))
                (limit maxEvents (u32 n))); [|lia].
    exists logs. split; [exact F|exact C].
Qed.

Lemma read_failure_handling_witness :
  exists logs,
    CollectWindowsEventLogs (list ReadResult) (Some "HOST"%string)
      (fun _ =>
         Opened [ReadDone (sample_record 1 4624);
                 ReadFailed ERROR_INSUFFICIENT_BUFFER 8192;
                 ReadDone (sample_record 2 4648);
                 ReadFailed 5 0])
      (fun _ => Some 7) scripted_read "System" [] 64 16 0
    = Ok (logs, Some (ErrRead 5))
    /\ map RecordNumber logs = [1; 2]
    /\ (ErrRead 5 <> ErrRead ERROR_NO_MORE_ITEMS
        /\ ErrRead 5 <> ErrRead ERROR_INSUFFICIENT_BUFFER).
Proof.
  destruct (proj2 (proj2 read_failure_handling) (list ReadResult)
              (Some "HOST"%string)
              (fun _ =>
                 Opened
                   (map reply_result
                      ([Records [sample_record 1 4624]; TooSmall 8192;
                        Records [sample_record 2 4648]]
                         ++ [Failure 5 0])))
              (fun _ => Some 7) scripted_read "System"%string [] 7
              [Records [sample_record 1 4624]; TooSmall 8192;
               Records [sample_record 2 4648]] 5 0 64%nat 16%nat 0)
    as [logs [F C]].
  - play_script.
  - repeat constructor.
  - vm_compute. reflexivity.
  - vm_compute. lia.
  - vm_compute. lia.
  - exists logs. split; [exact C|]. split.
    + change (Forall2 decodes [sample_record 1 4624; sample_record 2 4648]
                logs) in F.
      inversion F as [|r1 e1 ? l1 [E1 _] F1]; subst.
      inversion F1 as [|r2 e2 ? l2 [E2 _] F2]; subst.
      inversion F2; subst. cbn [map]. rewrite E1, E2.
      vm_compute. reflexivity.
    + eapply (proj1 (proj2 read_failure_handling)). exact C.
Defined.
